(** * private-session.js: a shallow embedding and its verified properties

    The extension keeps the host player's "private session" switched on by
    driving the player's own account menu.  The script is one flat file of
    functions over seven module-level variables, the browser's local
    storage, its event-listener registries, its timers and the DOM.

    The embedding follows the script:
    - [Globals] holds the seven variables, [Page] adds local storage and
      the listener registries; the persistence store and the persistent-mode
      controller are functions from pages to pages.
    - The async functions are values of [Script]: trees of effects (DOM
      queries and clicks, the clock, timers, accesses to the variables) with
      [Throw] for exceptions and [try_catch] for the handler.  Loops with a
      constant bound recurse on the number of iterations left.
    - [exec] runs one call to completion against a [Host].  The host is
      arbitrary: the document it shows is any function of what the script
      did so far, a delay may last longer than asked for, and while the
      call waits for a timer the other callbacks of the script may change
      its variables.  A call gives way to timers and events only where it
      awaits a timer; awaiting one of the script's own async functions runs
      on without a gap.
    - [turns] is the event loop: calls, timer callbacks and window events
      run in the order in which they are due, each until its next await.
    - [Dom] models the menu list handed to the injector as a tree, with the
      selectors the injector uses.  The mutation observer that calls the
      injector is not modelled. *)

From Stdlib Require Import ZArith Ascii String List Bool Lia.
From stdpp Require Import base decidable option list strings gmap.

Local Open Scope string_scope.
Local Open Scope list_scope.
Local Open Scope Z_scope.

(** ** Constants (lines 1-23 of the script) *)

Definition PS_PRIVATE_SESSION_LABEL_TEXT : string := "Private session".
Definition PS_PERSISTENT_SESSION_LABEL_TEXT : string := "Persistent Privacy".

Definition PS_RETRY_LIMIT : nat := 3.
Definition PS_INDICATOR_RETRIES : nat := 2.
Definition PS_DELAY_MS : Z := 100.
Definition MENU_OPERATION_COOLDOWN : Z := 500.

Module PS_CSS_SELECTORS.
Definition PRIVATE_SESSION_INDICATOR_CONTAINER : string :=
  ".Root__globalNav > div:last-child".
Definition MAIN_MENU : string :=
  "button.main-userWidget-box, button[data-testid='user-widget-avatar'], .main-userWidget-box button, [data-testid='user-widget-dropdown'], button.main-avatar-button".
Definition MENU_ITEM_LABEL : string := "span".
Definition MENU_ITEM_BUTTON : string :=
  "button[role='menuitemcheckbox'], button[role='menuitem']".
Definition MENU_ITEM_CHECKED : string := "svg".
Definition PROFILE_DROPDOWN_MENU : string :=
  "ul.main-contextMenu-menu, [role='menu'], ul[role='menu']".
End PS_CSS_SELECTORS.

Definition PS_PERSISTENT_ITEM_ID : string := "ps-persistent-item".

(** The local-storage key used by save and load. *)
Definition STORAGE_KEY : string := "private-session-persistent-mode".

(** ** Script variables and browser registries *)

(** Function objects are compared by identity by [addEventListener] and
    [removeEventListener]; a closure is represented by the allocation number
    it received when the function expression was evaluated. *)
Inductive Closure : Type :=
| FocusHandler (id : nat)          (* the arrow function stored in focusEventListener *)
| VisibilityForwarder (id : nat).  (* the anonymous visibilitychange arrow function *)

#[global] Instance Closure_eq_dec : EqDecision Closure.
Proof. solve_decision. Defined.

Definition closure_id (c : Closure) : nat :=
  match c with FocusHandler n | VisibilityForwarder n => n end.

Definition TimerId : Type := nat.

(** The "State variables" block (lines 25-32). *)
Record Globals : Type := mkGlobals {
  persistentModeEnabled : bool;
  focusEventListener : option Closure;
  menuItemAdded : bool;
  menuOperationInProgress : bool;
  lastMenuOperationTime : Z;
  pendingFocusCheck : bool;
  menuCloseTimer : option TimerId
}.

Definition initial_globals : Globals :=
  {| persistentModeEnabled := false; focusEventListener := None;
     menuItemAdded := false; menuOperationInProgress := false;
     lastMenuOperationTime := 0; pendingFocusCheck := false;
     menuCloseTimer := None |}.

Definition set_persistentModeEnabled (b : bool) (g : Globals) : Globals :=
  {| persistentModeEnabled := b;
     focusEventListener := focusEventListener g;
     menuItemAdded := menuItemAdded g;
     menuOperationInProgress := menuOperationInProgress g;
     lastMenuOperationTime := lastMenuOperationTime g;
     pendingFocusCheck := pendingFocusCheck g;
     menuCloseTimer := menuCloseTimer g |}.

Definition set_focusEventListener (l : option Closure) (g : Globals) : Globals :=
  {| persistentModeEnabled := persistentModeEnabled g;
     focusEventListener := l;
     menuItemAdded := menuItemAdded g;
     menuOperationInProgress := menuOperationInProgress g;
     lastMenuOperationTime := lastMenuOperationTime g;
     pendingFocusCheck := pendingFocusCheck g;
     menuCloseTimer := menuCloseTimer g |}.

Definition set_menuOperationInProgress (b : bool) (g : Globals) : Globals :=
  {| persistentModeEnabled := persistentModeEnabled g;
     focusEventListener := focusEventListener g;
     menuItemAdded := menuItemAdded g;
     menuOperationInProgress := b;
     lastMenuOperationTime := lastMenuOperationTime g;
     pendingFocusCheck := pendingFocusCheck g;
     menuCloseTimer := menuCloseTimer g |}.

Definition set_lastMenuOperationTime (t : Z) (g : Globals) : Globals :=
  {| persistentModeEnabled := persistentModeEnabled g;
     focusEventListener := focusEventListener g;
     menuItemAdded := menuItemAdded g;
     menuOperationInProgress := menuOperationInProgress g;
     lastMenuOperationTime := t;
     pendingFocusCheck := pendingFocusCheck g;
     menuCloseTimer := menuCloseTimer g |}.

Definition set_pendingFocusCheck (b : bool) (g : Globals) : Globals :=
  {| persistentModeEnabled := persistentModeEnabled g;
     focusEventListener := focusEventListener g;
     menuItemAdded := menuItemAdded g;
     menuOperationInProgress := menuOperationInProgress g;
     lastMenuOperationTime := lastMenuOperationTime g;
     pendingFocusCheck := b;
     menuCloseTimer := menuCloseTimer g |}.

Definition set_menuCloseTimer (t : option TimerId) (g : Globals) : Globals :=
  {| persistentModeEnabled := persistentModeEnabled g;
     focusEventListener := focusEventListener g;
     menuItemAdded := menuItemAdded g;
     menuOperationInProgress := menuOperationInProgress g;
     lastMenuOperationTime := lastMenuOperationTime g;
     pendingFocusCheck := pendingFocusCheck g;
     menuCloseTimer := t |}.

(** The page: the script's variables together with the browser objects the
    persistent-mode functions write to. *)
Record Page : Type := mkPage {
  vars : Globals;
  localStorage : gmap string string;
  windowFocusListeners : list Closure;        (* window, "focus" *)
  documentVisibilityListeners : list Closure; (* document, "visibilitychange" *)
  nextClosure : nat                           (* function objects created so far *)
}.

Definition initial_page : Page :=
  {| vars := initial_globals; localStorage := ∅;
     windowFocusListeners := []; documentVisibilityListeners := [];
     nextClosure := 0 |}.

Definition with_vars (f : Globals → Globals) (p : Page) : Page :=
  {| vars := f (vars p); localStorage := localStorage p;
     windowFocusListeners := windowFocusListeners p;
     documentVisibilityListeners := documentVisibilityListeners p;
     nextClosure := nextClosure p |}.

(** [EventTarget.addEventListener]: a listener that is already registered for
    the type is not registered twice. *)
Definition addEventListener (c : Closure) (ls : list Closure) : list Closure :=
  if decide (c ∈ ls) then ls else ls ++ [c].

(** [EventTarget.removeEventListener]: removes the registration of that same
    function object, when there is one. *)
Fixpoint removeEventListener (c : Closure) (ls : list Closure) : list Closure :=
  match ls with
  | [] => []
  | x :: rest => if decide (x = c) then rest else x :: removeEventListener c rest
  end.

(** [Boolean.prototype.toString]. *)
Definition Boolean_toString (b : bool) : string :=
  if b then "true" else "false".

(** ** Persistence store (lines 154-166) *)

Definition savePersistentModeSetting (p : Page) : Page :=
  {| vars := vars p;
     localStorage :=
       <[STORAGE_KEY := Boolean_toString (persistentModeEnabled (vars p))]>
         (localStorage p);
     windowFocusListeners := windowFocusListeners p;
     documentVisibilityListeners := documentVisibilityListeners p;
     nextClosure := nextClosure p |}.

(** [getItem] answers [null] for a missing key; [null === "true"] is false. *)
Definition loadPersistentModeSetting (p : Page) : Page :=
  let savedSetting := localStorage p !! STORAGE_KEY in
  with_vars (set_persistentModeEnabled (bool_decide (savedSetting = Some "true"))) p.

(** ** Persistent-mode controller (lines 324-374, 448-474) *)

(** The body of [if (!focusEventListener) { ... }] in [enablePersistentMode]:
    two function expressions are evaluated, the first is stored in the
    variable and registered on the window, the second is registered on the
    document.  (What the handlers do when they fire is not part of this
    function.) *)
Definition installListeners (p : Page) : Page :=
  let handler := FocusHandler (nextClosure p) in
  let forwarder := VisibilityForwarder (S (nextClosure p)) in
  {| vars := set_focusEventListener (Some handler) (vars p);
     localStorage := localStorage p;
     windowFocusListeners := addEventListener handler (windowFocusListeners p);
     documentVisibilityListeners :=
       addEventListener forwarder (documentVisibilityListeners p);
     nextClosure := S (S (nextClosure p)) |}.

Definition enablePersistentMode (p : Page) : Page :=
  let p := with_vars (set_persistentModeEnabled true) p in
  let p := savePersistentModeSetting p in
  match focusEventListener (vars p) with
  | None => installListeners p
  | Some _ => p
  end.

Definition disablePersistentMode (p : Page) : Page :=
  let p := with_vars (set_persistentModeEnabled false) p in
  let p := savePersistentModeSetting p in
  match focusEventListener (vars p) with
  | Some l =>
      {| vars := set_focusEventListener None (vars p);
         localStorage := localStorage p;
         windowFocusListeners := removeEventListener l (windowFocusListeners p);
         documentVisibilityListeners := documentVisibilityListeners p;
         nextClosure := nextClosure p |}
  | None => p
  end.

Definition togglePersistentMode (p : Page) : Page :=
  let p := with_vars (fun g => set_persistentModeEnabled
                                 (negb (persistentModeEnabled g)) g) p in
  let p := savePersistentModeSetting p in
  if persistentModeEnabled (vars p)
  then enablePersistentMode p
  else disablePersistentMode p.

(** The registries are consistent with the variable when the window carries
    exactly the handler held in [focusEventListener], and every registered
    function object was created earlier.  Every page the script can reach is
    consistent ([reachable_consistent] below). *)
Definition consistent (p : Page) : Prop :=
  windowFocusListeners p = from_option (λ l, [l]) [] (focusEventListener (vars p))
  ∧ (∀ c, c ∈ windowFocusListeners p → (closure_id c < nextClosure p)%nat)
  ∧ (∀ c, c ∈ documentVisibilityListeners p → (closure_id c < nextClosure p)%nat).

(** Is a focus listener of the script installed on the window? *)
Definition focusListenerInstalled (p : Page) : bool :=
  match focusEventListener (vars p) with
  | Some l => bool_decide (l ∈ windowFocusListeners p)
  | None => false
  end.

(** The public operations of the controller, and sequences of them. *)
Inductive PersistentOp : Type := OpEnable | OpDisable | OpToggle.

Definition run_op (o : PersistentOp) : Page → Page :=
  match o with
  | OpEnable => enablePersistentMode
  | OpDisable => disablePersistentMode
  | OpToggle => togglePersistentMode
  end.

Definition run_ops (os : list PersistentOp) (p : Page) : Page :=
  fold_left (λ q o, run_op o q) os p.

(** The stored string is the string form of the flag. *)
Definition storage_in_sync (p : Page) : Prop :=
  localStorage p !! STORAGE_KEY
  = Some (Boolean_toString (persistentModeEnabled (vars p))).

(** A page as the script finds it when it is loaded: fresh variables, no
    listeners, and whatever an earlier run left in local storage. *)
Definition page_at_load (stored : gmap string string) : Page :=
  {| vars := initial_globals; localStorage := stored;
     windowFocusListeners := []; documentVisibilityListeners := [];
     nextClosure := 0 |}.

(** The pages the persistence and persistent-mode functions can produce. *)
Inductive reachable : Page → Prop :=
| reach_load (stored : gmap string string) : reachable (page_at_load stored)
| reach_read (p : Page) : reachable p → reachable (loadPersistentModeSetting p)
| reach_save (p : Page) : reachable p → reachable (savePersistentModeSetting p)
| reach_op (o : PersistentOp) (p : Page) : reachable p → reachable (run_op o p).

(** ** Scripts: async functions as resumptions over an effect signature *)

(** DOM elements are references; the host decides what they denote. *)
Definition Elem : Type := nat.

(** Timer callbacks, defunctionalised: the delayed re-check of
    [ensureMenuClosed] (lines 197-204), which captures [menuButton], and the
    delayed check scheduled by the focus handler (lines 338-360). *)
Inductive Callback : Type :=
| MenuCloseCheck (menuButton : Elem)
| FocusCheck.

Inductive Eff : Type :=
| DocQuerySelector (sel : string)             (* document.querySelector(sel) *)
| DocQuerySelectorAll (sel : string)          (* document.querySelectorAll(sel) *)
| ElQuerySelector (e : Elem) (sel : string)   (* e.querySelector(sel) *)
| ElQuerySelectorAll (e : Elem) (sel : string)
| ElTextContent (e : Elem)                    (* e.textContent *)
| ElClick (e : Elem)                          (* e.click() *)
| DateNow                                     (* Date.now() *)
| Delay (ms : Z)            (* await new Promise(resolve => setTimeout(resolve, ms)) *)
| SetTimeout (cb : Callback) (ms : Z)
| ClearTimeout (t : TimerId)
| ReadGlobals
| WriteMenuOperationInProgress (b : bool)
| WriteLastMenuOperationTime (t : Z)
| WriteMenuCloseTimer (t : option TimerId)
| WritePendingFocusCheck (b : bool)
| CallLoadPersistentModeSetting               (* loadPersistentModeSetting() *)
| CallEnablePersistentMode                    (* enablePersistentMode() *)
| CallSetupMenuObserver.                      (* setupMenuObserver() *)

#[global] Instance Callback_eq_dec : EqDecision Callback.
Proof. solve_decision. Defined.
#[global] Instance Eff_eq_dec : EqDecision Eff.
Proof. solve_decision. Defined.

Definition Resp (e : Eff) : Type :=
  match e with
  | DocQuerySelector _ | ElQuerySelector _ _ => option Elem
  | DocQuerySelectorAll _ | ElQuerySelectorAll _ _ => list Elem
  | ElTextContent _ => string
  | DateNow => Z
  | SetTimeout _ _ => TimerId
  | ReadGlobals => Globals
  | ElClick _ | Delay _ | ClearTimeout _
  | WriteMenuOperationInProgress _ | WriteLastMenuOperationTime _
  | WriteMenuCloseTimer _ | WritePendingFocusCheck _
  | CallLoadPersistentModeSetting | CallEnablePersistentMode
  | CallSetupMenuObserver => unit
  end.

(** The effects that touch the DOM. *)
Definition is_dom (e : Eff) : bool :=
  match e with
  | DocQuerySelector _ | DocQuerySelectorAll _ | ElQuerySelector _ _
  | ElQuerySelectorAll _ _ | ElTextContent _ | ElClick _ => true
  | _ => false
  end.

Definition dom_interactions (tr : list Eff) : list Eff := List.filter is_dom tr.

Definition delay_of (e : Eff) : option Z :=
  match e with Delay ms => Some ms | _ => None end.

Inductive Script (A : Type) : Type :=
| Ret (a : A)
| Throw (message : string)                 (* throw new Error(message) *)
| Do (e : Eff) (k : Resp e → Script A).
Arguments Ret {A} a.
Arguments Throw {A} message.
Arguments Do {A} e k.

Fixpoint bind {A B : Type} (m : Script A) (f : A → Script B) : Script B :=
  match m with
  | Ret a => f a
  | Throw msg => Throw msg
  | Do e k => Do e (λ x, bind (k x) f)
  end.

Declare Scope script_scope.
Delimit Scope script_scope with script.
Bind Scope script_scope with Script.
Notation "x <- m ;; k" := (bind m (λ x, k))
  (at level 100, m at next level, k at level 200, right associativity)
  : script_scope.
Notation "m ;; k" := (bind m (λ _, k))
  (at level 100, k at level 200, right associativity, only parsing)
  : script_scope.
Local Open Scope script_scope.

(** [try { body } catch (error) { handler }] *)
Fixpoint try_catch {A : Type} (body : Script A) (handler : string → Script A) : Script A :=
  match body with
  | Ret a => Ret a
  | Throw msg => handler msg
  | Do e k => Do e (λ x, try_catch (k x) handler)
  end.

Definition perform (e : Eff) : Script (Resp e) := Do e Ret.

Definition querySelector (sel : string) : Script (option Elem) :=
  perform (DocQuerySelector sel).
Definition querySelectorAll (sel : string) : Script (list Elem) :=
  perform (DocQuerySelectorAll sel).
Definition elQuerySelector (e : Elem) (sel : string) : Script (option Elem) :=
  perform (ElQuerySelector e sel).
Definition elQuerySelectorAll (e : Elem) (sel : string) : Script (list Elem) :=
  perform (ElQuerySelectorAll e sel).
Definition elTextContent (e : Elem) : Script string := perform (ElTextContent e).
Definition click (e : Elem) : Script unit := perform (ElClick e).
Definition dateNow : Script Z := perform DateNow.
Definition delay (ms : Z) : Script unit := perform (Delay ms).
Definition setTimeout (cb : Callback) (ms : Z) : Script TimerId :=
  perform (SetTimeout cb ms).
Definition clearTimeout (t : TimerId) : Script unit := perform (ClearTimeout t).
Definition readGlobals : Script Globals := perform ReadGlobals.

(** *** String helpers of the host language *)

(** Characters removed by [String.prototype.trim], restricted to the
    one-byte ones: TAB, LF, VT, FF, CR and SPACE. *)
Definition is_space (c : ascii) : bool :=
  let n := nat_of_ascii c in
  ((9 <=? n)%nat && (n <=? 13)%nat) || (n =? 32)%nat.

Fixpoint trimStart (s : string) : string :=
  match s with
  | String c rest => if is_space c then trimStart rest else s
  | EmptyString => EmptyString
  end.

Definition trim (s : string) : string :=
  String.rev (trimStart (String.rev (trimStart s))).

(** [s.includes(sub)] *)
Fixpoint includes (s sub : string) : bool :=
  String.prefix sub s ||
  match s with
  | String _ rest => includes rest sub
  | EmptyString => false
  end.

(** ** DOM locator (lines 40-60) *)

(** What [getElement] returns when it finds something: one element, or the
    non-empty node list. *)
Inductive Found : Type :=
| OneElement (e : Elem)
| ElementList (es : list Elem).

(** The [for] loop of [getElement] with [remaining] iterations to go. *)
Fixpoint getElement_loop (remaining : nat) (selector : string) (multiple : bool)
  : Script (option Found) :=
  match remaining with
  | O => Ret None
  | S remaining' =>
      if multiple then
        elements <- querySelectorAll selector ;;
        if (0 <? length elements)%nat then Ret (Some (ElementList elements))
        else delay PS_DELAY_MS ;; getElement_loop remaining' selector multiple
      else
        element <- querySelector selector ;;
        match element with
        | Some el => Ret (Some (OneElement el))
        | None => delay PS_DELAY_MS ;; getElement_loop remaining' selector multiple
        end
  end.

Definition getElement (selector : string) (multiple : bool) : Script (option Found) :=
  getElement_loop PS_RETRY_LIMIT selector multiple.

(** ** Menu controller (lines 68-319) *)

Definition isMenuItemSelected (button : Elem) : Script bool :=
  marker <- elQuerySelector button PS_CSS_SELECTORS.MENU_ITEM_CHECKED ;;
  Ret (bool_decide (is_Some marker)).

Definition isMenuItemWithLabel (button : Elem) (labelText : string) : Script bool :=
  label <- elQuerySelector button PS_CSS_SELECTORS.MENU_ITEM_LABEL ;;
  match label with
  | None => Ret false
  | Some l => text <- elTextContent l ;; Ret (bool_decide (trim text = labelText))
  end.

Fixpoint searchButtons (menuItems : list Elem) (labelText : string)
  : Script (option Elem) :=
  match menuItems with
  | [] => Ret None
  | button :: rest =>
      found <- isMenuItemWithLabel button labelText ;;
      if found then Ret (Some button) else searchButtons rest labelText
  end.

Definition searchForMenuItemButton (labelText : string) : Script (option Elem) :=
  menuItems <- querySelectorAll PS_CSS_SELECTORS.MENU_ITEM_BUTTON ;;
  if (length menuItems =? 0)%nat then Ret None
  else searchButtons menuItems labelText.

Fixpoint findMenuItemButton_loop (remaining : nat) (labelText : string)
  : Script (option Elem) :=
  match remaining with
  | O => Ret None
  | S remaining' =>
      button <- searchForMenuItemButton labelText ;;
      match button with
      | Some b => Ret (Some b)
      | None => delay PS_DELAY_MS ;; findMenuItemButton_loop remaining' labelText
      end
  end.

Definition findMenuItemButton (labelText : string) : Script (option Elem) :=
  findMenuItemButton_loop PS_RETRY_LIMIT labelText.

Fixpoint findPrivateSessionButtonIn (buttons : list Elem) : Script (option Elem) :=
  match buttons with
  | [] => Ret None
  | button :: rest =>
      text <- elTextContent button ;;
      if includes text PS_PRIVATE_SESSION_LABEL_TEXT then Ret (Some button)
      else findPrivateSessionButtonIn rest
  end.

Definition findPrivateSessionButtonInContainer (container : Elem) : Script (option Elem) :=
  buttons <- elQuerySelectorAll container "button, * button, * * button, * * * button" ;;
  findPrivateSessionButtonIn buttons.

Definition searchForPrivateSessionIndicator : Script (option Elem) :=
  container <- querySelector PS_CSS_SELECTORS.PRIVATE_SESSION_INDICATOR_CONTAINER ;;
  match container with
  | None => Ret None
  | Some c => findPrivateSessionButtonInContainer c
  end.

Fixpoint findPrivateSessionIndicator_loop (remaining : nat) : Script (option Elem) :=
  match remaining with
  | O => Ret None
  | S remaining' =>
      indicator <- searchForPrivateSessionIndicator ;;
      match indicator with
      | Some i => Ret (Some i)
      | None => delay PS_DELAY_MS ;; findPrivateSessionIndicator_loop remaining'
      end
  end.

Definition findPrivateSessionIndicator : Script (option Elem) :=
  findPrivateSessionIndicator_loop PS_INDICATOR_RETRIES.

Definition isPrivateSessionActive : Script bool :=
  indicator <- findPrivateSessionIndicator ;;
  Ret (bool_decide (is_Some indicator)).

Definition ensureMenuClosed : Script unit :=
  g <- readGlobals ;;
  match menuCloseTimer g with
  | Some t => clearTimeout t ;; perform (WriteMenuCloseTimer None)
  | None => Ret tt
  end ;;
  openMenu <- querySelector PS_CSS_SELECTORS.PROFILE_DROPDOWN_MENU ;;
  match openMenu with
  | None => Ret tt
  | Some _ =>
      menuButton <- querySelector PS_CSS_SELECTORS.MAIN_MENU ;;
      match menuButton with
      | None => Ret tt
      | Some b =>
          click b ;;
          t <- setTimeout (MenuCloseCheck b) 150 ;;
          perform (WriteMenuCloseTimer (Some t))
      end
  end.

Definition canPerformMenuOperation : Script bool :=
  g <- readGlobals ;;
  if menuOperationInProgress g then Ret false
  else
    now <- dateNow ;;
    if (now - lastMenuOperationTime g <? MENU_OPERATION_COOLDOWN)%Z then Ret false
    else Ret true.

Definition openMainMenu : Script Elem :=
  ensureMenuClosed ;;
  delay 150 ;;
  menu <- getElement PS_CSS_SELECTORS.MAIN_MENU false ;;
  match menu with
  | Some (OneElement m) => click m ;; delay (PS_DELAY_MS * 2) ;; Ret m
  | _ => Throw "Failed to find menu button"   (* [!menu]; a single match is never a list *)
  end.

Definition activatePrivateSessionMenuItem : Script bool :=
  privateSessionMenuItem <- findMenuItemButton PS_PRIVATE_SESSION_LABEL_TEXT ;;
  match privateSessionMenuItem with
  | None => Throw (PS_PRIVATE_SESSION_LABEL_TEXT +:+ " menu item not found")
  | Some item =>
      selected <- isMenuItemSelected item ;;
      (if negb selected then click item ;; delay PS_DELAY_MS else Ret tt) ;;
      Ret true
  end.

Definition cleanupMenuOperation : Script unit :=
  ensureMenuClosed ;;
  perform (WriteMenuOperationInProgress false).

Definition prepareMenuOperation : Script unit :=
  perform (WriteMenuOperationInProgress true) ;;
  now <- dateNow ;;
  perform (WriteLastMenuOperationTime now).

Definition handlePrivateSessionActivation (forceOpen : bool) : Script bool :=
  if negb forceOpen then Ret false
  else
    prepareMenuOperation ;;
    openMainMenu ;;
    activatePrivateSessionMenuItem ;;
    cleanupMenuOperation ;;
    Ret true.

(** The [try] block and the [catch] block of [startPrivateSession]. *)
Definition startPrivateSession_try (forceOpen : bool) : Script bool :=
  isActive <- isPrivateSessionActive ;;
  if isActive then Ret true
  else handlePrivateSessionActivation forceOpen.

Definition startPrivateSession_catch (error : string) : Script bool :=
  cleanupMenuOperation ;;
  Ret false.

Definition startPrivateSession (forceOpen : bool) : Script bool :=
  allowed <- canPerformMenuOperation ;;
  if negb allowed then Ret false
  else try_catch (startPrivateSession_try forceOpen) startPrivateSession_catch.

(** ** Focus handler and initialisation (lines 330-364, 788-824) *)

(** The timer callbacks: the re-check of [ensureMenuClosed], and the delayed
    focus check, which re-asserts the private session when the persistent
    mode is on. *)
Definition callback_body (cb : Callback) : Script unit :=
  match cb with
  | MenuCloseCheck menuButton =>
      menuStillOpen <- querySelector PS_CSS_SELECTORS.PROFILE_DROPDOWN_MENU ;;
      match menuStillOpen with
      | Some _ => click menuButton
      | None => Ret tt
      end ;;
      perform (WriteMenuCloseTimer None)
  | FocusCheck =>
      perform (WritePendingFocusCheck false) ;;
      openMenu <- querySelector PS_CSS_SELECTORS.PROFILE_DROPDOWN_MENU ;;
      g <- readGlobals ;;
      if negb (persistentModeEnabled g) || menuOperationInProgress g
         || bool_decide (is_Some openMenu)
      then Ret tt
      else
        isActive <- isPrivateSessionActive ;;
        g <- readGlobals ;;
        if negb isActive && persistentModeEnabled g
        then startPrivateSession true ;; Ret tt
        else Ret tt
  end.

(** The function stored in [focusEventListener]. *)
Definition focusEventListener_body : Script unit :=
  g <- readGlobals ;;
  if negb (pendingFocusCheck g)
  then perform (WritePendingFocusCheck true) ;;
       setTimeout FocusCheck 500 ;;
       Ret tt
  else Ret tt.

Definition initializePrivateSession : Script unit :=
  perform CallLoadPersistentModeSetting ;;
  perform CallSetupMenuObserver ;;
  isPrivateSessionActive ;;
  g <- readGlobals ;;
  (if persistentModeEnabled g then perform CallEnablePersistentMode else Ret tt) ;;
  delay 800 ;;
  isActive <- isPrivateSessionActive ;;
  if negb isActive then startPrivateSession true ;; Ret tt else Ret tt.

(** ** Running scripts *)

Inductive Result (A : Type) : Type :=
| Returned (a : A)          (* the promise is fulfilled with [a] *)
| Thrown (message : string). (* the exception escapes: the promise is rejected *)
Arguments Returned {A} a.
Arguments Thrown {A} message.

(** What the DOM answers at one moment.  [querySelector] is the first
    element of [querySelectorAll]. *)
Record Document : Type := mkDocument {
  matching : string → list Elem;          (* document.querySelectorAll(sel) *)
  matchingIn : Elem → string → list Elem; (* e.querySelectorAll(sel) *)
  textOf : Elem → string                  (* e.textContent *)
}.

Record World : Type := mkWorld {
  page : Page;
  clock : Z;                                  (* what Date.now() answers *)
  timers : list (TimerId * (Callback * Z));   (* pending setTimeout callbacks, with due time *)
  nextTimer : TimerId;
  trace : list Eff                            (* every effect performed so far, oldest first *)
}.

(** The host application and the rest of the event loop, as one call sees
    them: the document is a function of everything the script did so far;
    a delay may last longer than asked for; while the call is suspended,
    other callbacks of the script may have written to its variables. *)
Record Host : Type := mkHost {
  document : list Eff → Document;
  lag : list Eff → N;
  interference : list Eff → Globals → Globals
}.

Definition update_page (f : Page → Page) (w : World) : World :=
  {| page := f (page w); clock := clock w; timers := timers w;
     nextTimer := nextTimer w; trace := trace w |}.

Definition update_vars (f : Globals → Globals) (w : World) : World :=
  {| page := with_vars f (page w); clock := clock w; timers := timers w;
     nextTimer := nextTimer w; trace := trace w |}.

Definition log (e : Eff) (w : World) : World :=
  {| page := page w; clock := clock w; timers := timers w;
     nextTimer := nextTimer w; trace := trace w ++ [e] |}.

Definition add_timer (cb : Callback) (ms : Z) (w : World) : World :=
  {| page := page w; clock := clock w;
     timers := timers w ++ [(nextTimer w, (cb, clock w + ms))];
     nextTimer := S (nextTimer w); trace := trace w |}.

Definition remove_timer (t : TimerId) (w : World) : World :=
  {| page := page w; clock := clock w;
     timers := List.filter (λ x, negb (fst x =? t)%nat) (timers w);
     nextTimer := nextTimer w; trace := trace w |}.

Definition set_clock (t : Z) (w : World) : World :=
  {| page := page w; clock := t; timers := timers w;
     nextTimer := nextTimer w; trace := trace w |}.

Definition globals (w : World) : Globals := vars (page w).

(** One effect: its answer, and the world after it.  The DOM answers are
    read off the document as it is after the history so far. *)
Definition handle (h : Host) (e : Eff) : World → World * Resp e :=
  match e return World → World * Resp e with
  | DocQuerySelector sel => λ w,
      (log (DocQuerySelector sel) w, head (matching (document h (trace w)) sel))
  | DocQuerySelectorAll sel => λ w,
      (log (DocQuerySelectorAll sel) w, matching (document h (trace w)) sel)
  | ElQuerySelector el sel => λ w,
      (log (ElQuerySelector el sel) w, head (matchingIn (document h (trace w)) el sel))
  | ElQuerySelectorAll el sel => λ w,
      (log (ElQuerySelectorAll el sel) w, matchingIn (document h (trace w)) el sel)
  | ElTextContent el => λ w,
      (log (ElTextContent el) w, textOf (document h (trace w)) el)
  | ElClick el => λ w, (log (ElClick el) w, tt)
  | DateNow => λ w, (log DateNow w, clock w)
  | Delay ms => λ w, (log (Delay ms) w, tt)
  | SetTimeout cb ms => λ w, (log (SetTimeout cb ms) (add_timer cb ms w), nextTimer w)
  | ClearTimeout t => λ w, (log (ClearTimeout t) (remove_timer t w), tt)
  | ReadGlobals => λ w, (log ReadGlobals w, globals w)
  | WriteMenuOperationInProgress b => λ w,
      (log (WriteMenuOperationInProgress b)
           (update_vars (set_menuOperationInProgress b) w), tt)
  | WriteLastMenuOperationTime t => λ w,
      (log (WriteLastMenuOperationTime t)
           (update_vars (set_lastMenuOperationTime t) w), tt)
  | WriteMenuCloseTimer t => λ w,
      (log (WriteMenuCloseTimer t) (update_vars (set_menuCloseTimer t) w), tt)
  | WritePendingFocusCheck b => λ w,
      (log (WritePendingFocusCheck b) (update_vars (set_pendingFocusCheck b) w), tt)
  | CallLoadPersistentModeSetting => λ w,
      (log CallLoadPersistentModeSetting (update_page loadPersistentModeSetting w), tt)
  | CallEnablePersistentMode => λ w,
      (log CallEnablePersistentMode (update_page enablePersistentMode w), tt)
  | CallSetupMenuObserver => λ w, (log CallSetupMenuObserver w, tt)
  end.

(** What a call finds when it is resumed after an effect: nothing changed,
    unless the effect was a delay, in which case at least [ms] milliseconds
    went by and the other callbacks had their turn. *)
Definition resumed (h : Host) (e : Eff) (w : World) : World :=
  match e with
  | Delay ms =>
      update_vars (interference h (trace w))
        (set_clock (clock w + ms + Z.of_N (lag h (trace w))) w)
  | _ => w
  end.

(** A call run to completion. *)
Fixpoint exec {A : Type} (h : Host) (p : Script A) (w : World) : World * Result A :=
  match p with
  | Ret a => (w, Returned a)
  | Throw msg => (w, Thrown msg)
  | Do e k => let '(w', x) := handle h e w in exec h (k x) (resumed h e w')
  end.

(** The events a run added to the trace. *)
Definition new_events (before after : World) : list Eff :=
  drop (length (trace before)) (trace after).

(** ** The event loop: several calls in flight *)

(** A call that has been started: either finished, or suspended in a delay
    of [ms] milliseconds with [k] left to run. *)
Inductive Suspension (A : Type) : Type :=
| Finished (r : Result A)
| Sleeping (ms : Z) (k : Script A).
Arguments Finished {A} r.
Arguments Sleeping {A} ms k.

(** Run a call up to its next [await] of a timer. *)
Fixpoint run_sync {A : Type} (h : Host) (p : Script A) (w : World)
  : World * Suspension A :=
  match p with
  | Ret a => (w, Finished (Returned a))
  | Throw msg => (w, Finished (Thrown msg))
  | Do e k =>
      let '(w', x) := handle h e w in
      match delay_of e with
      | Some ms => (w', Sleeping ms (k x))
      | None => run_sync h (k x) w'
      end
  end.

(** What a finished call hands back: a boolean, or nothing. *)
Inductive Value : Type :=
| Undefined
| Boolean (b : bool).

Record Task : Type := mkTask {
  wake : Z;                         (* when the call is made, or when its delay ends *)
  code : Script Value;              (* what is left of it *)
  outcome : option (Result Value);  (* set when it has finished *)
  own : list Eff                    (* the effects this call performed *)
}.

(** Events the browser delivers to the page. *)
Inductive PageEvent : Type :=
| WindowFocus.

Record Loop : Type := mkLoop {
  world : World;
  tasks : list Task;
  inbox : list (Z * PageEvent)      (* events still to be delivered, with their time *)
}.

(** A call to [startPrivateSession(forceOpen)] made at time [t]. *)
Definition call_at (t : Z) (forceOpen : bool) : Task :=
  {| wake := t;
     code := (b <- startPrivateSession forceOpen ;; Ret (Boolean b));
     outcome := None; own := [] |}.

(** The script starting at time [t]. *)
Definition script_start_at (t : Z) : Task :=
  {| wake := t;
     code := (initializePrivateSession ;; Ret Undefined);
     outcome := None; own := [] |}.

Inductive Job : Type :=
| RunTask (i : nat)
| FireTimer (t : TimerId)
| Deliver (k : nat).

Definition pending_jobs (l : Loop) : list (Z * Job) :=
  imap (λ i t, (wake t, RunTask i)) (tasks l)
  ++ map (λ x, (snd (snd x), FireTimer (fst x))) (timers (world l))
  ++ imap (λ k ev, (fst ev, Deliver k)) (inbox l).

Definition is_pending (l : Loop) (j : Z * Job) : bool :=
  match snd j with
  | RunTask i =>
      match tasks l !! i with
      | Some t => bool_decide (outcome t = None)
      | None => false
      end
  | FireTimer _ | Deliver _ => true
  end.

(** The job that is due first; among jobs due at the same time, the one
    listed first. *)
Fixpoint earliest (js : list (Z * Job)) : option (Z * Job) :=
  match js with
  | [] => None
  | j :: rest =>
      match earliest rest with
      | Some j' => if (fst j' <? fst j)%Z then Some j' else Some j
      | None => Some j
      end
  end.

Definition next_job (l : Loop) : option (Z * Job) :=
  earliest (List.filter (is_pending l) (pending_jobs l)).

(** The task after a run from [before] to [after] that ended in [s]. *)
Definition settle (before after : World) (s : Suspension Value) (t : Task) : Task :=
  match s with
  | Finished r =>
      {| wake := wake t; code := code t; outcome := Some r;
         own := own t ++ new_events before after |}
  | Sleeping ms k =>
      {| wake := clock after + ms; code := k; outcome := None;
         own := own t ++ new_events before after |}
  end.

Definition run_task (h : Host) (i : nat) (l : Loop) : Loop :=
  match tasks l !! i with
  | None => l
  | Some t =>
      let '(w', s) := run_sync h (code t) (world l) in
      {| world := w'; tasks := <[i := settle (world l) w' s t]> (tasks l);
         inbox := inbox l |}
  end.

(** A timer fires: its callback becomes a call of its own. *)
Definition fire_timer (h : Host) (t : TimerId) (l : Loop) : Loop :=
  match List.find (λ x, (fst x =? t)%nat) (timers (world l)) with
  | None => l
  | Some (_, (cb, _)) =>
      let w := remove_timer t (world l) in
      let t0 := {| wake := clock w; code := (callback_body cb ;; Ret Undefined);
                   outcome := None; own := [] |} in
      let '(w', s) := run_sync h (code t0) w in
      {| world := w'; tasks := tasks l ++ [settle w w' s t0]; inbox := inbox l |}
  end.

(** An event is delivered: for a window focus, every handler registered on
    the window runs. *)
Definition deliver (h : Host) (k : nat) (l : Loop) : Loop :=
  match inbox l !! k with
  | None => l
  | Some (_, WindowFocus) =>
      {| world := fold_left (λ w _, (run_sync h focusEventListener_body w).1)
                            (windowFocusListeners (page (world l))) (world l);
         tasks := tasks l;
         inbox := delete k (inbox l) |}
  end.

(** One turn of the loop: the clock moves to the due time of the next job,
    which then runs until it returns or awaits. *)
Definition turn (h : Host) (l : Loop) : Loop :=
  match next_job l with
  | None => l
  | Some (due, j) =>
      let l' := {| world := set_clock (Z.max (clock (world l)) due) (world l);
                   tasks := tasks l; inbox := inbox l |} in
      match j with
      | RunTask i => run_task h i l'
      | FireTimer t => fire_timer h t l'
      | Deliver k => deliver h k l'
      end
  end.

Fixpoint turns (n : nat) (h : Host) (l : Loop) : Loop :=
  match n with
  | O => l
  | S n' => turns n' h (turn h l)
  end.

(** A call is in flight when it has run [prepareMenuOperation] and has not
    yet run [cleanupMenuOperation]: the last value it wrote to
    [menuOperationInProgress] is [true]. *)
Fixpoint last_lock_write (evs : list Eff) : option bool :=
  match evs with
  | [] => None
  | e :: rest =>
      match last_lock_write rest with
      | Some b => Some b
      | None => match e with WriteMenuOperationInProgress b => Some b | _ => None end
      end
  end.

Definition in_flight (t : Task) : bool :=
  bool_decide (last_lock_write (own t) = Some true).

Definition operations_in_flight (l : Loop) : nat :=
  length (List.filter in_flight (tasks l)).

Definition initial_world : World :=
  {| page := initial_page; clock := 0; timers := []; nextTimer := 1%nat; trace := [] |}.

(** ** A concrete host, for evaluating the script on a running player

    The account button is element 1.  Clicking it opens the account menu
    (element 2) when it is closed and closes it when it is open.  The open
    menu holds the private-session button (element 3) with its label
    (element 4); clicking that button switches the private session on or
    off.  While the session is on, the button shows its check mark
    (element 5) and the navigation bar (element 6) shows the indicator
    button (element 7). *)
Definition clicks_on (el : Elem) (tr : list Eff) : nat :=
  length (List.filter (λ e, bool_decide (e = ElClick el)) tr).

Definition player_document (sessionOnAtStart : bool) (tr : list Eff) : Document :=
  let menuOpen := Nat.odd (clicks_on 1%nat tr) in
  let sessionOn := xorb sessionOnAtStart (Nat.odd (clicks_on 3%nat tr)) in
  {| matching := λ sel,
       if String.eqb sel PS_CSS_SELECTORS.MAIN_MENU then [1%nat]
       else if String.eqb sel PS_CSS_SELECTORS.PROFILE_DROPDOWN_MENU
            then (if menuOpen then [2%nat] else [])
       else if String.eqb sel PS_CSS_SELECTORS.MENU_ITEM_BUTTON
            then (if menuOpen then [3%nat] else [])
       else if String.eqb sel PS_CSS_SELECTORS.PRIVATE_SESSION_INDICATOR_CONTAINER
            then [6%nat]
       else [];
     matchingIn := λ el sel,
       if (el =? 3)%nat && String.eqb sel PS_CSS_SELECTORS.MENU_ITEM_LABEL then [4%nat]
       else if (el =? 3)%nat && String.eqb sel PS_CSS_SELECTORS.MENU_ITEM_CHECKED
            then (if sessionOn then [5%nat] else [])
       else if (el =? 6)%nat then (if sessionOn then [7%nat] else [])
       else [];
     textOf := λ el,
       if (el =? 4)%nat || (el =? 7)%nat then PS_PRIVATE_SESSION_LABEL_TEXT else EmptyString |}.

(** The player with exact timers and no other script activity. *)
Definition player (sessionOnAtStart : bool) : Host :=
  {| document := player_document sessionOnAtStart;
     lag := λ _, 0%N;
     interference := λ _ g, g |}.

(** ** Menu-item injector (lines 381-443, 482-615) on a DOM tree

    The injector works synchronously on the menu list element it is handed.
    The list is modelled as a detached tree; an element inside it is named
    by its path from the list (child indices). *)
Module Dom.

(** The three listeners [addButtonEventListeners] attaches. *)
Inductive Handler : Type :=
| HighlightOnHover     (* mouseover: backgroundColor = rgba(255,255,255,0.1) *)
| ClearHighlight       (* mouseout: backgroundColor = transparent *)
| ToggleOnClick.       (* click: togglePersistentMode() and refresh the toggle *)

Record Props : Type := mkProps {
  tagName : string;
  id : string;
  className : string;
  style : list (string * string);   (* the declarations of style.cssText *)
  title : string;
  role : string;
  listeners : list (string * Handler)
}.

#[warnings="-register-all"] Inductive Node : Type :=
| Text (data : string)
| Element (props : Props) (children : list Node).

Definition Path : Type := list nat.

Definition createElement (tag : string) : Node :=
  Element {| tagName := tag; id := EmptyString; className := EmptyString; style := [];
             title := EmptyString; role := EmptyString; listeners := [] |} [].

Definition with_props (f : Props → Props) (n : Node) : Node :=
  match n with
  | Element p cs => Element (f p) cs
  | Text s => Text s
  end.

Definition set_id (v : string) (p : Props) : Props :=
  {| tagName := tagName p; id := v; className := className p; style := style p;
     title := title p; role := role p; listeners := listeners p |}.
Definition set_className (v : string) (p : Props) : Props :=
  {| tagName := tagName p; id := id p; className := v; style := style p;
     title := title p; role := role p; listeners := listeners p |}.
Definition set_style (v : list (string * string)) (p : Props) : Props :=
  {| tagName := tagName p; id := id p; className := className p; style := v;
     title := title p; role := role p; listeners := listeners p |}.
Definition set_title (v : string) (p : Props) : Props :=
  {| tagName := tagName p; id := id p; className := className p; style := style p;
     title := v; role := role p; listeners := listeners p |}.
Definition set_role (v : string) (p : Props) : Props :=
  {| tagName := tagName p; id := id p; className := className p; style := style p;
     title := title p; role := v; listeners := listeners p |}.
Definition add_listener (type : string) (hd : Handler) (p : Props) : Props :=
  {| tagName := tagName p; id := id p; className := className p; style := style p;
     title := title p; role := role p; listeners := listeners p ++ [(type, hd)] |}.

Definition appendChild (child : Node) (n : Node) : Node :=
  match n with
  | Element p cs => Element p (cs ++ [child])
  | Text s => Text s
  end.

(** [el.innerHTML = markup], given the parse of the markup. *)
Definition set_children (cs : list Node) (n : Node) : Node :=
  match n with
  | Element p _ => Element p cs
  | Text s => Text s
  end.

Fixpoint textContent (n : Node) : string :=
  match n with
  | Text s => s
  | Element _ cs =>
      (fix all (cs : list Node) : string :=
         match cs with
         | [] => EmptyString
         | c :: rest => textContent c +:+ all rest
         end) cs
  end.

(** The descendants of a node in document order, each with its path. *)
Fixpoint descendants (n : Node) : list (Path * Node) :=
  match n with
  | Text _ => []
  | Element _ cs =>
      (fix from (i : nat) (cs : list Node) : list (Path * Node) :=
         match cs with
         | [] => []
         | c :: rest =>
             (([i], c) :: map (λ d, (i :: fst d, snd d)) (descendants c))
               ++ from (S i) rest
         end) 0%nat cs
  end.

(** The entries that the children [cs], numbered from [i], contribute to
    [descendants]: the inner loop of [descendants], on its own. *)
Fixpoint children_from (i : nat) (cs : list Node) : list (Path * Node) :=
  match cs with
  | [] => []
  | c :: rest =>
      (([i], c) :: map (λ d, (i :: fst d, snd d)) (descendants c))
        ++ children_from (S i) rest
  end.

Fixpoint node_at (n : Node) (p : Path) : option Node :=
  match p with
  | [] => Some n
  | i :: p' =>
      match n with
      | Element _ cs =>
          match cs !! i with
          | Some c => node_at c p'
          | None => None
          end
      | Text _ => None
      end
  end.

(** [f] applied to the node at path [p]. *)
Fixpoint update_at (n : Node) (p : Path) (f : Node → Node) : Node :=
  match p with
  | [] => f n
  | i :: p' =>
      match n with
      | Element pr cs => Element pr (alter (λ c, update_at c p' f) i cs)
      | Text s => Text s
      end
  end.

(** [target.after(new)]: [new] becomes the next sibling of the node at
    [p]; a node without a parent is left alone. *)
Fixpoint insert_after (n : Node) (p : Path) (new : Node) : Node :=
  match p with
  | [] => n
  | [i] =>
      match n with
      | Element pr cs =>
          if (i <? length cs)%nat
          then Element pr (take (S i) cs ++ new :: drop (S i) cs)
          else n
      | Text s => Text s
      end
  | i :: p' =>
      match n with
      | Element pr cs => Element pr (alter (λ c, insert_after c p' new) i cs)
      | Text s => Text s
      end
  end.

(** The selectors the injector uses inside the menu list. *)
Inductive Selector : Type :=
| ByTag (tag : string)        (* "span", "button", "li" *)
| ById (ident : string)       (* "#ps-persistent-item" *)
| ByClass (cls : string).     (* ".sidebar-checkbox" *)

(** The class tokens of a [className]: its maximal runs of non-space
    characters. *)
Fixpoint tokens_from (current : string) (s : string) : list string :=
  match s with
  | EmptyString => if String.eqb current EmptyString then [] else [current]
  | String c rest =>
      if is_space c
      then (if String.eqb current EmptyString then tokens_from EmptyString rest
            else current :: tokens_from EmptyString rest)
      else tokens_from (current +:+ String c EmptyString) rest
  end.

Definition classList (cls : string) : list string := tokens_from EmptyString cls.

Definition matches (sel : Selector) (n : Node) : bool :=
  match n with
  | Text _ => false
  | Element p _ =>
      match sel with
      | ByTag tag => String.eqb (tagName p) tag
      | ById ident => String.eqb (id p) ident
      | ByClass cls => existsb (String.eqb cls) (classList (className p))
      end
  end.

(** The entries of a list of descendants that match [sel]. *)
Definition hits (sel : Selector) (ds : list (Path * Node)) : list (Path * Node) :=
  List.filter (λ d, matches sel (snd d)) ds.

(** [root.querySelectorAll(sel)], as paths from [root]. *)
Definition querySelectorAll (root : Node) (sel : Selector) : list Path :=
  map fst (hits sel (descendants root)).

(** A node in which nothing matches [sel], the node itself included. *)
Definition silent (sel : Selector) (n : Node) : Prop :=
  matches sel n = false ∧ querySelectorAll n sel = [].

Definition querySelector (root : Node) (sel : Selector) : option Path :=
  head (querySelectorAll root sel).

(** The same queries from an element inside the tree; the answers are
    paths from [root] again. *)
Definition querySelectorAllIn (root : Node) (p : Path) (sel : Selector) : list Path :=
  match node_at root p with
  | Some n => map (λ q, p ++ q) (querySelectorAll n sel)
  | None => []
  end.

Definition querySelectorIn (root : Node) (p : Path) (sel : Selector) : option Path :=
  head (querySelectorAllIn root p sel).

Definition matches_at (root : Node) (sel : Selector) (p : Path) : bool :=
  match node_at root p with
  | Some n => matches sel n
  | None => false
  end.

(** [el.closest(sel)]: the element itself or its nearest ancestor that
    matches, searched up to the root of the detached tree. *)
Definition closest (root : Node) (p : Path) (sel : Selector) : option Path :=
  List.find (matches_at root sel)
            (map (λ k, take k p) (rev (seq 0 (S (length p))))).

Definition textContent_at (root : Node) (p : Path) : string :=
  match node_at root p with
  | Some n => textContent n
  | None => EmptyString
  end.

Definition newline : string := String (ascii_of_nat 10) EmptyString.

(** The parse of the markup [createToggleSwitch(isEnabled)] returns: the
    pill, holding the knob, with the white space of the template around
    them. *)
Definition createToggleSwitch (isEnabled : bool) : list Node :=
  [ Text (newline +:+ "    ");
    Element
      {| tagName := "div"; id := EmptyString; className := "toggle-switch";
         style := [("position", "relative"); ("width", "40px"); ("height", "20px");
                   ("background-color", if isEnabled then "#1DB954" else "#535353");
                   ("border-radius", "10px");
                   ("transition", "background-color 0.3s")];
         title := EmptyString; role := EmptyString; listeners := [] |}
      [ Text (newline +:+ "      ");
        Element
          {| tagName := "div"; id := EmptyString; className := "toggle-slider";
             style := [("position", "absolute"); ("top", "2px");
                       ("left", if isEnabled then "22px" else "2px");
                       ("width", "16px"); ("height", "16px");
                       ("background-color", "white"); ("border-radius", "50%");
                       ("transition", "left 0.3s")];
             title := EmptyString; role := EmptyString; listeners := [] |} [];
        Text (newline +:+ "    ") ];
    Text (newline +:+ "  ") ].

Definition toggleTitle (isEnabled : bool) : string :=
  if isEnabled then "Click to disable persistent privacy mode"
  else "Click to enable persistent privacy mode".

Definition toggleContainerStyle : list (string * string) :=
  [("width", "40px"); ("height", "20px"); ("display", "flex");
   ("align-items", "center"); ("justify-content", "center")].

(** [ensureToggleContainer(button)]: the path of the container, and the
    tree, in which it has been appended to the button if it was missing. *)
Definition ensureToggleContainer (root : Node) (button : Path) : Node * Path :=
  match querySelectorIn root button (ByClass "sidebar-checkbox") with
  | Some toggleContainer => (root, toggleContainer)
  | None =>
      let toggleContainer :=
        with_props (set_style toggleContainerStyle)
          (with_props (set_className "sidebar-checkbox") (createElement "span")) in
      let n := match node_at root button with
               | Some (Element _ cs) => length cs
               | _ => 0%nat
               end in
      (update_at root button (appendChild toggleContainer), button ++ [n])
  end.

Definition updateToggleContainer (g : Globals) (root : Node) (button : Path) : Node :=
  let '(root, toggleContainer) := ensureToggleContainer root button in
  let root := update_at root toggleContainer
                (set_children (createToggleSwitch (persistentModeEnabled g))) in
  update_at root toggleContainer
    (with_props (set_title (toggleTitle (persistentModeEnabled g)))).

(** [updatePersistentMenuItemState(menuItemElement)], called with the
    element (the only way [ensurePersistentMenuItem] calls it). *)
Definition updatePersistentMenuItemState (g : Globals) (root : Node)
    (menuItemElement : Path) : Node :=
  let targetItem := menuItemElement in
  match querySelectorIn root targetItem (ByTag "button") with
  | None => root
  | Some button => updateToggleContainer g root button
  end.

Definition findItemByText (menuList : Node) (text : string) : option Path :=
  let items := querySelectorAll menuList (ByTag "span") in
  match List.find (λ item, String.eqb (textContent_at menuList item) text) items with
  | Some item => closest menuList item (ByTag "button")
  | None => None
  end.

Definition createToggleElement (g : Globals) : Node :=
  let toggle := createElement "span" in
  let toggle := with_props (set_className "sidebar-checkbox") toggle in
  let toggle := with_props (set_style toggleContainerStyle) toggle in
  let toggle := set_children (createToggleSwitch (persistentModeEnabled g)) toggle in
  with_props (set_title (toggleTitle (persistentModeEnabled g))) toggle.

Definition addButtonEventListeners (button : Node) : Node :=
  with_props (add_listener "click" ToggleOnClick)
    (with_props (add_listener "mouseout" ClearHighlight)
       (with_props (add_listener "mouseover" HighlightOnHover) button)).

Definition createMenuButton (g : Globals) : Node :=
  let button := createElement "div" in
  let button := with_props (set_className "main-contextMenu-menuItemButton") button in
  let button := with_props
                  (set_style [("display", "flex"); ("align-items", "center");
                              ("padding", "8px 12px"); ("cursor", "pointer");
                              ("justify-content", "space-between")]) button in
  let button := with_props (set_role "menuitem") button in
  let label := appendChild (Text PS_PERSISTENT_SESSION_LABEL_TEXT) (createElement "span") in
  let toggle := createToggleElement g in
  let button := appendChild label button in
  let button := appendChild toggle button in
  addButtonEventListeners button.

Definition createPersistentMenuItem (g : Globals) (privateSessionItem : Node) : Node :=
  let menuItem := createElement "li" in
  let menuItem := with_props (set_id PS_PERSISTENT_ITEM_ID) menuItem in
  let menuItem :=
    with_props (set_className
                  (match privateSessionItem with
                   | Element p _ => className p
                   | Text _ => EmptyString
                   end)) menuItem in
  appendChild (createMenuButton g) menuItem.

(** The menu list together with the retries of [addPersistentPrivacyItem]
    that have been handed to [setTimeout] (each with its retry count). *)
Record Menu : Type := mkMenu {
  menuList : Node;
  scheduledRetries : list nat
}.

Definition findPrivateSessionItem (m : Menu) (retryCount : nat) : Menu * option Path :=
  let MAX_RETRIES := 10%nat in
  match List.find (λ span, String.eqb (textContent_at (menuList m) span)
                                      PS_PRIVATE_SESSION_LABEL_TEXT)
                  (querySelectorAll (menuList m) (ByTag "span")) with
  | None =>
      if (retryCount <? MAX_RETRIES)%nat
      then ({| menuList := menuList m;
               scheduledRetries := scheduledRetries m ++ [S retryCount] |}, None)
      else (m, None)
  | Some privateSessionSpan =>
      (m, closest (menuList m) privateSessionSpan (ByTag "li"))
  end.

(** Returns the menu and the path of the new item, if one was added. *)
Definition addPersistentPrivacyItem (g : Globals) (m : Menu) (retryCount : nat)
  : Menu * option Path :=
  let '(m, found) := findPrivateSessionItem m retryCount in
  match found with
  | None => (m, None)
  | Some privateSessionItem =>
      match node_at (menuList m) privateSessionItem with
      | None => (m, None)
      | Some li =>
          let menuItem := createPersistentMenuItem g li in
          ({| menuList := insert_after (menuList m) privateSessionItem menuItem;
              scheduledRetries := scheduledRetries m |},
           match privateSessionItem with
           | [] => None
           | _ => Some (removelast privateSessionItem
                          ++ [S (List.last privateSessionItem 0%nat)])
           end)
      end
  end.

Definition ensurePersistentMenuItem (g : Globals) (m : Menu) : Menu :=
  match findItemByText (menuList m) PS_PRIVATE_SESSION_LABEL_TEXT with
  | None => m
  | Some privateSessionButton =>
      match querySelector (menuList m) (ById PS_PERSISTENT_ITEM_ID) with
      | Some persistentItem =>
          {| menuList := updatePersistentMenuItemState g (menuList m) persistentItem;
             scheduledRetries := scheduledRetries m |}
      | None => fst (addPersistentPrivacyItem g m 0)
      end
  end.

(** How many elements of the list carry the id of the custom item. *)
Definition persistentItemCount (m : Menu) : nat :=
  length (querySelectorAll (menuList m) (ById PS_PERSISTENT_ITEM_ID)).

(** A synthetic account menu: three entries, each a list item holding a
    button with a label; the second one is "Private session". *)
Definition menuEntry (label : string) : Node :=
  Element {| tagName := "li"; id := EmptyString; className := "main-contextMenu-menuItem";
             style := []; title := EmptyString; role := EmptyString; listeners := [] |}
    [ Element {| tagName := "button"; id := EmptyString;
                 className := "main-contextMenu-menuItemButton";
                 style := []; title := EmptyString; role := "menuitemcheckbox";
                 listeners := [] |}
        [ Element {| tagName := "span"; id := EmptyString; className := EmptyString; style := [];
                     title := EmptyString; role := EmptyString; listeners := [] |}
            [ Text label ] ] ].

Definition sampleMenu : Menu :=
  {| menuList :=
       Element {| tagName := "ul"; id := EmptyString; className := "main-contextMenu-menu";
                  style := []; title := EmptyString; role := "menu"; listeners := [] |}
         [ menuEntry "Account"; menuEntry "Private session"; menuEntry "Settings" ];
     scheduledRetries := [] |}.

End Dom.

(** ** Vocabulary for the statements about scripts *)

(** A script that never performs an effect selected by [P], whatever the
    answers it gets. *)
Fixpoint avoids {A : Type} (P : Eff → bool) (p : Script A) : Prop :=
  match p with
  | Do e k => P e = false ∧ ∀ x, avoids P (k x)
  | _ => True
  end.

(** A script whose every [throw] carries one of the messages [ms]; with
    [ms = []] it cannot throw at all. *)
Fixpoint throws_within {A : Type} (ms : list string) (p : Script A) : Prop :=
  match p with
  | Ret _ => True
  | Throw m => m ∈ ms
  | Do e k => ∀ x, throws_within ms (k x)
  end.

Definition is_click (e : Eff) : bool :=
  match e with ElClick _ => true | _ => false end.

Definition clicks (tr : list Eff) : list Eff := List.filter is_click tr.

(** The query [getElement] issues on each attempt. *)
Definition query_effect (selector : string) (multiple : bool) : Eff :=
  if multiple then DocQuerySelectorAll selector else DocQuerySelector selector.

(** What [k] unsuccessful attempts of [getElement] leave in the trace: each
    is one query followed by one delay of [PS_DELAY_MS]. *)
Fixpoint failed_attempts (selector : string) (multiple : bool) (k : nat) : list Eff :=
  match k with
  | O => []
  | S k' => query_effect selector multiple :: Delay PS_DELAY_MS
            :: failed_attempts selector multiple k'
  end.

(** The elements matching [selector] when attempt number [k] (from 0) of a
    [getElement] started in world [w] queries the document. *)
Definition matching_at_attempt (h : Host) (w : World) (selector : string)
    (multiple : bool) (k : nat) : list Elem :=
  matching (document h (trace w ++ failed_attempts selector multiple k)) selector.

(** What [getElement] returns for a non-empty match. *)
Definition found_of (multiple : bool) (els : list Elem) : option Found :=
  if multiple then Some (ElementList els) else OneElement <$> head els.

(** What [ensureMenuClosed] does before it looks for an open menu: it reads
    the timer variable and cancels a pending re-check. *)
Definition closing_preamble (g : Globals) : list Eff :=
  ReadGlobals ::
  match menuCloseTimer g with
  | Some t => [ClearTimeout t; WriteMenuCloseTimer None]
  | None => []
  end.

(** The two messages thrown inside the composite operation. *)
Definition not_found_errors : list string :=
  ["Failed to find menu button";
   PS_PRIVATE_SESSION_LABEL_TEXT +:+ " menu item not found"].

(** The clicks [ensureMenuClosed] makes when it starts in world [w]: one
    click on the account button if, at the moment it asks, a dropdown menu
    is open and the account button is found; none otherwise. *)
Definition closing_clicks (h : Host) (w : World) : list Eff :=
  let asked := trace w ++ closing_preamble (globals w) in
  match head (matching (document h asked) PS_CSS_SELECTORS.PROFILE_DROPDOWN_MENU) with
  | Some _ =>
      match head (matching
                    (document h (asked ++ [DocQuerySelector
                                             PS_CSS_SELECTORS.PROFILE_DROPDOWN_MENU]))
                    PS_CSS_SELECTORS.MAIN_MENU) with
      | Some b => [ElClick b]
      | None => []
      end
  | None => []
  end.

(** A page on which element [el] starts to match [selector] once [n]
    delays have gone by, and nothing else ever matches. *)
Definition delays_in (tr : list Eff) : nat :=
  length (List.filter (λ e, bool_decide (is_Some (delay_of e))) tr).

Definition appearing_after (n : nat) (selector : string) (el : Elem) : Host :=
  {| document := λ tr,
       {| matching := λ sel,
            if String.eqb sel selector && (n <=? delays_in tr)%nat then [el] else [];
          matchingIn := λ _ _, [];
          textOf := λ _, EmptyString |};
     lag := λ _, 0%N;
     interference := λ _ g, g |}.

(** A page on which nothing matches. *)
Definition blank : Host :=
  {| document := λ _, {| matching := λ _, []; matchingIn := λ _ _, [];
                         textOf := λ _, EmptyString |};
     lag := λ _, 0%N;
     interference := λ _ g, g |}.

(** Two calls to [startPrivateSession(true)], 50 ms apart, on a page that
    has been up for a second. *)
Definition two_calls : Loop :=
  {| world := set_clock 1000 initial_world;
     tasks := [call_at 1000 true; call_at 1050 true];
     inbox := [] |}.

(** The script is loaded with persistent mode saved as enabled, and the
    window gets the focus 450 ms later. *)
Definition startup : Loop :=
  {| world := update_page (λ _, page_at_load {[STORAGE_KEY := "true"]}) initial_world;
     tasks := [script_start_at 0];
     inbox := [(450, WindowFocus)] |}.

(** ** Further vocabulary: effects by kind, lock tracking, quiet and static hosts *)

Definition is_lock_write (e : Eff) : bool :=
  match e with WriteMenuOperationInProgress _ => true | _ => false end.

(** Everything but looking: an effect that changes the page, a variable or
    a timer.  Queries, [textContent], [Date.now()], reads of the variables
    and delays are not side effects. *)
Definition side_effect (e : Eff) : bool :=
  match e with
  | DocQuerySelector _ | DocQuerySelectorAll _ | ElQuerySelector _ _
  | ElQuerySelectorAll _ _ | ElTextContent _ | DateNow | Delay _
  | ReadGlobals => false
  | _ => true
  end.

(** The calls into the persistence store and the persistent-mode
    controller. *)
Definition is_page_call (e : Eff) : bool :=
  match e with
  | CallLoadPersistentModeSetting | CallEnablePersistentMode => true
  | _ => false
  end.

(** The last value written to [menuOperationInProgress] after [e], when it
    was [l] before. *)
Definition lock_after (e : Eff) (l : option bool) : option bool :=
  match e with WriteMenuOperationInProgress b => Some b | _ => l end.

(** A weakest precondition for the lock: along every path of the script,
    starting with last written value [l], a return with [a] ends in a lock
    state satisfying [Qr a], and a throw in one satisfying [Qt]. *)
Fixpoint lock_wp {A : Type} (p : Script A) (l : option bool)
    (Qr : A → option bool → Prop) (Qt : option bool → Prop) : Prop :=
  match p with
  | Ret a => Qr a l
  | Throw _ => Qt l
  | Do e k => ∀ x, lock_wp (k x) (lock_after e l) Qr Qt
  end.

(** A page on which no other callback of the script runs while a call is
    suspended. *)
Definition quiet (h : Host) : Prop := ∀ tr g, interference h tr g = g.

(** The part of the world that belongs to the persistence store and the
    persistent-mode controller. *)
Definition persistent_state (w : World)
  : bool * option Closure * gmap string string * list Closure * list Closure * nat :=
  (persistentModeEnabled (globals w), focusEventListener (globals w),
   localStorage (page w), windowFocusListeners (page w),
   documentVisibilityListeners (page w), nextClosure (page w)).

(** On a document [d], the indicator that [searchForPrivateSessionIndicator]
    looks for: the first button of the container whose text includes the
    label. *)
Definition indicator_in (d : Document) : option Elem :=
  match head (matching d PS_CSS_SELECTORS.PRIVATE_SESSION_INDICATOR_CONTAINER) with
  | None => None
  | Some container =>
      List.find (λ button, includes (textOf d button) PS_PRIVATE_SESSION_LABEL_TEXT)
                (matchingIn d container "button, * button, * * button, * * * button")
  end.

(** Does [button] carry the label, as [isMenuItemWithLabel] sees it: its
    first [span], trimmed, is exactly [labelText]. *)
Definition labelled (d : Document) (labelText : string) (button : Elem) : bool :=
  match head (matchingIn d button PS_CSS_SELECTORS.MENU_ITEM_LABEL) with
  | Some label => bool_decide (trim (textOf d label) = labelText)
  | None => false
  end.

(** On a document [d], the menu item that [searchForMenuItemButton] looks
    for: the first menu item button that carries the label. *)
Definition menu_item_in (d : Document) (labelText : string) : option Elem :=
  List.find (labelled d labelText) (matching d PS_CSS_SELECTORS.MENU_ITEM_BUTTON).

(** The pending re-checks of [ensureMenuClosed]. *)
Definition is_close_check (x : TimerId * (Callback * Z)) : bool :=
  match fst (snd x) with MenuCloseCheck _ => true | FocusCheck => false end.

Definition pending_close_checks (w : World) : list (TimerId * (Callback * Z)) :=
  List.filter is_close_check (timers w).

(** The timer variable names the pending re-check, if there is one, and
    timer ids are not reused. *)
Definition tidy (w : World) : Prop :=
  (∀ x, x ∈ timers w → (fst x < nextTimer w)%nat)
  ∧ match menuCloseTimer (globals w) with
    | Some t => ∀ x, x ∈ pending_close_checks w → fst x = t
    | None => pending_close_checks w = []
    end
  ∧ NoDup (map fst (timers w)).

(** [n] window focus events in a row, each running the handler. *)
Fixpoint focus_events (n : nat) (h : Host) (w : World) : World :=
  match n with
  | O => w
  | S n' => focus_events n' h (exec h focusEventListener_body w).1
  end.

(** The last value written to the lock after the events [evs], when it was
    [l] before. *)
Definition lock_fold (l : option bool) (evs : list Eff) : option bool :=
  fold_left (λ l e, lock_after e l) evs l.

(** [runs h p w evs r w']: from [w] the script [p] performs exactly the
    effects [evs] and ends in [w'] with result [r]. *)
Definition runs {A : Type} (h : Host) (p : Script A) (w : World)
    (evs : list Eff) (r : Result A) (w' : World) : Prop :=
  exec h p w = (w', r) ∧ trace w' = trace w ++ evs.

(** A host whose document never changes: exact timers, no other script
    activity. *)
Definition frozen (d : Document) : Host :=
  {| document := λ _, d; lag := λ _, 0%N; interference := λ _ g, g |}.

(** What [initializePrivateSession] does to the persistent mode: it loads
    the setting and switches the mode on when the setting says so. *)
Definition restorePersistentMode (p : Page) : Page :=
  let p := loadPersistentModeSetting p in
  if persistentModeEnabled (vars p) then enablePersistentMode p else p.

Definition set_menuItemAdded (b : bool) (g : Globals) : Globals :=
  {| persistentModeEnabled := persistentModeEnabled g;
     focusEventListener := focusEventListener g;
     menuItemAdded := b;
     menuOperationInProgress := menuOperationInProgress g;
     lastMenuOperationTime := lastMenuOperationTime g;
     pendingFocusCheck := pendingFocusCheck g;
     menuCloseTimer := menuCloseTimer g |}.

(** ** Menu-item injector: retries and listeners (lines 496-531, 572-589) *)
Module Injector.

(** The oldest retry handed to [setTimeout] by [findPrivateSessionItem]
    fires (line 517): [addPersistentPrivacyItem(menuList, retryCount + 1)]
    runs on the list as it is then. *)
Definition fireRetry (g : Globals) (m : Dom.Menu) : Dom.Menu :=
  match Dom.scheduledRetries m with
  | [] => m
  | retryCount :: rest =>
      fst (Dom.addPersistentPrivacyItem g
             {| Dom.menuList := Dom.menuList m; Dom.scheduledRetries := rest |}
             retryCount)
  end.

(** [el.style.<property> = value]: the declaration is replaced where the
    property is declared, and added at the end where it is not. *)
Fixpoint set_declaration (property value : string) (decls : list (string * string))
  : list (string * string) :=
  match decls with
  | [] => [(property, value)]
  | d :: rest =>
      if String.eqb (fst d) property then (property, value) :: rest
      else d :: set_declaration property value rest
  end.

Definition set_backgroundColor (value : string) (p : Dom.Props) : Dom.Props :=
  Dom.set_style (set_declaration "background-color" value (Dom.style p)) p.

(** The listeners of [addButtonEventListeners(button, toggle)].  [toggle]
    is the element [createMenuButton] appended second to the button, which
    the click listener captured. *)
Definition runHandler (hd : Dom.Handler) (button : Dom.Path) (s : Page * Dom.Node)
  : Page * Dom.Node :=
  let '(p, root) := s in
  match hd with
  | Dom.HighlightOnHover =>
      (p, Dom.update_at root button
            (Dom.with_props (set_backgroundColor "rgba(255,255,255,0.1)")))
  | Dom.ClearHighlight =>
      (p, Dom.update_at root button (Dom.with_props (set_backgroundColor "transparent")))
  | Dom.ToggleOnClick =>
      let p := togglePersistentMode p in
      let toggle := button ++ [1%nat] in
      let root := Dom.update_at root toggle
                    (Dom.set_children
                       (Dom.createToggleSwitch (persistentModeEnabled (vars p)))) in
      let root := Dom.update_at root toggle
                    (Dom.with_props
                       (Dom.set_title (Dom.toggleTitle (persistentModeEnabled (vars p))))) in
      (p, root)
  end.

(** The listeners of an element for an event type, in the order in which
    they were added. *)
Definition handlersFor (type : string) (n : Dom.Node) : list Dom.Handler :=
  match n with
  | Dom.Element pr _ =>
      map snd (List.filter (λ l, String.eqb (fst l) type) (Dom.listeners pr))
  | Dom.Text _ => []
  end.

(** An event of the given type on the element at [target]: its listeners
    run in order (each of them stops the propagation). *)
Definition dispatchEvent (type : string) (target : Dom.Path) (s : Page * Dom.Node)
  : Page * Dom.Node :=
  match Dom.node_at (snd s) target with
  | Some n => fold_left (λ s hd, runHandler hd target s) (handlersFor type n) s
  | None => s
  end.

End Injector.

(** ** Mutation observer (lines 621-758) *)
Module Observer.

(** One of the selectors that [PROFILE_DROPDOWN_MENU.split(', ')] yields: a
    tag, a class and a [role] attribute, each optional. *)
Record Compound : Type := mkCompound {
  tag : option string;
  class : option string;
  roleAttr : option string
}.

(** The selector as it is written. *)
Definition render (c : Compound) : string :=
  from_option (λ t, t) EmptyString (tag c)
  +:+ from_option (λ k, "." +:+ k) EmptyString (class c)
  +:+ from_option (λ r, "[role='" +:+ r +:+ "']") EmptyString (roleAttr c).

Definition selectors : list Compound :=
  [ {| tag := Some "ul"; class := Some "main-contextMenu-menu"; roleAttr := None |};
    {| tag := None; class := None; roleAttr := Some "menu" |};
    {| tag := Some "ul"; class := None; roleAttr := Some "menu" |} ].

(** [node.matches(selector)]. *)
Definition matches (c : Compound) (n : Dom.Node) : bool :=
  match n with
  | Dom.Text _ => false
  | Dom.Element p _ =>
      from_option (String.eqb (Dom.tagName p)) true (tag c)
      && from_option (λ k, existsb (String.eqb k) (Dom.classList (Dom.className p)))
                     true (class c)
      && from_option (String.eqb (Dom.role p)) true (roleAttr c)
  end.

(** [node.querySelector(selector)]: the first descendant, in document
    order, that matches. *)
Definition querySelector (n : Dom.Node) (c : Compound) : option (Dom.Path * Dom.Node) :=
  List.find (λ d, matches c (snd d)) (Dom.descendants n).

(** The loop of [findMenuInNode] over the selectors [cs]; the answer is the
    menu list with its path from [node]. *)
Fixpoint findMenuInNode_loop (cs : list Compound) (node : Dom.Node)
  : option (Dom.Path * Dom.Node) :=
  match cs with
  | [] => None
  | selector :: rest =>
      let menuList := if matches selector node then Some ([], node)
                      else querySelector node selector in
      match menuList with
      | Some found => Some found
      | None => findMenuInNode_loop rest node
      end
  end.

Definition findMenuInNode (node : Dom.Node) : option (Dom.Path * Dom.Node) :=
  findMenuInNode_loop selectors node.

Definition isMenuNode (node : Dom.Node) : bool :=
  existsb (λ selector, matches selector node) selectors.

(** [node.nodeType === 1]. *)
Definition isElement (node : Dom.Node) : bool :=
  match node with Dom.Element _ _ => true | Dom.Text _ => false end.

Record Appearance : Type := mkAppearance {
  appeared : bool;
  menuList : option Dom.Node
}.

Fixpoint processAddedNodes (addedNodes : list Dom.Node) : Appearance :=
  match addedNodes with
  | [] => {| appeared := false; menuList := None |}
  | node :: rest =>
      if isElement node then
        match findMenuInNode node with
        | Some found => {| appeared := true; menuList := Some (snd found) |}
        | None => processAddedNodes rest
        end
      else processAddedNodes rest
  end.

Fixpoint processRemovedNodes (removedNodes : list Dom.Node) : bool :=
  match removedNodes with
  | [] => false
  | node :: rest =>
      if isElement node then
        let isMenu := isMenuNode node in
        let containsItem :=
          bool_decide (is_Some (Dom.querySelector node (Dom.ById PS_PERSISTENT_ITEM_ID))) in
        if isMenu || containsItem then true else processRemovedNodes rest
      else processRemovedNodes rest
  end.

(** The [span] elements of the list whose text is exactly [text]. *)
Definition spansWithText (menuList : Dom.Node) (text : string) : list Dom.Path :=
  List.filter (λ span, String.eqb (Dom.textContent_at menuList span) text)
              (Dom.querySelectorAll menuList (Dom.ByTag "span")).

Definition isProfileMenu (menuList : Dom.Node) : bool :=
  let privateSessionSpan :=
    List.find (λ span, String.eqb (Dom.textContent_at menuList span)
                                  PS_PRIVATE_SESSION_LABEL_TEXT)
              (Dom.querySelectorAll menuList (Dom.ByTag "span")) in
  let hasSettingsItem :=
    existsb (λ span, String.eqb (Dom.textContent_at menuList span) "Settings")
            (Dom.querySelectorAll menuList (Dom.ByTag "span")) in
  bool_decide (is_Some privateSessionSpan) || hasSettingsItem.

(** What the observer works on: the script's variables, and the menu list
    it has handled in this batch, if any, as the handling left it. *)
Record State : Type := mkState {
  vars : Globals;
  handled : option Dom.Menu
}.

(** [now] is what [Date.now()] answers. *)
Definition handleMenuAppearance (now : Z) (g : Globals) (menuList : Dom.Node) : State :=
  if negb (isProfileMenu menuList) then {| vars := g; handled := None |}
  else
    let privateSessionSpan :=
      List.find (λ span, String.eqb (Dom.textContent_at menuList span)
                                    PS_PRIVATE_SESSION_LABEL_TEXT)
                (Dom.querySelectorAll menuList (Dom.ByTag "span")) in
    match privateSessionSpan with
    | Some _ =>
        let m := Dom.ensurePersistentMenuItem g
                   {| Dom.menuList := menuList; Dom.scheduledRetries := [] |} in
        {| vars := set_lastMenuOperationTime now (set_menuItemAdded true g);
           handled := Some m |}
    | None => {| vars := g; handled := None |}
    end.

Definition handleMenuDisappearance (g : Globals) : Globals :=
  set_menuItemAdded false g.

Record MutationRecord : Type := mkMutationRecord {
  addedNodes : list Dom.Node;
  removedNodes : list Dom.Node
}.

Record MenuState : Type := mkMenuState {
  menuAppeared : bool;
  menuDisappeared : bool;
  detectedMenuList : option Dom.Node
}.

(** The loop of [analyzeMutations]; [menuItemAdded] does not change while
    it runs. *)
Fixpoint analyzeMutations_loop (g : Globals) (mutations : list MutationRecord)
  : MenuState :=
  match mutations with
  | [] => {| menuAppeared := false; menuDisappeared := false; detectedMenuList := None |}
  | mutation :: rest =>
      let result := processAddedNodes (addedNodes mutation) in
      if negb (menuItemAdded g) && appeared result
      then {| menuAppeared := true; menuDisappeared := false;
              detectedMenuList := menuList result |}
      else if menuItemAdded g && processRemovedNodes (removedNodes mutation)
      then {| menuAppeared := false; menuDisappeared := true; detectedMenuList := None |}
      else analyzeMutations_loop g rest
  end.

Definition analyzeMutations (g : Globals) (mutations : list MutationRecord) : MenuState :=
  analyzeMutations_loop g mutations.

Definition handleMenuStateChanges (now : Z) (g : Globals) (s : MenuState) : State :=
  let g := if menuDisappeared s then handleMenuDisappearance g else g in
  match detectedMenuList s with
  | Some detected =>
      if menuAppeared s && negb (menuItemAdded g)
      then handleMenuAppearance now g detected
      else {| vars := g; handled := None |}
  | None => {| vars := g; handled := None |}
  end.

Definition handleMutations (now : Z) (g : Globals) (mutations : list MutationRecord)
  : State :=
  let menuState := analyzeMutations g mutations in
  handleMenuStateChanges now g menuState.

End Observer.

(** A batch as the observer receives it when the account menu opens: one
    added [div] that holds the menu list. *)
Definition menuOpens : list Observer.MutationRecord :=
  [ {| Observer.addedNodes :=
         [ Dom.Element {| Dom.tagName := "div"; Dom.id := EmptyString;
                          Dom.className := "popper"; Dom.style := [];
                          Dom.title := EmptyString; Dom.role := EmptyString;
                          Dom.listeners := [] |}
             [ Dom.menuList Dom.sampleMenu ] ];
       Observer.removedNodes := [] |} ].

(** The batch when it closes again. *)
Definition menuCloses (shown : Dom.Node) : list Observer.MutationRecord :=
  [ {| Observer.addedNodes := [];
       Observer.removedNodes :=
         [ Dom.Element {| Dom.tagName := "div"; Dom.id := EmptyString;
                          Dom.className := "popper"; Dom.style := [];
                          Dom.title := EmptyString; Dom.role := EmptyString;
                          Dom.listeners := [] |}
             [ shown ] ] |} ].

(** ** What a call uses up *)

(** Clicks made, timers set, and milliseconds the script asked to sleep. *)
Record Usage : Type := mkUsage {
  clicksMade : nat;
  timersSet : nat;
  slept : Z
}.

Definition use (u : Usage) (e : Eff) : Usage :=
  match e with
  | ElClick _ =>
      {| clicksMade := S (clicksMade u); timersSet := timersSet u; slept := slept u |}
  | SetTimeout _ _ =>
      {| clicksMade := clicksMade u; timersSet := S (timersSet u); slept := slept u |}
  | Delay ms =>
      {| clicksMade := clicksMade u; timersSet := timersSet u; slept := slept u + ms |}
  | _ => u
  end.

Definition usage (evs : list Eff) : Usage :=
  fold_left use evs {| clicksMade := 0; timersSet := 0; slept := 0 |}.

(** [u'] exceeds [u] by at most [c] clicks, [t] timers and [d] ms. *)
Definition at_most (c t : nat) (d : Z) (u u' : Usage) : Prop :=
  (clicksMade u' ≤ clicksMade u + c)%nat
  ∧ (timersSet u' ≤ timersSet u + t)%nat
  ∧ slept u' ≤ slept u + d.

(** A weakest precondition for the usage: along every path of the script,
    started with [u] used up, a return with [a] ends with a usage
    satisfying [Qr a], and a throw with one satisfying [Qt]. *)
Fixpoint usage_wp {A : Type} (p : Script A) (u : Usage)
    (Qr : A → Usage → Prop) (Qt : Usage → Prop) : Prop :=
  match p with
  | Ret a => Qr a u
  | Throw _ => Qt u
  | Do e k => ∀ x, usage_wp (k x) (use u e) Qr Qt
  end.

(** The effects that count for the usage. *)
Definition costs (e : Eff) : bool :=
  match e with
  | ElClick _ | SetTimeout _ _ | Delay _ => true
  | _ => false
  end.

(** The player with the private session off and the account menu left
    open, at time 1000. *)
Definition menu_left_open : World :=
  {| page := initial_page; clock := 1000; timers := []; nextTimer := 1%nat;
     trace := [ElClick 1%nat] |}.

(** ** The timer discipline, with calls interleaved *)

(** The effects that touch the timers or the timer variable. *)
Definition timer_effect (e : Eff) : bool :=
  match e with
  | SetTimeout _ _ | ClearTimeout _ | WriteMenuCloseTimer _ => true
  | _ => false
  end.

(** [tidy_wp p w Qr Qt]: when [p] runs from [w], the world is tidy each
    time [p] is suspended in a delay, and [Qr] or [Qt] holds when it
    returns or throws, provided the world is tidy each time it is resumed
    (whatever else happened meanwhile).  The DOM answers whatever a host
    may answer. *)
Fixpoint tidy_wp {A : Type} (p : Script A) (w : World)
    (Qr : A → World → Prop) (Qt : World → Prop) : Prop :=
  match p with
  | Ret a => Qr a w
  | Throw _ => Qt w
  | Do e k =>
      ∀ h : Host,
        match delay_of e with
        | Some _ =>
            tidy (handle h e w).1
            ∧ ∀ w', tidy w' → tidy_wp (k (handle h e w).2) w' Qr Qt
        | None => tidy_wp (k (handle h e w).2) (handle h e w).1 Qr Qt
        end
  end.

(** A script that keeps the world tidy at each of its suspensions and at
    its end, when it starts and is resumed in tidy worlds. *)
Definition keeps_tidy {A : Type} (p : Script A) : Prop :=
  ∀ w, tidy w → tidy_wp p w (λ _ w', tidy w') tidy.

(** The event loop is tidy when its world is, and every call still in
    flight keeps it so. *)
Definition loop_tidy (l : Loop) : Prop :=
  tidy (world l)
  ∧ ∀ t, t ∈ tasks l → outcome t = None → keeps_tidy (code t).
(** * Persistence store and persistent-mode controller *)

Section PersistentMode.

Implicit Types (p : Page) (o : PersistentOp).

Lemma save_in_sync p : storage_in_sync (savePersistentModeSetting p).
Proof. unfold storage_in_sync; simpl. by rewrite lookup_insert_eq. Qed.

Lemma enable_flag p : persistentModeEnabled (vars (enablePersistentMode p)) = true.
Proof. unfold enablePersistentMode; simpl. by destruct (focusEventListener (vars p)). Qed.

Lemma disable_flag p : persistentModeEnabled (vars (disablePersistentMode p)) = false.
Proof. unfold disablePersistentMode; simpl. by destruct (focusEventListener (vars p)). Qed.

Lemma toggle_flag p :
  persistentModeEnabled (vars (togglePersistentMode p))
  = negb (persistentModeEnabled (vars p)).
Proof.
  unfold togglePersistentMode; simpl.
  destruct (persistentModeEnabled (vars p)); simpl.
  - apply disable_flag.
  - apply enable_flag.
Qed.

Lemma enable_in_sync p : storage_in_sync (enablePersistentMode p).
Proof.
  unfold enablePersistentMode, storage_in_sync; simpl.
  destruct (focusEventListener (vars p)); simpl; by rewrite lookup_insert_eq.
Qed.

Lemma disable_in_sync p : storage_in_sync (disablePersistentMode p).
Proof.
  unfold disablePersistentMode, storage_in_sync; simpl.
  destruct (focusEventListener (vars p)); simpl; by rewrite lookup_insert_eq.
Qed.

Lemma toggle_in_sync p : storage_in_sync (togglePersistentMode p).
Proof.
  unfold togglePersistentMode.
  match goal with |- context [if ?b then _ else _] => destruct b end.
  - apply enable_in_sync.
  - apply disable_in_sync.
Qed.

(** The listener held in the variable after each operation. *)
Lemma enable_listener p :
  is_Some (focusEventListener (vars (enablePersistentMode p))).
Proof.
  unfold enablePersistentMode; simpl.
  destruct (focusEventListener (vars p)) eqn:E; simpl; eauto.
Qed.

Lemma disable_listener p :
  focusEventListener (vars (disablePersistentMode p)) = None.
Proof.
  unfold disablePersistentMode; simpl.
  by destruct (focusEventListener (vars p)) eqn:E.
Qed.

Lemma removeEventListener_singleton (c : Closure) : removeEventListener c [c] = [].
Proof. simpl. by rewrite decide_True. Qed.

Lemma addEventListener_fresh (c : Closure) (ls : list Closure) :
  c ∉ ls → addEventListener c ls = ls ++ [c].
Proof. intros H. unfold addEventListener. by rewrite decide_False. Qed.

Lemma removeEventListener_absent (c : Closure) (ls : list Closure) :
  c ∉ ls → removeEventListener c ls = ls.
Proof.
  induction ls as [|x ls IH]; simpl; [done|].
  intros H. apply not_elem_of_cons in H as [Hne Hls].
  rewrite decide_False by congruence. by rewrite IH.
Qed.

(** Consistency is an invariant of every function of the two components. *)
Lemma consistent_save p : consistent p → consistent (savePersistentModeSetting p).
Proof. by intros (? & ? & ?). Qed.

Lemma consistent_load p : consistent p → consistent (loadPersistentModeSetting p).
Proof. by intros (? & ? & ?). Qed.

Lemma consistent_enable p : consistent p → consistent (enablePersistentMode p).
Proof.
  intros (Hw & Hf & Hd). unfold enablePersistentMode; simpl.
  destruct (focusEventListener (vars p)) as [l|] eqn:E; simpl.
  - repeat split; simpl; [by rewrite E | done | done].
  - simpl in Hw.
    assert (Hfresh : VisibilityForwarder (S (nextClosure p))
                     ∉ documentVisibilityListeners p).
    { intros Hin. specialize (Hd _ Hin). simpl in Hd. lia. }
    repeat split; simpl; rewrite ?Hw, ?(addEventListener_fresh _ _ Hfresh);
      rewrite ?addEventListener_fresh by set_solver; simpl.
    + done.
    + intros c Hc. apply list_elem_of_singleton in Hc as ->. simpl. lia.
    + intros c Hc. apply elem_of_app in Hc as [Hc|Hc].
      * specialize (Hd c Hc). lia.
      * apply list_elem_of_singleton in Hc as ->. simpl. lia.
Qed.

Lemma consistent_disable p : consistent p → consistent (disablePersistentMode p).
Proof.
  intros (Hw & Hf & Hd). unfold disablePersistentMode; simpl.
  destruct (focusEventListener (vars p)) as [l|] eqn:E; simpl.
  - simpl in Hw. repeat split; simpl; rewrite ?Hw, ?removeEventListener_singleton.
    + done.
    + intros c Hc. by apply elem_of_nil in Hc.
    + done.
  - repeat split; simpl; [by rewrite E | done | done].
Qed.

Lemma consistent_toggle p : consistent p → consistent (togglePersistentMode p).
Proof.
  intros H. unfold togglePersistentMode.
  match goal with |- context [if ?b then _ else _] => destruct b end.
  - apply consistent_enable, consistent_save. by destruct H as (? & ? & ?).
  - apply consistent_disable, consistent_save. by destruct H as (? & ? & ?).
Qed.

Lemma consistent_op o p : consistent p → consistent (run_op o p).
Proof.
  destruct o; simpl; auto using consistent_enable, consistent_disable, consistent_toggle.
Qed.

Lemma reachable_consistent p : reachable p → consistent p.
Proof.
  induction 1; auto using consistent_save, consistent_load, consistent_op.
  repeat split; simpl; set_solver.
Qed.

End PersistentMode.

Section PersistentModeClaims.

Implicit Types (p : Page) (o : PersistentOp).

(** C3. Persistence round trip: saving the flag and loading it back yields
    the saved value, true for true and false for false, whatever the
    variables hold when the load runs (a restart resets them); loading when
    nothing was ever stored yields false; and for every stored string the
    load sets the flag to true exactly when the string is "true". *)
Theorem persistence_round_trip :
  (∀ p g, persistentModeEnabled (vars p) = true →
     persistentModeEnabled
       (vars (loadPersistentModeSetting
                (with_vars (λ _, g) (savePersistentModeSetting p)))) = true)
  ∧ (∀ p g, persistentModeEnabled (vars p) = false →
     persistentModeEnabled
       (vars (loadPersistentModeSetting
                (with_vars (λ _, g) (savePersistentModeSetting p)))) = false)
  ∧ (∀ p, localStorage p !! STORAGE_KEY = None →
     persistentModeEnabled (vars (loadPersistentModeSetting p)) = false)
  ∧ (∀ p (stored : string), localStorage p !! STORAGE_KEY = Some stored →
     (persistentModeEnabled (vars (loadPersistentModeSetting p)) = true
      ↔ stored = "true")).
Proof.
  split; [|split; [|split]].
  - intros p g Hp. unfold loadPersistentModeSetting; simpl.
    by rewrite lookup_insert_eq, Hp.
  - intros p g Hp. unfold loadPersistentModeSetting; simpl.
    by rewrite lookup_insert_eq, Hp.
  - intros p Hp. unfold loadPersistentModeSetting; simpl.
    by rewrite Hp.
  - intros p stored Hp. unfold loadPersistentModeSetting; simpl.
    rewrite Hp, bool_decide_eq_true. split; congruence.
Qed.

(** The round trip on a page where the user had switched the mode on, read
    back after a restart; and a stored string that is not exactly "true". *)
Lemma persistence_round_trip_witness :
  persistentModeEnabled
    (vars (loadPersistentModeSetting
             (with_vars (λ _, initial_globals)
                (savePersistentModeSetting (enablePersistentMode initial_page)))))
  = true
  ∧ persistentModeEnabled (vars (loadPersistentModeSetting initial_page)) = false
  ∧ (persistentModeEnabled
       (vars (loadPersistentModeSetting (page_at_load {[STORAGE_KEY := "True"]})))
     = true ↔ "True" = "true").
Proof.
  destruct persistence_round_trip as (Ht & _ & Hnone & Hiff).
  split; [|split].
  - apply Ht. reflexivity.
  - apply Hnone. reflexivity.
  - apply Hiff. reflexivity.
Defined.

(** C4. Toggle symmetry: two toggles bring the flag back to its value, and
    afterwards the focus listener is installed exactly when the flag is
    set: the variable holds a handler iff the flag is true, and the window
    carries that handler and no other. *)
Theorem toggle_twice_restores p (Hc : consistent p) :
  let q := togglePersistentMode (togglePersistentMode p) in
  persistentModeEnabled (vars q) = persistentModeEnabled (vars p)
  ∧ focusListenerInstalled q = persistentModeEnabled (vars q)
  ∧ (is_Some (focusEventListener (vars q)) ↔ persistentModeEnabled (vars q) = true)
  ∧ windowFocusListeners q
    = from_option (λ l, [l]) [] (focusEventListener (vars q)).
Proof.
  intros q.
  assert (Hq : consistent q) by (apply consistent_toggle, consistent_toggle, Hc).
  assert (Hflag : persistentModeEnabled (vars q) = persistentModeEnabled (vars p)).
  { unfold q. rewrite !toggle_flag. apply negb_involutive. }
  assert (Hl : is_Some (focusEventListener (vars q))
               ↔ persistentModeEnabled (vars q) = true).
  { unfold q at 1 2. unfold togglePersistentMode at 1 3.
    match goal with |- context [if ?b then _ else _] => destruct b eqn:E end.
    - rewrite enable_flag. split; [done|]. intros _. apply enable_listener.
    - rewrite disable_flag, disable_listener. split; [by intros []|done]. }
  destruct Hq as (Hw & _ & _).
  repeat split; try tauto; try done.
  unfold focusListenerInstalled. rewrite Hw.
  destruct (focusEventListener (vars q)) as [l|] eqn:E; simpl.
  - rewrite bool_decide_eq_true_2 by constructor. symmetry. apply Hl. eauto.
  - destruct (persistentModeEnabled (vars q)); [|done].
    exfalso. apply (is_Some_None (A:=Closure)). by apply Hl.
Qed.

Lemma toggle_twice_restores_witness :
  let q := togglePersistentMode (togglePersistentMode initial_page) in
  persistentModeEnabled (vars q) = persistentModeEnabled (vars initial_page)
  ∧ focusListenerInstalled q = persistentModeEnabled (vars q)
  ∧ (is_Some (focusEventListener (vars q)) ↔ persistentModeEnabled (vars q) = true)
  ∧ windowFocusListeners q
    = from_option (λ l, [l]) [] (focusEventListener (vars q)).
Proof.
  apply (toggle_twice_restores initial_page).
  repeat split; simpl; intros c Hc; by apply elem_of_nil in Hc.
Defined.

(** C9. After every completed enable, disable or toggle, in any sequence of
    them and from any page, the string stored under the key is the string
    form of the flag. *)
Theorem storage_follows_flag p (os : list PersistentOp) o :
  storage_in_sync (run_op o (run_ops os p)).
Proof.
  destruct o; simpl; auto using enable_in_sync, disable_in_sync, toggle_in_sync.
Qed.

(** C10. Disabling removes the focus listener from the window and leaves
    the visibilitychange listeners of the document as they are; no operation
    ever removes one of them; and a disable followed by an enable registers
    one more. *)
Theorem visibility_listener_accumulates p (Hc : consistent p) :
  documentVisibilityListeners (disablePersistentMode p)
  = documentVisibilityListeners p
  ∧ windowFocusListeners (disablePersistentMode p) = []
  ∧ (∀ o, (documentVisibilityListeners p)
          `prefix_of` (documentVisibilityListeners (run_op o p)))
  ∧ (∃ c, (c ∉ documentVisibilityListeners p)
          ∧ documentVisibilityListeners
              (enablePersistentMode (disablePersistentMode p))
            = documentVisibilityListeners p ++ [c]).
Proof.
  assert (Hdis : ∀ q, documentVisibilityListeners (disablePersistentMode q)
                      = documentVisibilityListeners q).
  { intros q. unfold disablePersistentMode; simpl.
    by destruct (focusEventListener (vars q)). }
  assert (Hfresh : ∀ q, consistent q →
            VisibilityForwarder (S (nextClosure q)) ∉ documentVisibilityListeners q).
  { intros q (_ & _ & Hd) Hin. specialize (Hd _ Hin). simpl in Hd. lia. }
  assert (Hen : ∀ q, consistent q →
            (documentVisibilityListeners q)
            `prefix_of` (documentVisibilityListeners (enablePersistentMode q))).
  { intros q Hq. unfold enablePersistentMode; simpl.
    destruct (focusEventListener (vars q)); simpl; [done|].
    rewrite addEventListener_fresh by (apply (Hfresh _ (consistent_save _ Hq))).
    by apply prefix_app_r. }
  split; [done|]. split; [|split].
  - pose proof (consistent_disable _ Hc) as (Hw & _ & _).
    by rewrite Hw, disable_listener.
  - intros [].
    + by apply Hen.
    + simpl. by rewrite Hdis.
    + simpl. unfold togglePersistentMode.
      match goal with |- context [if ?b then _ else _] => destruct b end.
      * match goal with
        | |- _ `prefix_of` documentVisibilityListeners (enablePersistentMode ?q) =>
            assert (Hq : consistent q) by (by destruct Hc as (? & ? & ?));
            exact (Hen q Hq)
        end.
      * by rewrite Hdis.
  - exists (VisibilityForwarder (S (nextClosure p))).
    split; [by apply Hfresh|].
    unfold enablePersistentMode; simpl. rewrite disable_listener; simpl.
    rewrite Hdis.
    assert (Hn : nextClosure (disablePersistentMode p) = nextClosure p).
    { unfold disablePersistentMode; simpl.
      by destruct (focusEventListener (vars p)). }
    rewrite Hn. apply addEventListener_fresh. by apply Hfresh.
Qed.

(** One session: enable, disable, enable.  The document ends up with two
    forwarders, the window with one handler. *)
Lemma visibility_listener_accumulates_witness :
  let p := enablePersistentMode initial_page in
  documentVisibilityListeners (disablePersistentMode p)
  = documentVisibilityListeners p
  ∧ windowFocusListeners (disablePersistentMode p) = []
  ∧ (∀ o, (documentVisibilityListeners p)
          `prefix_of` (documentVisibilityListeners (run_op o p)))
  ∧ (∃ c, (c ∉ documentVisibilityListeners p)
          ∧ documentVisibilityListeners
              (enablePersistentMode (disablePersistentMode p))
            = documentVisibilityListeners p ++ [c]).
Proof.
  apply (visibility_listener_accumulates (enablePersistentMode initial_page)).
  apply consistent_enable.
  repeat split; simpl; intros c Hc; by apply elem_of_nil in Hc.
Defined.

(** Every page the persistence store and the persistent-mode controller can
    produce, from a freshly loaded script and any stored data, is
    consistent: the window carries exactly the focus handler held in the
    variable, and every registered function object was created earlier. *)
Theorem reachable_pages_are_consistent p (Hr : reachable p) : consistent p.
Proof. by apply reachable_consistent. Qed.

Lemma reachable_pages_are_consistent_witness :
  consistent (togglePersistentMode
                (loadPersistentModeSetting (page_at_load {[STORAGE_KEY := "true"]}))).
Proof.
  apply reachable_pages_are_consistent.
  apply (reach_op OpToggle), reach_read, reach_load.
Defined.

End PersistentModeClaims.

(** * Scripts: how runs compose *)

Section ScriptLemmas.

Context (h : Host).

Lemma handle_trace e w : trace (handle h e w).1 = trace w ++ [e].
Proof. by destruct e. Qed.

Lemma resumed_trace e w : trace (resumed h e w) = trace w.
Proof. by destruct e. Qed.

Lemma exec_bind {A B : Type} (m : Script A) (f : A → Script B) w :
  exec h (bind m f) w =
  match exec h m w with
  | (w', Returned a) => exec h (f a) w'
  | (w', Thrown msg) => (w', Thrown msg)
  end.
Proof.
  revert w. induction m as [a|msg|e k IH]; intros w; simpl; [done..|].
  destruct (handle h e w) as [w' x]. apply IH.
Qed.

Lemma exec_try_catch {A : Type} (body : Script A) (handler : string → Script A) w :
  exec h (try_catch body handler) w =
  match exec h body w with
  | (w', Returned a) => (w', Returned a)
  | (w', Thrown msg) => exec h (handler msg) w'
  end.
Proof.
  revert w. induction body as [a|msg|e k IH]; intros w; simpl; [done..|].
  destruct (handle h e w) as [w' x]. apply IH.
Qed.

(** A run only ever appends to the trace. *)
Lemma exec_trace {A : Type} (p : Script A) w :
  ∃ evs, trace (exec h p w).1 = trace w ++ evs.
Proof.
  revert w. induction p as [a|msg|e k IH]; intros w; simpl.
  - exists []. by rewrite app_nil_r.
  - exists []. by rewrite app_nil_r.
  - pose proof (handle_trace e w) as He.
    destruct (handle h e w) as [w' x]; simpl in He.
    destruct (IH x (resumed h e w')) as [evs Hevs].
    exists (e :: evs). rewrite Hevs, resumed_trace, He. by rewrite <- app_assoc.
Qed.

Lemma exec_avoids {A : Type} (P : Eff → bool) (p : Script A) w :
  avoids P p →
  ∃ evs, trace (exec h p w).1 = trace w ++ evs ∧ List.filter P evs = [].
Proof.
  revert w. induction p as [a|msg|e k IH]; intros w Hp; simpl.
  - exists []. by rewrite app_nil_r.
  - exists []. by rewrite app_nil_r.
  - destruct Hp as [HPe Hk].
    pose proof (handle_trace e w) as He.
    destruct (handle h e w) as [w' x]; simpl in He.
    destruct (IH x (resumed h e w') (Hk x)) as (evs & Hevs & Hnone).
    exists (e :: evs). split.
    + rewrite Hevs, resumed_trace, He. by rewrite <- app_assoc.
    + simpl. by rewrite HPe.
Qed.

Lemma exec_throws_within {A : Type} (ms : list string) (p : Script A) w w' msg :
  throws_within ms p → exec h p w = (w', Thrown msg) → msg ∈ ms.
Proof.
  revert w. induction p as [a|m|e k IH]; intros w Hp; simpl.
  - done.
  - by intros [= _ <-].
  - destruct (handle h e w) as [w1 x]. apply IH, Hp.
Qed.

(** A script that cannot throw returns. *)
Lemma exec_returns {A : Type} (p : Script A) w :
  throws_within [] p → ∃ w' a, exec h p w = (w', Returned a).
Proof.
  intros Hp. destruct (exec h p w) as [w' [a|msg]] eqn:E; [eauto|].
  apply (exec_throws_within [] p w w' msg Hp) in E. by apply elem_of_nil in E.
Qed.

Lemma new_events_app w w' evs : trace w' = trace w ++ evs → new_events w w' = evs.
Proof. intros H. unfold new_events. rewrite H. apply drop_app_length. Qed.

End ScriptLemmas.

Lemma avoids_bind {A B : Type} (P : Eff → bool) (m : Script A) (f : A → Script B) :
  avoids P m → (∀ a, avoids P (f a)) → avoids P (bind m f).
Proof.
  intros Hm Hf. induction m as [a|msg|e k IH]; simpl; [done..|].
  destruct Hm as [He Hk]. split; [done|]. intros x. by apply IH.
Qed.

Lemma throws_within_bind {A B : Type} ms (m : Script A) (f : A → Script B) :
  throws_within ms m → (∀ a, throws_within ms (f a)) → throws_within ms (bind m f).
Proof.
  intros Hm Hf. induction m as [a|msg|e k IH]; simpl; [done..|].
  intros x. by apply IH.
Qed.

Lemma throws_within_mono {A : Type} ms ms' (p : Script A) :
  ms ⊆ ms' → throws_within ms p → throws_within ms' p.
Proof.
  intros Hsub. induction p as [a|msg|e k IH]; simpl; [done| |].
  - apply Hsub.
  - intros Hk x. by apply IH.
Qed.

Lemma never_throws_any {A : Type} ms (p : Script A) :
  throws_within [] p → throws_within ms p.
Proof. apply throws_within_mono. intros x Hx. by apply elem_of_nil in Hx. Qed.

(** A [try] whose handler cannot throw cannot throw. *)
Lemma throws_within_try_catch {A : Type} (body : Script A) handler :
  (∀ msg, throws_within [] (handler msg)) →
  throws_within [] (try_catch body handler).
Proof.
  intros Hh. induction body as [a|msg|e k IH]; simpl; [done|apply Hh|].
  intros x. apply IH.
Qed.

(** Effects one by one. *)
Lemma avoids_perform (P : Eff → bool) e : P e = false → avoids P (perform e).
Proof. by split. Qed.

Lemma never_throws_perform ms e : throws_within ms (perform e).
Proof. by intros x. Qed.

(** ** The locator and the menu searches neither click nor throw *)

Ltac script_step :=
  first
    [ assumption | apply avoids_bind | apply throws_within_bind
    | apply avoids_perform; reflexivity | apply never_throws_perform
    | progress intros | progress simpl | case_match | done | split ].

Ltac script_auto := repeat script_step.

Lemma getElement_never_throws ms selector multiple :
  throws_within ms (getElement selector multiple).
Proof.
  unfold getElement. generalize PS_RETRY_LIMIT as n.
  induction n as [|n IH]; simpl; [done|]. destruct multiple; script_auto.
Qed.

Lemma isMenuItemWithLabel_quiet button labelText :
  avoids is_click (isMenuItemWithLabel button labelText)
  ∧ throws_within [] (isMenuItemWithLabel button labelText).
Proof. split; unfold isMenuItemWithLabel; script_auto. Qed.

Lemma searchButtons_quiet menuItems labelText :
  avoids is_click (searchButtons menuItems labelText)
  ∧ throws_within [] (searchButtons menuItems labelText).
Proof.
  induction menuItems as [|b rest [IHa IHt]]; cbn [searchButtons]; [done|].
  destruct (isMenuItemWithLabel_quiet b labelText).
  split; script_auto.
Qed.

Lemma searchForMenuItemButton_quiet labelText :
  avoids is_click (searchForMenuItemButton labelText)
  ∧ throws_within [] (searchForMenuItemButton labelText).
Proof.
  unfold searchForMenuItemButton.
  split; script_auto; apply searchButtons_quiet.
Qed.

Lemma findMenuItemButton_quiet labelText :
  avoids is_click (findMenuItemButton labelText)
  ∧ throws_within [] (findMenuItemButton labelText).
Proof.
  unfold findMenuItemButton. generalize PS_RETRY_LIMIT as n.
  induction n as [|n [IHa IHt]]; cbn [findMenuItemButton_loop]; [done|].
  destruct (searchForMenuItemButton_quiet labelText).
  split; script_auto.
Qed.

Lemma findPrivateSessionButtonIn_never_throws buttons :
  throws_within [] (findPrivateSessionButtonIn buttons).
Proof. induction buttons as [|b rest IH]; simpl; [done|]. script_auto. Qed.

Lemma searchForPrivateSessionIndicator_never_throws :
  throws_within [] searchForPrivateSessionIndicator.
Proof.
  unfold searchForPrivateSessionIndicator, findPrivateSessionButtonInContainer.
  script_auto. apply findPrivateSessionButtonIn_never_throws.
Qed.

Lemma isPrivateSessionActive_never_throws : throws_within [] isPrivateSessionActive.
Proof.
  unfold isPrivateSessionActive, findPrivateSessionIndicator.
  apply throws_within_bind; [|done].
  generalize PS_INDICATOR_RETRIES as n.
  induction n as [|n IH]; cbn [findPrivateSessionIndicator_loop]; [done|].
  pose proof searchForPrivateSessionIndicator_never_throws.
  script_auto.
Qed.

Lemma ensureMenuClosed_never_throws : throws_within [] ensureMenuClosed.
Proof. unfold ensureMenuClosed. script_auto. Qed.

Lemma cleanupMenuOperation_never_throws : throws_within [] cleanupMenuOperation.
Proof.
  unfold cleanupMenuOperation.
  apply throws_within_bind; [apply ensureMenuClosed_never_throws|by intros []].
Qed.

Lemma canPerformMenuOperation_never_throws : throws_within [] canPerformMenuOperation.
Proof. unfold canPerformMenuOperation. script_auto. Qed.

(** The composite operation never lets an exception out. *)
Lemma startPrivateSession_never_throws forceOpen :
  throws_within [] (startPrivateSession forceOpen).
Proof.
  unfold startPrivateSession.
  apply throws_within_bind; [apply canPerformMenuOperation_never_throws|].
  intros []; cbn [negb]; [|done].
  apply throws_within_try_catch. intros msg. unfold startPrivateSession_catch.
  apply throws_within_bind; [apply cleanupMenuOperation_never_throws|done].
Qed.

(** Inside the [try] block only the two not-found errors are thrown. *)
Lemma startPrivateSession_try_throws forceOpen :
  throws_within not_found_errors (startPrivateSession_try forceOpen).
Proof.
  unfold startPrivateSession_try.
  apply throws_within_bind.
  { apply never_throws_any, isPrivateSessionActive_never_throws. }
  intros []; [done|].
  unfold handlePrivateSessionActivation. destruct forceOpen; cbn [negb]; [|done].
  apply throws_within_bind; [unfold prepareMenuOperation; script_auto|].
  intros _. apply throws_within_bind.
  { unfold openMainMenu. apply throws_within_bind.
    { apply never_throws_any, ensureMenuClosed_never_throws. }
    intros _. apply throws_within_bind; [apply never_throws_perform|].
    intros _. apply throws_within_bind; [apply getElement_never_throws|].
    intros [[m|es]|]; simpl; try done; by left. }
  intros _. apply throws_within_bind.
  { unfold activatePrivateSessionMenuItem. apply throws_within_bind.
    { apply never_throws_any, findMenuItemButton_quiet. }
    intros [item|]; [|by right; left].
    unfold isMenuItemSelected. script_auto. }
  intros _. apply throws_within_bind; [|done].
  apply never_throws_any, cleanupMenuOperation_never_throws.
Qed.

(** * DOM locator *)

Section Locator.

Context (h : Host).

Lemma matching_at_attempt_shift w w' selector multiple j :
  trace w' = trace w ++ [query_effect selector multiple; Delay PS_DELAY_MS] →
  matching_at_attempt h w' selector multiple j
  = matching_at_attempt h w selector multiple (S j).
Proof.
  intros Hw. unfold matching_at_attempt. rewrite Hw, <- app_assoc. done.
Qed.

Lemma matching_at_attempt_0 w selector multiple :
  matching_at_attempt h w selector multiple 0 = matching (document h (trace w)) selector.
Proof. unfold matching_at_attempt. simpl. by rewrite app_nil_r. Qed.

(** One unsuccessful attempt: a query, a delay, and the loop goes on. *)
Lemma getElement_loop_miss n selector multiple w :
  matching (document h (trace w)) selector = [] →
  ∃ w1, exec h (getElement_loop (S n) selector multiple) w
        = exec h (getElement_loop n selector multiple) w1
        ∧ trace w1 = trace w ++ [query_effect selector multiple; Delay PS_DELAY_MS]
        ∧ clock w + PS_DELAY_MS ≤ clock w1.
Proof.
  intros Habs. destruct multiple; simpl; rewrite Habs; simpl.
  - eexists; split; [reflexivity|]. split; simpl.
    + by rewrite <- app_assoc.
    + lia.
  - eexists; split; [reflexivity|]. split; simpl.
    + by rewrite <- app_assoc.
    + lia.
Qed.

Lemma getElement_loop_hit n selector multiple w :
  matching (document h (trace w)) selector ≠ [] →
  ∃ w1, exec h (getElement_loop (S n) selector multiple) w
        = (w1, Returned (found_of multiple (matching (document h (trace w)) selector)))
        ∧ trace w1 = trace w ++ [query_effect selector multiple]
        ∧ clock w1 = clock w.
Proof.
  intros Hpres.
  destruct (matching (document h (trace w)) selector) as [|el els] eqn:E; [done|].
  destruct multiple; simpl; rewrite E; simpl; eauto.
Qed.

Lemma getElement_loop_absent n selector multiple w :
  (∀ j, (j < n)%nat → matching_at_attempt h w selector multiple j = []) →
  ∃ w', exec h (getElement_loop n selector multiple) w = (w', Returned None)
        ∧ trace w' = trace w ++ failed_attempts selector multiple n
        ∧ clock w + Z.of_nat n * PS_DELAY_MS ≤ clock w'.
Proof.
  revert w. induction n as [|n IH]; intros w Habs.
  - exists w. simpl. rewrite app_nil_r. repeat split; lia.
  - destruct (getElement_loop_miss n selector multiple w) as (w1 & -> & Htr & Hclk).
    { rewrite <- matching_at_attempt_0 with (multiple := multiple). apply Habs. lia. }
    destruct (IH w1) as (w' & Hex & Htr' & Hclk').
    { intros j Hj. rewrite (matching_at_attempt_shift w) by done. apply Habs. lia. }
    exists w'. split; [done|]. split.
    + rewrite Htr', Htr, <- app_assoc. done.
    + lia.
Qed.

Lemma getElement_loop_found n k selector multiple w :
  (k < n)%nat →
  matching_at_attempt h w selector multiple k ≠ [] →
  (∀ j, (j < k)%nat → matching_at_attempt h w selector multiple j = []) →
  ∃ w', exec h (getElement_loop n selector multiple) w
        = (w', Returned (found_of multiple (matching_at_attempt h w selector multiple k)))
        ∧ trace w' = trace w ++ failed_attempts selector multiple k
                     ++ [query_effect selector multiple].
Proof.
  revert w k. induction n as [|n IH]; intros w k Hk Hpres Habs; [lia|].
  destruct k as [|k].
  - rewrite matching_at_attempt_0 in *.
    destruct (getElement_loop_hit n selector multiple w Hpres) as (w1 & -> & Htr & _).
    by exists w1.
  - destruct (getElement_loop_miss n selector multiple w) as (w1 & -> & Htr & Hclk).
    { rewrite <- matching_at_attempt_0 with (multiple := multiple). apply Habs. lia. }
    destruct (IH w1 k) as (w' & Hex & Htr').
    + lia.
    + by rewrite (matching_at_attempt_shift w).
    + intros j Hj. rewrite (matching_at_attempt_shift w) by done. apply Habs. lia.
    + exists w'. rewrite Hex, (matching_at_attempt_shift w) by done.
      split; [done|]. rewrite Htr', Htr, <- app_assoc. done.
Qed.

(** C6. The locator returns what matches at the first attempt at which the
    selector matches anything, having queried exactly that many times with a
    delay of [PS_DELAY_MS] after each earlier attempt; and when nothing
    matches at any of the [PS_RETRY_LIMIT] attempts, it returns null after
    exactly [PS_RETRY_LIMIT] queries, each followed by that delay. *)
Theorem getElement_locates selector multiple w :
  (∀ k, (k < PS_RETRY_LIMIT)%nat →
     matching_at_attempt h w selector multiple k ≠ [] →
     (∀ j, (j < k)%nat → matching_at_attempt h w selector multiple j = []) →
     ∃ w', exec h (getElement selector multiple) w
           = (w', Returned (found_of multiple
                              (matching_at_attempt h w selector multiple k)))
           ∧ new_events w w' = failed_attempts selector multiple k
                               ++ [query_effect selector multiple])
  ∧ ((∀ j, (j < PS_RETRY_LIMIT)%nat →
        matching_at_attempt h w selector multiple j = []) →
     ∃ w', exec h (getElement selector multiple) w = (w', Returned None)
           ∧ new_events w w' = failed_attempts selector multiple PS_RETRY_LIMIT
           ∧ clock w + Z.of_nat PS_RETRY_LIMIT * PS_DELAY_MS ≤ clock w').
Proof.
  split.
  - intros k Hk Hpres Habs.
    destruct (getElement_loop_found PS_RETRY_LIMIT k selector multiple w Hk Hpres Habs)
      as (w' & Hex & Htr).
    exists w'. split; [done|]. by apply new_events_app.
  - intros Habs.
    destruct (getElement_loop_absent PS_RETRY_LIMIT selector multiple w Habs)
      as (w' & Hex & Htr & Hclk).
    exists w'. split; [done|]. split; [by apply new_events_app|done].
Qed.

End Locator.

(** * Menu controller *)

Section MenuController.

Context (h : Host).

(** C7. Activation clicks only an unchecked item.  Once the private-session
    item has been located, the script asks for its check mark; when the mark
    is there nothing is clicked during the whole activation, and when it is
    missing exactly one click is made, on that item. *)
Theorem activate_clicks_only_unchecked w w1 item
    (Hlocated : exec h (findMenuItemButton PS_PRIVATE_SESSION_LABEL_TEXT) w
                = (w1, Returned (Some item))) :
  let checked :=
    bool_decide (is_Some (head (matchingIn (document h (trace w1)) item
                                           PS_CSS_SELECTORS.MENU_ITEM_CHECKED))) in
  ∃ w', exec h activatePrivateSessionMenuItem w = (w', Returned true)
        ∧ clicks (new_events w w') = (if checked then [] else [ElClick item])
        ∧ new_events w1 w'
          = ElQuerySelector item PS_CSS_SELECTORS.MENU_ITEM_CHECKED
            :: (if checked then [] else [ElClick item; Delay PS_DELAY_MS]).
Proof.
  intros checked.
  destruct (exec_avoids h is_click (findMenuItemButton PS_PRIVATE_SESSION_LABEL_TEXT) w)
    as (evs & Hevs & Hquiet).
  { apply findMenuItemButton_quiet. }
  rewrite Hlocated in Hevs; simpl in Hevs.
  unfold activatePrivateSessionMenuItem. rewrite exec_bind, Hlocated.
  subst checked. simpl.
  destruct (head (matchingIn (document h (trace w1)) item
                             PS_CSS_SELECTORS.MENU_ITEM_CHECKED)) as [mark|] eqn:E;
    simpl.
  - eexists; split; [reflexivity|]. split.
    + erewrite new_events_app; [|simpl; rewrite Hevs, <- app_assoc; reflexivity].
      unfold clicks. rewrite List.filter_app, Hquiet. done.
    + by apply new_events_app.
  - eexists; split; [reflexivity|]. split.
    + erewrite new_events_app;
        [|simpl; rewrite Hevs, <- !app_assoc; reflexivity].
      unfold clicks. rewrite List.filter_app, Hquiet. done.
    + apply new_events_app. simpl. by rewrite <- !app_assoc.
Qed.

End MenuController.

(** * The composite start operation *)

Section StartPrivateSession.

Context (h : Host).

(** The cleanup always completes; it releases the lock, and it clicks the
    account button exactly when it finds a menu open. *)
Lemma cleanupMenuOperation_runs w :
  ∃ w', exec h cleanupMenuOperation w = (w', Returned tt)
        ∧ menuOperationInProgress (globals w') = false
        ∧ clicks (new_events w w') = closing_clicks h w.
Proof.
  unfold cleanupMenuOperation, ensureMenuClosed, closing_clicks, closing_preamble.
  simpl. destruct (menuCloseTimer (globals w)) as [t|]; simpl;
    rewrite <- ?app_assoc; simpl;
    repeat match goal with
    | |- context [head (matching (document h ?tr) ?sel)] =>
        destruct (head (matching (document h tr) sel)); simpl;
        rewrite <- ?app_assoc; simpl
    end;
    (eexists; split; [reflexivity|]; split; [reflexivity|];
     erewrite new_events_app; [|simpl; rewrite <- ?app_assoc; reflexivity]; done).
Qed.

(** The gate: what [canPerformMenuOperation] answers, and that it touches
    nothing. *)
Lemma canPerformMenuOperation_spec w :
  ∃ w', exec h canPerformMenuOperation w
        = (w', Returned (negb (menuOperationInProgress (globals w))
                         && negb (clock w - lastMenuOperationTime (globals w)
                                  <? MENU_OPERATION_COOLDOWN)))
        ∧ dom_interactions (new_events w w') = []
        ∧ page w' = page w ∧ timers w' = timers w ∧ clock w' = clock w.
Proof.
  unfold canPerformMenuOperation. simpl.
  destruct (menuOperationInProgress (globals w)); simpl.
  - eexists; split; [reflexivity|].
    erewrite new_events_app; [|simpl; reflexivity]. done.
  - destruct (clock w - lastMenuOperationTime (globals w) <? MENU_OPERATION_COOLDOWN);
      (eexists; split; [reflexivity|];
       erewrite new_events_app; [|simpl; rewrite <- ?app_assoc; reflexivity]; done).
Qed.


(** C5. The composite operation always returns a boolean: no exception
    reaches the caller.  Whenever the [try] block raises an exception, it is
    one of the two not-found errors, the cleanup runs from the world in
    which it was raised (closing an open menu by a click on the account
    button, releasing the lock), and the call returns false. *)
Theorem startPrivateSession_contains_failures forceOpen w :
  (∃ w' b, exec h (startPrivateSession forceOpen) w = (w', Returned b))
  ∧ (∀ w0 w1 msg,
       exec h canPerformMenuOperation w = (w0, Returned true) →
       exec h (startPrivateSession_try forceOpen) w0 = (w1, Thrown msg) →
       msg ∈ not_found_errors
       ∧ ∃ w', exec h (startPrivateSession forceOpen) w = (w', Returned false)
               ∧ exec h cleanupMenuOperation w1 = (w', Returned tt)
               ∧ menuOperationInProgress (globals w') = false
               ∧ clicks (new_events w1 w') = closing_clicks h w1).
Proof.
  split.
  - apply exec_returns, startPrivateSession_never_throws.
  - intros w0 w1 msg Hgate Hthrow. split.
    + eapply exec_throws_within; [apply startPrivateSession_try_throws|done].
    + destruct (cleanupMenuOperation_runs w1) as (w' & Hclean & Hlock & Hclicks).
      exists w'. split; [|done].
      unfold startPrivateSession. rewrite exec_bind, Hgate. cbn [negb].
      rewrite exec_try_catch, Hthrow.
      unfold startPrivateSession_catch. by rewrite exec_bind, Hclean.
Qed.

End StartPrivateSession.

(** * The script on concrete pages *)

(** The account button shows up after two delays: the locator returns it on
    its third attempt.  On a blank page it gives up after three. *)
Lemma getElement_locates_witness :
  (∃ w', exec (appearing_after 2 PS_CSS_SELECTORS.MAIN_MENU 1%nat)
              (getElement PS_CSS_SELECTORS.MAIN_MENU false) initial_world
         = (w', Returned (Some (OneElement 1%nat)))
         ∧ new_events initial_world w'
           = [DocQuerySelector PS_CSS_SELECTORS.MAIN_MENU; Delay 100;
              DocQuerySelector PS_CSS_SELECTORS.MAIN_MENU; Delay 100;
              DocQuerySelector PS_CSS_SELECTORS.MAIN_MENU])
  ∧ (∃ w', exec blank (getElement PS_CSS_SELECTORS.MAIN_MENU true) initial_world
           = (w', Returned None)
           ∧ new_events initial_world w'
             = [DocQuerySelectorAll PS_CSS_SELECTORS.MAIN_MENU; Delay 100;
                DocQuerySelectorAll PS_CSS_SELECTORS.MAIN_MENU; Delay 100;
                DocQuerySelectorAll PS_CSS_SELECTORS.MAIN_MENU; Delay 100]
           ∧ clock initial_world + 300 ≤ clock w').
Proof.
  split.
  - refine (proj1 (getElement_locates (appearing_after 2 PS_CSS_SELECTORS.MAIN_MENU 1%nat)
                     PS_CSS_SELECTORS.MAIN_MENU false initial_world) 2%nat _ _ _).
    + unfold PS_RETRY_LIMIT. lia.
    + intros Hnil. vm_compute in Hnil. discriminate Hnil.
    + intros [|[|j]] Hj; [reflexivity..|lia].
  - refine (proj2 (getElement_locates blank PS_CSS_SELECTORS.MAIN_MENU true
                     initial_world) _).
    intros j _. reflexivity.
Defined.

(** The account menu of the player is open.  With the session on, the
    item is located, found checked, and nothing is clicked; with the session
    off it is found unchecked and clicked once. *)
Lemma activate_clicks_only_unchecked_witness :
  let w := log (ElClick 1%nat) initial_world in
  let located h := (exec h (findMenuItemButton PS_PRIVATE_SESSION_LABEL_TEXT) w).1 in
  (∃ w', exec (player true) activatePrivateSessionMenuItem w = (w', Returned true)
         ∧ clicks (new_events w w') = []
         ∧ new_events (located (player true)) w'
           = [ElQuerySelector 3%nat PS_CSS_SELECTORS.MENU_ITEM_CHECKED])
  ∧ (∃ w', exec (player false) activatePrivateSessionMenuItem w = (w', Returned true)
           ∧ clicks (new_events w w') = [ElClick 3%nat]
           ∧ new_events (located (player false)) w'
             = [ElQuerySelector 3%nat PS_CSS_SELECTORS.MENU_ITEM_CHECKED;
                ElClick 3%nat; Delay PS_DELAY_MS]).
Proof.
  intros w located. split.
  - exact (activate_clicks_only_unchecked (player true) w (located (player true))
             3%nat eq_refl).
  - exact (activate_clicks_only_unchecked (player false) w (located (player false))
             3%nat eq_refl).
Defined.



(** On a blank page the account button is never found: the [try] block
    throws, the cleanup runs, the call returns false. *)
Lemma startPrivateSession_contains_failures_witness :
  let w := set_clock 1000 initial_world in
  let w0 := (exec blank canPerformMenuOperation w).1 in
  let w1 := (exec blank (startPrivateSession_try true) w0).1 in
  "Failed to find menu button" ∈ not_found_errors
  ∧ ∃ w', exec blank (startPrivateSession true) w = (w', Returned false)
          ∧ exec blank cleanupMenuOperation w1 = (w', Returned tt)
          ∧ menuOperationInProgress (globals w') = false
          ∧ clicks (new_events w1 w') = closing_clicks blank w1.
Proof.
  intros w w0 w1.
  exact (proj2 (startPrivateSession_contains_failures blank true w)
               w0 w1 "Failed to find menu button" eq_refl eq_refl).
Defined.

(** C2 fails on the code.  The script is loaded with persistent mode saved
    as enabled, the private session is off, and the window gets the focus
    450 ms later.  The focus check calls [startPrivateSession] at 1150 ms
    and the initialisation calls it at 1200 ms; each passes the gate while
    the other is still looking for the indicator, because the lock is only
    taken after that search.  After fourteen turns of the event loop both
    calls are between [prepareMenuOperation] and [cleanupMenuOperation].
    The second click on the account button closes the menu the first one
    opened, neither call finds the menu item, and when nothing is left to
    run the session is still off.  The same happens with two direct calls
    50 ms apart, whereas a single call switches the session on. *)
Theorem overlapping_menu_operations :
  operations_in_flight (turns 14 (player false) startup) = 2%nat
  ∧ map wake (tasks (turns 12 (player false) startup)) = [1400; 1350]
  ∧ next_job (turns 24 (player false) startup) = None
  ∧ map outcome (tasks (turns 24 (player false) startup))
    = [Some (Returned Undefined); Some (Returned Undefined)]
  ∧ clicks (trace (world (turns 24 (player false) startup)))
    = [ElClick 1%nat; ElClick 1%nat]
  ∧ operations_in_flight (turns 6 (player false) two_calls) = 2%nat
  ∧ map outcome (tasks (turns 16 (player false) two_calls))
    = [Some (Returned (Boolean false)); Some (Returned (Boolean false))]
  ∧ clicks (trace (world (turns 16 (player false) two_calls)))
    = [ElClick 1%nat; ElClick 1%nat]
  ∧ (exec (player false) (startPrivateSession true) (set_clock 1000 initial_world)).2
    = Returned true
  ∧ clicks (trace (exec (player false) (startPrivateSession true)
                        (set_clock 1000 initial_world)).1)
    = [ElClick 1%nat; ElClick 3%nat; ElClick 1%nat].
Proof. vm_compute. done. Qed.

(** * Menu-item injector *)

(** The item the injector builds holds no [button] element (its button is a
    [div]), so the refresh, which looks for one, finds nothing to update:
    on an item the script created it changes nothing, whatever the flag. *)
Lemma update_of_created_item_is_noop (g g' : Globals) (li : Dom.Node) :
  Dom.updatePersistentMenuItemState g' (Dom.createPersistentMenuItem g li) []
  = Dom.createPersistentMenuItem g li.
Proof. by destruct li, (persistentModeEnabled g). Qed.

(** C8 fails on the code in its second half.  On the sample menu the first
    call adds one item with the fixed id right after the private-session
    entry.  The persistent mode is then switched on and the routine called
    again: there is still one item, but the menu is unchanged and the toggle
    still shows the disabled state. *)
Theorem ensurePersistentMenuItem_second_call_leaves_toggle :
  let off := initial_globals in
  let on := set_persistentModeEnabled true initial_globals in
  let m1 := Dom.ensurePersistentMenuItem off Dom.sampleMenu in
  let m2 := Dom.ensurePersistentMenuItem on m1 in
  Dom.persistentItemCount m1 = 1%nat
  ∧ Dom.findItemByText (Dom.menuList m1) PS_PRIVATE_SESSION_LABEL_TEXT = Some [1%nat; 0%nat]
  ∧ Dom.querySelector (Dom.menuList m1) (Dom.ById PS_PERSISTENT_ITEM_ID) = Some [2%nat]
  ∧ Dom.persistentItemCount m2 = 1%nat
  ∧ m2 = m1
  ∧ Dom.node_at (Dom.menuList m2) [2%nat; 0%nat; 1%nat]
    = Some (Dom.createToggleElement off)
  ∧ Dom.title <$> (match Dom.createToggleElement on with
                   | Dom.Element p _ => Some p | _ => None end)
    = Some "Click to disable persistent privacy mode"
  ∧ Dom.title <$> (match Dom.createToggleElement off with
                   | Dom.Element p _ => Some p | _ => None end)
    = Some "Click to enable persistent privacy mode".
Proof. vm_compute. done. Qed.

(** * Menu-item injector: every menu list *)

Module DomFacts.
Import Dom.

Implicit Types (n c root new : Node) (p q : Path) (cs : list Node) (sel : Selector).

Lemma descendants_element pr cs : descendants (Element pr cs) = children_from 0 cs.
Proof.
  simpl. generalize 0%nat. induction cs as [|c rest IH]; intros i; simpl; [done|].
  by rewrite IH.
Qed.

Lemma children_from_app k cs1 cs2 :
  children_from k (cs1 ++ cs2)
  = children_from k cs1 ++ children_from (k + length cs1) cs2.
Proof.
  revert k. induction cs1 as [|c rest IH]; intros k; simpl.
  - by rewrite Nat.add_0_r.
  - replace (k + S (length rest))%nat with (S k + length rest)%nat by lia.
    by rewrite IH, <- app_assoc.
Qed.

Lemma hits_app sel (ds1 ds2 : list (Path * Node)) :
  hits sel (ds1 ++ ds2) = hits sel ds1 ++ hits sel ds2.
Proof. apply List.filter_app. Qed.

Lemma hits_cons sel (d : Path * Node) (ds : list (Path * Node)) :
  hits sel (d :: ds) = if matches sel (snd d) then d :: hits sel ds else hits sel ds.
Proof. done. Qed.

Lemma hits_shift sel i (ds : list (Path * Node)) :
  hits sel (map (λ d, (i :: fst d, snd d)) ds)
  = map (λ d, (i :: fst d, snd d)) (hits sel ds).
Proof.
  induction ds as [|[p n] ds IH]; [done|].
  cbn [map]. rewrite !hits_cons. cbn [fst snd].
  destruct (matches sel n); cbn [map]; by rewrite IH.
Qed.

Lemma hits_children_from_nil sel k cs :
  (∀ c, c ∈ cs → silent sel c) → hits sel (children_from k cs) = [].
Proof.
  revert k. induction cs as [|c rest IH]; intros k Hcs; simpl; [done|].
  destruct (Hcs c) as [Hc Hin]; [by left|].
  rewrite Hc, hits_app, hits_shift, IH; [|intros c' Hc'; apply Hcs; by right].
  unfold querySelectorAll in Hin. apply map_eq_nil in Hin. by rewrite Hin.
Qed.

Lemma silent_children sel pr cs :
  querySelectorAll (Element pr cs) sel = [] → ∀ c, c ∈ cs → silent sel c.
Proof.
  unfold querySelectorAll. rewrite descendants_element. generalize 0%nat.
  induction cs as [|c rest IH]; intros k Hnil c' Hc'; [by apply elem_of_nil in Hc'|].
  apply map_eq_nil in Hnil. simpl in Hnil.
  destruct (matches sel c) eqn:Hc; [done|].
  rewrite hits_app, hits_shift in Hnil.
  apply app_eq_nil in Hnil as [Hd Hrest].
  apply elem_of_cons in Hc' as [->|Hc'].
  - split; [done|]. unfold querySelectorAll.
    apply map_eq_nil in Hd. by rewrite Hd.
  - apply (IH (S k)); [|done]. by rewrite Hrest.
Qed.

Lemma alter_middle {A : Type} (f : A → A) (j : nat) (l : list A) (x : A) :
  l !! j = Some x → alter f j l = take j l ++ f x :: drop (S j) l.
Proof.
  revert j. induction l as [|y l IH]; intros [|j] Hj; simpl in *; try done.
  - by injection Hj as ->.
  - by rewrite <- IH.
Qed.

Lemma elem_of_take_subset {A : Type} (k : nat) (l : list A) (x : A) :
  x ∈ take k l → x ∈ l.
Proof. intros H. rewrite <- (take_drop k l). apply elem_of_app. by left. Qed.

Lemma elem_of_drop_subset {A : Type} (k : nat) (l : list A) (x : A) :
  x ∈ drop k l → x ∈ l.
Proof. intros H. rewrite <- (take_drop k l). apply elem_of_app. by right. Qed.

(** [insert_after] at a path that is not the root. *)
Lemma insert_after_last pr cs i new :
  insert_after (Element pr cs) [i] new
  = if (i <? length cs)%nat
    then Element pr (take (S i) cs ++ new :: drop (S i) cs)
    else Element pr cs.
Proof. done. Qed.

Lemma insert_after_cons pr cs j q i new :
  insert_after (Element pr cs) (j :: q ++ [i]) new
  = Element pr (alter (λ c, insert_after c (q ++ [i]) new) j cs).
Proof. by destruct q. Qed.

Lemma insert_after_matches sel n p new :
  matches sel (insert_after n p new) = matches sel n.
Proof.
  destruct p as [|i [|i' p]]; try done; destruct n as [s|pr cs]; simpl; try done.
  by destruct (i <? length cs)%nat.
Qed.

(** The new node is where it should be: right after the target. *)
Lemma node_at_insert_after root q i n new :
  node_at root (q ++ [i]) = Some n →
  node_at (insert_after root (q ++ [i]) new) (q ++ [S i]) = Some new.
Proof.
  revert root. induction q as [|j q IH]; intros [s|pr cs] Hn; try done.
  - simpl in Hn. destruct (cs !! i) as [c|] eqn:Hi; [|done].
    apply lookup_lt_Some in Hi. rewrite app_nil_l, insert_after_last.
    apply Nat.ltb_lt in Hi as Hi'. rewrite Hi'. simpl.
    rewrite lookup_app_r; rewrite length_take; [|lia].
    by replace (S i - S i `min` length cs)%nat with 0%nat by lia.
  - rewrite <- !app_comm_cons, insert_after_cons. simpl in *.
    destruct (cs !! j) as [c|] eqn:Hj; [|done].
    rewrite list_lookup_alter_eq, Hj. simpl. by apply IH.
Qed.

(** In a tree where nothing matched, the matches after an insertion are
    those of the inserted node. *)
Lemma querySelectorAll_insert_after sel root q i n new :
  node_at root (q ++ [i]) = Some n →
  querySelectorAll root sel = [] →
  matches sel new = true →
  querySelectorAll new sel = [] →
  querySelectorAll (insert_after root (q ++ [i]) new) sel = [q ++ [S i]].
Proof.
  intros Hn Hroot Hnew Hin. revert root Hn Hroot.
  induction q as [|j q IH]; intros [s|pr cs] Hn Hroot; try done.
  - simpl in Hn. destruct (cs !! i) as [c|] eqn:Hi; [|done].
    apply lookup_lt_Some in Hi. rewrite app_nil_l, insert_after_last.
    apply Nat.ltb_lt in Hi as Hi'. rewrite Hi'.
    pose proof (silent_children sel pr cs Hroot) as Hcs.
    unfold querySelectorAll. rewrite descendants_element, children_from_app.
    rewrite hits_app, hits_children_from_nil
      by (intros c' Hc'; eapply Hcs, elem_of_take_subset, Hc').
    simpl. rewrite Hnew, hits_app, hits_shift.
    unfold querySelectorAll in Hin. apply map_eq_nil in Hin. rewrite Hin.
    rewrite hits_children_from_nil
      by (intros c' Hc'; eapply Hcs, elem_of_drop_subset, Hc').
    simpl. rewrite length_take. do 2 f_equal. lia.
  - rewrite <- !app_comm_cons, insert_after_cons. simpl in Hn.
    destruct (cs !! j) as [c|] eqn:Hj; [|done].
    pose proof (silent_children sel pr cs Hroot) as Hcs.
    destruct (Hcs c) as [Hc Hcin]; [by eapply list_elem_of_lookup_2|].
    rewrite (alter_middle _ _ _ _ Hj).
    unfold querySelectorAll. rewrite descendants_element, children_from_app.
    rewrite hits_app, hits_children_from_nil
      by (intros c' Hc'; eapply Hcs, elem_of_take_subset, Hc').
    simpl. rewrite insert_after_matches, Hc, hits_app, hits_shift.
    rewrite hits_children_from_nil
      by (intros c' Hc'; eapply Hcs, elem_of_drop_subset, Hc').
    rewrite app_nil_r, map_map. simpl.
    specialize (IH c Hn Hcin). unfold querySelectorAll in IH.
    rewrite length_take_le by (apply lookup_lt_Some in Hj; lia).
    trans (map (cons j) (map fst (hits sel (descendants
                                   (insert_after c (q ++ [i]) new))))).
    + by rewrite List.map_map.
    + by rewrite IH.
Qed.

Lemma closest_node root p sel a :
  closest root p sel = Some a →
  ∃ n, node_at root a = Some n ∧ matches sel n = true.
Proof.
  unfold closest. intros H. apply List.find_some in H as [_ H].
  unfold matches_at in H. destruct (node_at root a) as [n|]; [eauto|done].
Qed.

(** What the script builds: an item that carries the id, and holds neither
    a second element with the id nor any [button] element. *)
Lemma created_item_facts g li :
  matches (ById PS_PERSISTENT_ITEM_ID) (createPersistentMenuItem g li) = true
  ∧ querySelectorAll (createPersistentMenuItem g li) (ById PS_PERSISTENT_ITEM_ID) = []
  ∧ querySelectorAll (createPersistentMenuItem g li) (ByTag "button") = [].
Proof. by destruct li, (persistentModeEnabled g). Qed.

Lemma no_item_yet m :
  persistentItemCount m = 0%nat →
  querySelectorAll (menuList m) (ById PS_PERSISTENT_ITEM_ID) = [].
Proof. unfold persistentItemCount. apply length_zero_iff_nil. Qed.

(** The one case in which the routine changes the menu. *)
Lemma ensure_inserts g m button q i :
  persistentItemCount m = 0%nat →
  findItemByText (menuList m) PS_PRIVATE_SESSION_LABEL_TEXT = Some button →
  (findPrivateSessionItem m 0).2 = Some (q ++ [i]) →
  ∃ n, node_at (menuList m) (q ++ [i]) = Some n
       ∧ ensurePersistentMenuItem g m
         = {| menuList := insert_after (menuList m) (q ++ [i])
                            (createPersistentMenuItem g n);
              scheduledRetries := scheduledRetries m |}.
Proof.
  intros Hcount Hbutton Hli. apply no_item_yet in Hcount.
  unfold ensurePersistentMenuItem, querySelector. rewrite Hbutton, Hcount. simpl.
  unfold addPersistentPrivacyItem.
  unfold findPrivateSessionItem in *.
  destruct (List.find _ (querySelectorAll (menuList m) (ByTag "span")))
    as [span|]; simpl in *.
  - rewrite Hli. apply closest_node in Hli as (n & Hn & _).
    rewrite Hn. by exists n.
  - done.
Qed.

(** After an insertion the routine finds the item, and looks in vain for a
    button inside it. *)
Lemma ensure_after_insert g g' (root : Node) (retries : list nat) q i n :
  node_at root (q ++ [i]) = Some n →
  querySelectorAll root (ById PS_PERSISTENT_ITEM_ID) = [] →
  let m1 := {| menuList := insert_after root (q ++ [i]) (createPersistentMenuItem g n);
               scheduledRetries := retries |} in
  querySelectorAll (menuList m1) (ById PS_PERSISTENT_ITEM_ID) = [q ++ [S i]]
  ∧ node_at (menuList m1) (q ++ [S i]) = Some (createPersistentMenuItem g n)
  ∧ ensurePersistentMenuItem g' m1 = m1.
Proof.
  intros Hn Hnone m1.
  destruct (created_item_facts g n) as (Hid & Hinner & Hbutton).
  assert (Hall : querySelectorAll (menuList m1) (ById PS_PERSISTENT_ITEM_ID)
                 = [q ++ [S i]])
    by (by eapply querySelectorAll_insert_after).
  assert (Hat : node_at (menuList m1) (q ++ [S i]) = Some (createPersistentMenuItem g n))
    by (by eapply node_at_insert_after).
  split; [done|]. split; [done|].
  unfold ensurePersistentMenuItem, querySelector.
  destruct (findItemByText (menuList m1) PS_PRIVATE_SESSION_LABEL_TEXT); [|done].
  rewrite Hall. simpl.
  unfold updatePersistentMenuItemState, querySelectorIn, querySelectorAllIn.
  simpl in Hat. rewrite Hat, Hbutton. done.
Qed.


End DomFacts.

(** First half of C8, for every menu list: when the list holds no custom
    item yet, and the script finds the private-session button and, from the
    same label, its list item at position [i] under [q], one call inserts
    the custom item as the next sibling of that list item, and it is then
    the only element of the list with the fixed id. *)
Theorem ensurePersistentMenuItem_adds_one_item
    (g : Globals) (m : Dom.Menu) (button q : Dom.Path) (i : nat)
    (Hnone : Dom.persistentItemCount m = 0%nat)
    (Hbutton : Dom.findItemByText (Dom.menuList m) PS_PRIVATE_SESSION_LABEL_TEXT
               = Some button)
    (Hli : (Dom.findPrivateSessionItem m 0).2 = Some (q ++ [i])) :
  let m1 := Dom.ensurePersistentMenuItem g m in
  ∃ li, Dom.node_at (Dom.menuList m) (q ++ [i]) = Some li
        ∧ Dom.node_at (Dom.menuList m1) (q ++ [S i])
          = Some (Dom.createPersistentMenuItem g li)
        ∧ Dom.querySelectorAll (Dom.menuList m1) (Dom.ById PS_PERSISTENT_ITEM_ID)
          = [q ++ [S i]]
        ∧ Dom.persistentItemCount m1 = 1%nat
        ∧ Dom.scheduledRetries m1 = Dom.scheduledRetries m.
Proof.
  intros m1.
  destruct (DomFacts.ensure_inserts g m button q i Hnone Hbutton Hli) as (li & Hat & Hm1).
  destruct (DomFacts.ensure_after_insert g g (Dom.menuList m) (Dom.scheduledRetries m)
              q i li Hat (DomFacts.no_item_yet m Hnone)) as (Hall & Hnew & _).
  exists li. subst m1. rewrite Hm1. unfold Dom.persistentItemCount.
  rewrite Hall. done.
Qed.

Lemma ensurePersistentMenuItem_adds_one_item_witness :
  let m1 := Dom.ensurePersistentMenuItem initial_globals Dom.sampleMenu in
  ∃ li, Dom.node_at (Dom.menuList Dom.sampleMenu) [1%nat] = Some li
        ∧ Dom.node_at (Dom.menuList m1) [2%nat]
          = Some (Dom.createPersistentMenuItem initial_globals li)
        ∧ Dom.querySelectorAll (Dom.menuList m1) (Dom.ById PS_PERSISTENT_ITEM_ID)
          = [[2%nat]]
        ∧ Dom.persistentItemCount m1 = 1%nat
        ∧ Dom.scheduledRetries m1 = Dom.scheduledRetries Dom.sampleMenu.
Proof.
  exact (ensurePersistentMenuItem_adds_one_item initial_globals Dom.sampleMenu
           [1%nat; 0%nat] [] 1%nat eq_refl eq_refl eq_refl).
Defined.



(** * Further properties of the persistent-mode controller *)

Section PersistentModeMore.

Implicit Types (p : Page) (o : PersistentOp).

(** Enabling twice is enabling once, and disabling twice is disabling once:
    the second enable finds the handler in place and installs nothing, the
    second disable finds nothing to remove. *)
Theorem enable_disable_idempotent p :
  enablePersistentMode (enablePersistentMode p) = enablePersistentMode p
  ∧ disablePersistentMode (disablePersistentMode p) = disablePersistentMode p.
Proof.
  split.
  - pose proof (enable_listener p) as [l Hl].
    pose proof (enable_flag p) as Hf.
    pose proof (enable_in_sync p) as Hs.
    destruct (enablePersistentMode p) as [[] ls wf dv nc].
    unfold storage_in_sync in Hs. simpl in *. subst.
    unfold enablePersistentMode, savePersistentModeSetting, with_vars. simpl.
    f_equal. by apply insert_id.
  - pose proof (disable_listener p) as Hl.
    pose proof (disable_flag p) as Hf.
    pose proof (disable_in_sync p) as Hs.
    destruct (disablePersistentMode p) as [[] ls wf dv nc].
    unfold storage_in_sync in Hs. simpl in *. subst.
    unfold disablePersistentMode, savePersistentModeSetting, with_vars. simpl.
    f_equal. by apply insert_id.
Qed.

(** The mode survives a restart: after any sequence of enable, disable and
    toggle, a script that starts afresh on the storage left behind loads
    the flag the last operation set. *)
Theorem setting_survives_restart p (os : list PersistentOp) o :
  let q := run_op o (run_ops os p) in
  persistentModeEnabled
    (vars (loadPersistentModeSetting (page_at_load (localStorage q))))
  = persistentModeEnabled (vars q).
Proof.
  intros q.
  assert (Hs : storage_in_sync q).
  { unfold q. destruct o; simpl;
      auto using enable_in_sync, disable_in_sync, toggle_in_sync. }
  unfold loadPersistentModeSetting, storage_in_sync in *. simpl. rewrite Hs.
  by destruct (persistentModeEnabled (vars q)).
Qed.

End PersistentModeMore.

(** * Further properties of scripts: what a call never does *)

Lemma avoids_weaken {A : Type} (P Q : Eff → bool) (p : Script A) :
  (∀ e, P e = true → Q e = true) → avoids Q p → avoids P p.
Proof.
  intros HPQ. induction p as [a|msg|e k IH]; simpl; [done..|].
  intros [HQ Hk]. split; [|by intros x; apply IH].
  destruct (P e) eqn:HP; [|done]. apply HPQ in HP. congruence.
Qed.

(** A [try] whose block cannot throw never reaches its handler. *)
Lemma avoids_try_catch {A : Type} (P : Eff → bool) (body : Script A) handler :
  avoids P body → throws_within [] body → avoids P (try_catch body handler).
Proof.
  induction body as [a|msg|e k IH]; simpl; [done| |].
  - intros _ Hin. by apply elem_of_nil in Hin.
  - intros [HP Hk] Hthrows. split; [done|]. intros x. by apply IH.
Qed.

Lemma side_effect_click e : is_click e = true → side_effect e = true.
Proof. by destruct e. Qed.

Lemma side_effect_lock_write e : is_lock_write e = true → side_effect e = true.
Proof. by destruct e. Qed.

Lemma side_effect_page_call e : is_page_call e = true → side_effect e = true.
Proof. by destruct e. Qed.

(** The searches only look. *)
Lemma getElement_looks selector multiple :
  avoids side_effect (getElement selector multiple).
Proof.
  unfold getElement. generalize PS_RETRY_LIMIT as n.
  induction n as [|n IH]; simpl; [done|]. destruct multiple; script_auto.
Qed.

Lemma searchButtons_looks menuItems labelText :
  avoids side_effect (searchButtons menuItems labelText).
Proof.
  induction menuItems as [|b rest IH]; cbn [searchButtons]; [done|].
  unfold isMenuItemWithLabel. script_auto.
Qed.

Lemma findMenuItemButton_looks labelText :
  avoids side_effect (findMenuItemButton labelText).
Proof.
  unfold findMenuItemButton. generalize PS_RETRY_LIMIT as n.
  induction n as [|n IH]; cbn [findMenuItemButton_loop]; [done|].
  apply avoids_bind.
  - unfold searchForMenuItemButton. script_auto. apply searchButtons_looks.
  - script_auto.
Qed.

Lemma findPrivateSessionButtonIn_looks buttons :
  avoids side_effect (findPrivateSessionButtonIn buttons).
Proof. induction buttons as [|b rest IH]; simpl; [done|]. script_auto. Qed.

Lemma isPrivateSessionActive_looks : avoids side_effect isPrivateSessionActive.
Proof.
  unfold isPrivateSessionActive, findPrivateSessionIndicator.
  apply avoids_bind; [|done].
  generalize PS_INDICATOR_RETRIES as n.
  induction n as [|n IH]; cbn [findPrivateSessionIndicator_loop]; [done|].
  apply avoids_bind.
  - unfold searchForPrivateSessionIndicator, findPrivateSessionButtonInContainer.
    script_auto. apply findPrivateSessionButtonIn_looks.
  - script_auto.
Qed.

Lemma canPerformMenuOperation_looks : avoids side_effect canPerformMenuOperation.
Proof. unfold canPerformMenuOperation. script_auto. Qed.

Lemma startPrivateSession_false_looks : avoids side_effect (startPrivateSession false).
Proof.
  unfold startPrivateSession.
  apply avoids_bind; [apply canPerformMenuOperation_looks|].
  intros []; cbn [negb]; [|done].
  assert (Hbody : ∀ P, (∀ e, P e = true → side_effect e = true) →
                       avoids P (startPrivateSession_try false)).
  { intros P HP. unfold startPrivateSession_try. apply avoids_bind.
    - eapply avoids_weaken; [exact HP|apply isPrivateSessionActive_looks].
    - by intros []. }
  apply avoids_try_catch; [by apply Hbody|].
  unfold startPrivateSession_try.
  apply throws_within_bind; [apply isPrivateSessionActive_never_throws|].
  by intros [].
Qed.

Section Frames.

Context (h : Host).

(** A script that only looks leaves the timers alone, and on a quiet page
    the whole page. *)
Lemma exec_looking {A : Type} (p : Script A) w :
  avoids side_effect p →
  timers (exec h p w).1 = timers w
  ∧ nextTimer (exec h p w).1 = nextTimer w
  ∧ (quiet h → page (exec h p w).1 = page w).
Proof.
  revert w. induction p as [a|msg|e k IH]; intros w Hp; simpl; [done..|].
  destruct Hp as [He Hk].
  destruct e; try discriminate He; simpl;
    match goal with |- context [exec h (k ?x) ?w1] =>
      destruct (IH x w1 (Hk x)) as (Ht & Hn & Hq) end;
    simpl in *; (split; [done|split; [done|]]);
    intros Hquiet; rewrite (Hq Hquiet); try done.
  unfold with_vars. simpl. rewrite Hquiet. by destruct (page w).
Qed.

(** Without [forceOpen] the composite operation only looks: it returns a
    boolean having clicked nothing, written no variable, set or cleared no
    timer; on a quiet page it leaves the page exactly as it was. *)
Theorem startPrivateSession_without_forceOpen_only_looks w :
  ∃ w' b, exec h (startPrivateSession false) w = (w', Returned b)
          ∧ List.filter side_effect (new_events w w') = []
          ∧ timers w' = timers w
          ∧ nextTimer w' = nextTimer w
          ∧ (quiet h → page w' = page w).
Proof.
  destruct (exec_returns h (startPrivateSession false) w
              (startPrivateSession_never_throws false)) as (w' & b & Hex).
  destruct (exec_avoids h side_effect (startPrivateSession false) w
              startPrivateSession_false_looks) as (evs & Hevs & Hnone).
  pose proof (exec_looking (startPrivateSession false) w
                startPrivateSession_false_looks) as (Ht & Hn & Hq).
  rewrite Hex in *. simpl in *.
  exists w', b. split; [done|]. split; [|done].
  by rewrite (new_events_app w w' evs).
Qed.

End Frames.

Lemma startPrivateSession_without_forceOpen_only_looks_witness :
  ∃ w' b, exec (player false) (startPrivateSession false) initial_world
          = (w', Returned b)
          ∧ List.filter side_effect (new_events initial_world w') = []
          ∧ page w' = page initial_world.
Proof.
  destruct (startPrivateSession_without_forceOpen_only_looks (player false) initial_world)
    as (w' & b & Hex & Hlooks & _ & _ & Hpage).
  exists w', b. split; [done|]. split; [done|]. apply Hpage. by intros tr g.
Defined.

(** * The lock along every path *)

Lemma lock_wp_mono {A : Type} (p : Script A) l
    (Qr Qr' : A → option bool → Prop) (Qt Qt' : option bool → Prop) :
  (∀ a l', Qr a l' → Qr' a l') → (∀ l', Qt l' → Qt' l') →
  lock_wp p l Qr Qt → lock_wp p l Qr' Qt'.
Proof.
  intros Hr Ht. revert l. induction p as [a|msg|e k IH]; intros l; simpl; auto.
Qed.

Lemma lock_wp_bind {A B : Type} (m : Script A) (f : A → Script B) l Qr Qt :
  lock_wp m l (λ a l', lock_wp (f a) l' Qr Qt) Qt → lock_wp (bind m f) l Qr Qt.
Proof. revert l. induction m as [a|msg|e k IH]; intros l; simpl; auto. Qed.

Lemma lock_wp_try_catch {A : Type} (body : Script A) handler l Qr Qt :
  lock_wp body l Qr (λ l', ∀ msg, lock_wp (handler msg) l' Qr Qt) →
  lock_wp (try_catch body handler) l Qr Qt.
Proof. revert l. induction body as [a|msg|e k IH]; intros l; simpl; auto. Qed.

(** A script that does not write the lock leaves it as it is. *)
Lemma lock_wp_avoids {A : Type} (p : Script A) l
    (Qr : A → option bool → Prop) (Qt : option bool → Prop) :
  avoids is_lock_write p → (∀ a, Qr a l) → Qt l → lock_wp p l Qr Qt.
Proof.
  intros Hp Hr Ht. induction p as [a|msg|e k IH]; simpl; [done..|].
  destruct Hp as [He Hk]. intros x.
  replace (lock_after e l) with l by (by destruct e).
  by apply IH.
Qed.

Lemma lock_wp_avoids_total {A : Type} (p : Script A) l
    (Qr : A → option bool → Prop) (Qt : option bool → Prop) :
  avoids is_lock_write p → throws_within [] p → (∀ a, Qr a l) → lock_wp p l Qr Qt.
Proof.
  intros Hp Hthrows Hr. induction p as [a|msg|e k IH]; simpl.
  - done.
  - by apply elem_of_nil in Hthrows.
  - destruct Hp as [He Hk]. intros x.
    replace (lock_after e l) with l by (by destruct e).
    by apply IH.
Qed.

Lemma lock_wp_looks {A : Type} (p : Script A) l
    (Qr : A → option bool → Prop) (Qt : option bool → Prop) :
  avoids side_effect p → (∀ a, Qr a l) → Qt l → lock_wp p l Qr Qt.
Proof.
  intros Hp. apply lock_wp_avoids.
  eapply avoids_weaken; [apply side_effect_lock_write|done].
Qed.

Lemma lock_fold_last l evs :
  lock_fold l evs = from_option Some l (last_lock_write evs).
Proof.
  unfold lock_fold. revert l. induction evs as [|e evs IH]; intros l; simpl; [done|].
  rewrite IH. destruct (last_lock_write evs); [done|]. by destruct e.
Qed.

Section LockSoundness.

Context (h : Host).

(** What [lock_wp] promises holds of every run. *)
Lemma lock_wp_sound {A : Type} (p : Script A) l Qr Qt w :
  lock_wp p l Qr Qt →
  ∃ evs, trace (exec h p w).1 = trace w ++ evs
         ∧ match (exec h p w).2 with
           | Returned a => Qr a (lock_fold l evs)
           | Thrown _ => Qt (lock_fold l evs)
           end.
Proof.
  revert l w. induction p as [a|msg|e k IH]; intros l w Hp; simpl.
  - exists []. by rewrite app_nil_r.
  - exists []. by rewrite app_nil_r.
  - pose proof (handle_trace h e w) as He.
    destruct (handle h e w) as [w1 x]; simpl in He.
    destruct (IH x (lock_after e l) (resumed h e w1) (Hp x)) as (evs & Hevs & HQ).
    exists (e :: evs). split; [|done].
    rewrite Hevs, resumed_trace, He. by rewrite <- app_assoc.
Qed.

(** On a quiet page the lock variable changes only by the call's own
    writes. *)
Lemma exec_lock_value {A : Type} (p : Script A) w :
  quiet h →
  ∃ evs, trace (exec h p w).1 = trace w ++ evs
         ∧ Some (menuOperationInProgress (globals (exec h p w).1))
           = lock_fold (Some (menuOperationInProgress (globals w))) evs.
Proof.
  intros Hquiet. revert w. induction p as [a|msg|e k IH]; intros w; simpl.
  - exists []. by rewrite app_nil_r.
  - exists []. by rewrite app_nil_r.
  - pose proof (handle_trace h e w) as He.
    destruct (handle h e w) as [w1 x] eqn:Hh; simpl in He.
    destruct (IH x (resumed h e w1)) as (evs & Hevs & Hval).
    exists (e :: evs). split.
    + rewrite Hevs, resumed_trace, He. by rewrite <- app_assoc.
    + rewrite Hval. unfold lock_fold. simpl. f_equal.
      destruct e; simpl in Hh; inversion Hh; subst; simpl; try done.
      * unfold globals. simpl. by rewrite Hquiet.
      * unfold globals, enablePersistentMode, savePersistentModeSetting, with_vars.
        simpl. by destruct (focusEventListener (vars (page w))).
Qed.

End LockSoundness.

Lemma ensureMenuClosed_keeps_lock : avoids is_lock_write ensureMenuClosed.
Proof. unfold ensureMenuClosed. script_auto. Qed.

Lemma openMainMenu_keeps_lock : avoids is_lock_write openMainMenu.
Proof.
  unfold openMainMenu.
  apply avoids_bind; [apply ensureMenuClosed_keeps_lock|]. intros _.
  apply avoids_bind; [by apply avoids_perform|]. intros _.
  apply avoids_bind.
  { eapply avoids_weaken; [apply side_effect_lock_write|apply getElement_looks]. }
  intros [[m|es]|]; script_auto.
Qed.

Lemma activatePrivateSessionMenuItem_keeps_lock :
  avoids is_lock_write activatePrivateSessionMenuItem.
Proof.
  unfold activatePrivateSessionMenuItem. apply avoids_bind.
  { eapply avoids_weaken; [apply side_effect_lock_write|apply findMenuItemButton_looks]. }
  intros [item|]; [|done]. unfold isMenuItemSelected. script_auto.
Qed.

(** The cleanup ends with the lock written free, whatever it was. *)
Lemma cleanupMenuOperation_frees l (Qt : option bool → Prop) :
  lock_wp cleanupMenuOperation l (λ _ l', l' = Some false) Qt.
Proof.
  unfold cleanupMenuOperation. apply lock_wp_bind.
  apply lock_wp_avoids_total;
    [apply ensureMenuClosed_keeps_lock|apply ensureMenuClosed_never_throws|].
  intros []. simpl. by intros [].
Qed.

Lemma cleanup_then_return {A : Type} l (a : A) (Qt : option bool → Prop) :
  lock_wp (cleanupMenuOperation ;; Ret a) l (λ _ l', l' ≠ Some true) Qt.
Proof.
  apply lock_wp_bind.
  apply (lock_wp_mono cleanupMenuOperation l (λ _ l', l' = Some false) _ Qt Qt);
    [|done|apply cleanupMenuOperation_frees].
  intros _ l' ->. simpl. done.
Qed.

Lemma startPrivateSession_catch_frees l msg :
  lock_wp (startPrivateSession_catch msg) l (λ _ l', l' ≠ Some true) (λ _, False).
Proof. apply cleanup_then_return. Qed.

Lemma prepareMenuOperation_takes l (Qr : unit → option bool → Prop) Qt :
  Qr tt (Some true) → lock_wp prepareMenuOperation l Qr Qt.
Proof. intros H. unfold prepareMenuOperation. simpl. by intros [] now []. Qed.

Lemma startPrivateSession_lock forceOpen :
  lock_wp (startPrivateSession forceOpen) None
          (λ _ l, l ≠ Some true) (λ _, False).
Proof.
  unfold startPrivateSession. apply lock_wp_bind.
  apply lock_wp_avoids_total.
  { eapply avoids_weaken; [apply side_effect_lock_write|].
    apply canPerformMenuOperation_looks. }
  { apply canPerformMenuOperation_never_throws. }
  intros []; cbn [negb]; [|done].
  apply lock_wp_try_catch.
  unfold startPrivateSession_try. apply lock_wp_bind.
  apply lock_wp_avoids_total.
  { eapply avoids_weaken; [apply side_effect_lock_write|].
    apply isPrivateSessionActive_looks. }
  { apply isPrivateSessionActive_never_throws. }
  intros []; [done|].
  unfold handlePrivateSessionActivation. destruct forceOpen; cbn [negb]; [|done].
  apply lock_wp_bind, prepareMenuOperation_takes.
  apply lock_wp_bind. apply lock_wp_avoids; [apply openMainMenu_keeps_lock| |].
  2: { intros msg. apply startPrivateSession_catch_frees. }
  intros _. apply lock_wp_bind.
  apply lock_wp_avoids; [apply activatePrivateSessionMenuItem_keeps_lock| |].
  2: { intros msg. apply startPrivateSession_catch_frees. }
  intros _. apply cleanup_then_return.
Qed.

(** Whoever takes the lock gives it back.  Every call of the composite
    operation returns, and the last value it wrote to
    [menuOperationInProgress], if it wrote any, is false, on the success
    path as on the error paths.  On a quiet page a call that finds the lock
    free therefore leaves it free. *)
Theorem startPrivateSession_releases_lock (h : Host) forceOpen w :
  ∃ w' b, exec h (startPrivateSession forceOpen) w = (w', Returned b)
          ∧ last_lock_write (new_events w w') ≠ Some true
          ∧ (quiet h → menuOperationInProgress (globals w) = false →
             menuOperationInProgress (globals w') = false).
Proof.
  destruct (lock_wp_sound h (startPrivateSession forceOpen) None _ _ w
              (startPrivateSession_lock forceOpen)) as (evs & Hevs & HQ).
  pose proof (exec_lock_value h (startPrivateSession forceOpen) w) as Hvalue.
  destruct (exec h (startPrivateSession forceOpen) w) as [w' [b|msg]];
    cbn [fst snd] in *; [|done].
  exists w', b. split; [done|].
  rewrite (new_events_app w w' evs Hevs).
  rewrite lock_fold_last in HQ.
  assert (Hlast : last_lock_write evs ≠ Some true) by (by destruct (last_lock_write evs)).
  split; [done|].
  intros Hquiet Hfree.
  destruct (Hvalue Hquiet) as (evs' & Hevs' & Hval).
  assert (evs' = evs) as -> by (eapply app_inv_head; by rewrite <- Hevs, <- Hevs').
  rewrite lock_fold_last, Hfree in Hval.
  destruct (last_lock_write evs) as [[]|]; simpl in Hval; congruence.
Qed.

(** On the player, with the session off: the call opens the menu, clicks
    the item and closes the menu; the lock is free again. *)
Lemma startPrivateSession_releases_lock_witness :
  let w := set_clock 1000 initial_world in
  ∃ w' b, exec (player false) (startPrivateSession true) w = (w', Returned b)
          ∧ last_lock_write (new_events w w') ≠ Some true
          ∧ menuOperationInProgress (globals w') = false.
Proof.
  intros w.
  destruct (startPrivateSession_releases_lock (player false) true w)
    as (w' & b & Hex & Hlast & Hfree).
  exists w', b. split; [done|]. split; [done|].
  apply Hfree; [by intros tr g|reflexivity].
Defined.

(** * The searches on a page that does not change *)

Section Runs.

Context (h : Host).

Lemma runs_ret {A : Type} (a : A) w : runs h (Ret a) w [] (Returned a) w.
Proof. split; [done|]. by rewrite app_nil_r. Qed.

Lemma runs_bind {A B : Type} (m : Script A) (f : A → Script B) w e1 a w1 e2 r w2 :
  runs h m w e1 (Returned a) w1 → runs h (f a) w1 e2 r w2 →
  runs h (bind m f) w (e1 ++ e2) r w2.
Proof.
  intros [Hm Ht1] [Hf Ht2]. split.
  - by rewrite exec_bind, Hm.
  - by rewrite Ht2, Ht1, app_assoc.
Qed.

Lemma runs_do {A : Type} e (k : Resp e → Script A) w evs r w' :
  runs h (k (handle h e w).2) (resumed h e (handle h e w).1) evs r w' →
  runs h (Do e k) w (e :: evs) r w'.
Proof.
  intros [Hk Ht]. split.
  - simpl. by destruct (handle h e w).
  - rewrite Ht, resumed_trace, handle_trace. by rewrite <- app_assoc.
Qed.

Lemma runs_events {A : Type} (p : Script A) w evs r w' :
  runs h p w evs r w' → new_events w w' = evs.
Proof. intros [_ Ht]. by apply new_events_app. Qed.

Lemma runs_avoids {A : Type} (P : Eff → bool) (p : Script A) w evs r w' :
  avoids P p → runs h p w evs r w' → List.filter P evs = [].
Proof.
  intros Hp [Hex Ht].
  destruct (exec_avoids h P p w Hp) as (evs' & Ht' & Hnone).
  rewrite Hex in Ht'. simpl in Ht'.
  assert (evs' = evs) as -> by (eapply app_inv_head; by rewrite <- Ht, <- Ht').
  done.
Qed.

Lemma delays_in_app e1 e2 : delays_in (e1 ++ e2) = (delays_in e1 + delays_in e2)%nat.
Proof. unfold delays_in. by rewrite List.filter_app, length_app. Qed.

End Runs.

Section StaticPage.

Context (h : Host) (d : Document).
Hypothesis static : ∀ tr, document h tr = d.

Lemma findPrivateSessionButtonIn_static buttons w :
  ∃ evs w',
    runs h (findPrivateSessionButtonIn buttons) w evs
         (Returned (List.find (λ b, includes (textOf d b) PS_PRIVATE_SESSION_LABEL_TEXT)
                              buttons)) w'
    ∧ delays_in evs = 0%nat.
Proof.
  revert w. induction buttons as [|b rest IH]; intros w.
  - exists [], w. split; [apply runs_ret|done].
  - cbn [findPrivateSessionButtonIn List.find].
    destruct (includes (textOf d b) PS_PRIVATE_SESSION_LABEL_TEXT) eqn:Hb.
    + eexists _, _. split.
      * apply runs_do. simpl. rewrite static, Hb. apply runs_ret.
      * done.
    + destruct (IH (resumed h (ElTextContent b) (handle h (ElTextContent b) w).1))
        as (evs & w' & Hruns & Hd).
      exists (ElTextContent b :: evs), w'. split; [|done].
      apply runs_do. simpl. rewrite static, Hb. exact Hruns.
Qed.

Lemma searchForPrivateSessionIndicator_static w :
  ∃ evs w',
    runs h searchForPrivateSessionIndicator w evs (Returned (indicator_in d)) w'
    ∧ delays_in evs = 0%nat.
Proof.
  unfold searchForPrivateSessionIndicator, indicator_in.
  set (s := PS_CSS_SELECTORS.PRIVATE_SESSION_INDICATOR_CONTAINER).
  set (q := "button, * button, * * button, * * * button").
  destruct (head (matching d s)) as [c|] eqn:Hc.
  - set (w1 := resumed h (DocQuerySelector s) (handle h (DocQuerySelector s) w).1).
    set (w2 := resumed h (ElQuerySelectorAll c q) (handle h (ElQuerySelectorAll c q) w1).1).
    destruct (findPrivateSessionButtonIn_static (matchingIn d c q) w2)
      as (evs & w' & Hruns & Hd).
    exists (DocQuerySelector s :: ElQuerySelectorAll c q :: evs), w'.
    split; [|exact Hd].
    apply runs_do. simpl. rewrite static, Hc.
    unfold findPrivateSessionButtonInContainer.
    apply runs_do. simpl. rewrite static. exact Hruns.
  - exists [DocQuerySelector s], (resumed h (DocQuerySelector s) (handle h (DocQuerySelector s) w).1).
    split; [|done].
    apply runs_do. simpl. rewrite static, Hc. apply runs_ret.
Qed.

Lemma findPrivateSessionIndicator_loop_static n w :
  ∃ evs w',
    runs h (findPrivateSessionIndicator_loop n) w evs
         (Returned (match n with O => None | S _ => indicator_in d end)) w'
    ∧ delays_in evs = (match indicator_in d with Some _ => 0 | None => n end)%nat.
Proof.
  revert w. induction n as [|n IH]; intros w.
  - exists [], w. split; [apply runs_ret|]. by destruct (indicator_in d).
  - cbn [findPrivateSessionIndicator_loop].
    destruct (searchForPrivateSessionIndicator_static w) as (e1 & w1 & Hs & Hd1).
    destruct (indicator_in d) as [i|] eqn:Hi.
    + exists (e1 ++ []), w1. split; [|by rewrite app_nil_r].
      eapply runs_bind; [exact Hs|]. apply runs_ret.
    + destruct (IH (resumed h (Delay PS_DELAY_MS)
                      (handle h (Delay PS_DELAY_MS) w1).1)) as (e2 & w2 & Hl & Hd2).
      exists (e1 ++ Delay PS_DELAY_MS :: e2), w2. split.
      * eapply runs_bind; [exact Hs|]. apply runs_do.
        assert (Hnone : match n with O => None | S _ => @None Elem end = None)
          by (by destruct n).
        rewrite Hnone in Hl. exact Hl.
      * rewrite delays_in_app, Hd1. unfold delays_in in *. simpl. by rewrite Hd2.
Qed.

(** On a page that does not change while the script looks, the activity
    check answers whether the indicator container holds a button whose text
    includes the label; it answers at once when it does and after exactly
    [PS_INDICATOR_RETRIES] delays when it does not, and it only looks. *)
Theorem isPrivateSessionActive_on_static_page w :
  ∃ w', exec h isPrivateSessionActive w
        = (w', Returned (bool_decide (is_Some (indicator_in d))))
        ∧ delays_in (new_events w w')
          = (match indicator_in d with Some _ => 0%nat | None => PS_INDICATOR_RETRIES end)
        ∧ List.filter side_effect (new_events w w') = [].
Proof.
  destruct (findPrivateSessionIndicator_loop_static PS_INDICATOR_RETRIES w)
    as (evs & w' & Hruns & Hd).
  assert (Hall : runs h isPrivateSessionActive w (evs ++ [])
                      (Returned (bool_decide (is_Some (indicator_in d)))) w').
  { unfold isPrivateSessionActive, findPrivateSessionIndicator.
    eapply runs_bind; [exact Hruns|]. apply runs_ret. }
  rewrite app_nil_r in Hall.
  exists w'. split; [apply Hall|].
  rewrite (runs_events h _ _ _ _ _ Hall). split; [done|].
  eapply runs_avoids; [apply isPrivateSessionActive_looks|exact Hall].
Qed.

Lemma isMenuItemWithLabel_static button labelText w :
  ∃ evs w',
    runs h (isMenuItemWithLabel button labelText) w evs
         (Returned (labelled d labelText button)) w'
    ∧ delays_in evs = 0%nat.
Proof.
  unfold isMenuItemWithLabel, labelled.
  destruct (head (matchingIn d button PS_CSS_SELECTORS.MENU_ITEM_LABEL)) as [l|] eqn:Hl.
  - eexists [_; _], _. split.
    + apply runs_do. simpl. rewrite static, Hl.
      apply runs_do. simpl. rewrite static. apply runs_ret.
    + done.
  - eexists [_], _. split.
    + apply runs_do. simpl. rewrite static, Hl. apply runs_ret.
    + done.
Qed.

Lemma searchButtons_static menuItems labelText w :
  ∃ evs w',
    runs h (searchButtons menuItems labelText) w evs
         (Returned (List.find (labelled d labelText) menuItems)) w'
    ∧ delays_in evs = 0%nat.
Proof.
  revert w. induction menuItems as [|b rest IH]; intros w.
  - exists [], w. split; [apply runs_ret|done].
  - cbn [searchButtons List.find].
    destruct (isMenuItemWithLabel_static b labelText w) as (e1 & w1 & Hb & Hd1).
    destruct (labelled d labelText b).
    + exists (e1 ++ []), w1. split; [|by rewrite app_nil_r].
      eapply runs_bind; [exact Hb|]. apply runs_ret.
    + destruct (IH w1) as (e2 & w2 & Hrest & Hd2).
      exists (e1 ++ e2), w2. split.
      * eapply runs_bind; [exact Hb|exact Hrest].
      * by rewrite delays_in_app, Hd1, Hd2.
Qed.

Lemma searchForMenuItemButton_static labelText w :
  ∃ evs w',
    runs h (searchForMenuItemButton labelText) w evs
         (Returned (menu_item_in d labelText)) w'
    ∧ delays_in evs = 0%nat.
Proof.
  unfold searchForMenuItemButton, menu_item_in.
  set (q := PS_CSS_SELECTORS.MENU_ITEM_BUTTON).
  set (w1 := resumed h (DocQuerySelectorAll q) (handle h (DocQuerySelectorAll q) w).1).
  destruct (matching d q) as [|b rest] eqn:Hq.
  - eexists [_], _. split.
    + apply runs_do. simpl. rewrite static. fold q. rewrite Hq. apply runs_ret.
    + done.
  - destruct (searchButtons_static (b :: rest) labelText w1) as (evs & w' & Hruns & Hd).
    exists (DocQuerySelectorAll q :: evs), w'. split; [|done].
    apply runs_do. simpl. rewrite static. fold q. rewrite Hq. exact Hruns.
Qed.

Lemma findMenuItemButton_loop_static n labelText w :
  ∃ evs w',
    runs h (findMenuItemButton_loop n labelText) w evs
         (Returned (match n with O => None | S _ => menu_item_in d labelText end)) w'
    ∧ delays_in evs = (match menu_item_in d labelText with Some _ => 0 | None => n end)%nat.
Proof.
  revert w. induction n as [|n IH]; intros w.
  - exists [], w. split; [apply runs_ret|]. by destruct (menu_item_in d labelText).
  - cbn [findMenuItemButton_loop].
    destruct (searchForMenuItemButton_static labelText w) as (e1 & w1 & Hs & Hd1).
    destruct (menu_item_in d labelText) as [i|] eqn:Hi.
    + exists (e1 ++ []), w1. split; [|by rewrite app_nil_r].
      eapply runs_bind; [exact Hs|]. apply runs_ret.
    + destruct (IH (resumed h (Delay PS_DELAY_MS)
                      (handle h (Delay PS_DELAY_MS) w1).1)) as (e2 & w2 & Hl & Hd2).
      exists (e1 ++ Delay PS_DELAY_MS :: e2), w2. split.
      * eapply runs_bind; [exact Hs|]. apply runs_do.
        assert (Hnone : match n with O => None | S _ => @None Elem end = None)
          by (by destruct n).
        rewrite Hnone in Hl. exact Hl.
      * rewrite delays_in_app, Hd1. unfold delays_in in *. simpl. by rewrite Hd2.
Qed.

(** On a page that does not change while the script looks, the menu-item
    search returns the first menu item button, in document order, whose
    first [span] reads exactly the label once trimmed; buttons without a
    [span] are passed over.  It returns at once when there is one, and null
    after exactly [PS_RETRY_LIMIT] delays when there is none. *)
Theorem findMenuItemButton_on_static_page labelText w :
  ∃ w', exec h (findMenuItemButton labelText) w
        = (w', Returned (menu_item_in d labelText))
        ∧ delays_in (new_events w w')
          = (match menu_item_in d labelText with Some _ => 0%nat | None => PS_RETRY_LIMIT end)
        ∧ List.filter side_effect (new_events w w') = [].
Proof.
  destruct (findMenuItemButton_loop_static PS_RETRY_LIMIT labelText w)
    as (evs & w' & Hruns & Hd).
  exists w'. split; [apply Hruns|].
  rewrite (runs_events h _ _ _ _ _ Hruns). split; [done|].
  eapply runs_avoids; [apply findMenuItemButton_looks|exact Hruns].
Qed.

End StaticPage.

Lemma isPrivateSessionActive_on_static_page_witness :
  ∃ w', exec (frozen (player_document true [])) isPrivateSessionActive initial_world
        = (w', Returned true)
        ∧ delays_in (new_events initial_world w') = 0%nat
        ∧ List.filter side_effect (new_events initial_world w') = [].
Proof.
  exact (isPrivateSessionActive_on_static_page
           (frozen (player_document true [])) (player_document true [])
           (λ _, eq_refl) initial_world).
Defined.

Lemma findMenuItemButton_on_static_page_witness :
  ∃ w', exec (frozen (player_document false [ElClick 1%nat]))
             (findMenuItemButton PS_PRIVATE_SESSION_LABEL_TEXT) initial_world
        = (w', Returned (Some 3%nat))
        ∧ delays_in (new_events initial_world w') = 0%nat
        ∧ List.filter side_effect (new_events initial_world w') = [].
Proof.
  exact (findMenuItemButton_on_static_page
           (frozen (player_document false [ElClick 1%nat]))
           (player_document false [ElClick 1%nat])
           (λ _, eq_refl) PS_PRIVATE_SESSION_LABEL_TEXT initial_world).
Defined.

(** * What a menu operation leaves alone, and what initialisation restores *)

Lemma avoids_try_catch_handler {A : Type} (P : Eff → bool) (body : Script A) handler :
  avoids P body → (∀ msg, avoids P (handler msg)) → avoids P (try_catch body handler).
Proof.
  intros Hb Hh. induction body as [a|msg|e k IH]; simpl; [done|apply Hh|].
  destruct Hb as [HP Hk]. split; [done|]. intros x. by apply IH.
Qed.

Lemma ensureMenuClosed_no_page_call : avoids is_page_call ensureMenuClosed.
Proof. unfold ensureMenuClosed. script_auto. Qed.

Lemma cleanupMenuOperation_no_page_call : avoids is_page_call cleanupMenuOperation.
Proof.
  unfold cleanupMenuOperation.
  apply avoids_bind; [apply ensureMenuClosed_no_page_call|]. intros _.
  by apply avoids_perform.
Qed.

Lemma openMainMenu_no_page_call : avoids is_page_call openMainMenu.
Proof.
  unfold openMainMenu.
  apply avoids_bind; [apply ensureMenuClosed_no_page_call|]. intros _.
  apply avoids_bind; [by apply avoids_perform|]. intros _.
  apply avoids_bind.
  { eapply avoids_weaken; [apply side_effect_page_call|apply getElement_looks]. }
  intros [[m|es]|]; script_auto.
Qed.

Lemma activatePrivateSessionMenuItem_no_page_call :
  avoids is_page_call activatePrivateSessionMenuItem.
Proof.
  unfold activatePrivateSessionMenuItem. apply avoids_bind.
  { eapply avoids_weaken; [apply side_effect_page_call|apply findMenuItemButton_looks]. }
  intros [item|]; [|done]. unfold isMenuItemSelected. script_auto.
Qed.

Lemma isPrivateSessionActive_no_page_call : avoids is_page_call isPrivateSessionActive.
Proof.
  eapply avoids_weaken; [apply side_effect_page_call|apply isPrivateSessionActive_looks].
Qed.

Lemma startPrivateSession_no_page_call forceOpen :
  avoids is_page_call (startPrivateSession forceOpen).
Proof.
  unfold startPrivateSession. apply avoids_bind.
  { eapply avoids_weaken; [apply side_effect_page_call|apply canPerformMenuOperation_looks]. }
  intros []; cbn [negb]; [|done].
  apply avoids_try_catch_handler.
  - unfold startPrivateSession_try.
    apply avoids_bind; [apply isPrivateSessionActive_no_page_call|].
    intros []; [done|]. unfold handlePrivateSessionActivation.
    destruct forceOpen; cbn [negb]; [|done].
    apply avoids_bind; [unfold prepareMenuOperation; script_auto|]. intros _.
    apply avoids_bind; [apply openMainMenu_no_page_call|]. intros _.
    apply avoids_bind; [apply activatePrivateSessionMenuItem_no_page_call|]. intros _.
    apply avoids_bind; [apply cleanupMenuOperation_no_page_call|]. by intros _.
  - intros msg. unfold startPrivateSession_catch.
    apply avoids_bind; [apply cleanupMenuOperation_no_page_call|]. by intros _.
Qed.

Section PersistentFrame.

Context (h : Host).

(** Only the calls into the store and the controller touch the store and
    the listener registries; on a quiet page, also the flag and the listener
    variable. *)
Lemma exec_no_page_call {A : Type} (p : Script A) w :
  avoids is_page_call p →
  localStorage (page (exec h p w).1) = localStorage (page w)
  ∧ windowFocusListeners (page (exec h p w).1) = windowFocusListeners (page w)
  ∧ documentVisibilityListeners (page (exec h p w).1)
    = documentVisibilityListeners (page w)
  ∧ nextClosure (page (exec h p w).1) = nextClosure (page w)
  ∧ (quiet h → persistent_state (exec h p w).1 = persistent_state w).
Proof.
  revert w. induction p as [a|msg|e k IH]; intros w Hp; simpl; [done..|].
  destruct Hp as [He Hk].
  destruct e; try discriminate He; simpl;
    match goal with |- context [exec h (k ?x) ?w1] =>
      destruct (IH x w1 (Hk x)) as (Hs & Hw & Hd & Hn & Hq) end;
    simpl in *; (repeat (split; [done|]));
    intros Hquiet; rewrite (Hq Hquiet); try done.
  unfold persistent_state, globals. simpl. by rewrite Hquiet.
Qed.

(** A call of the composite operation never touches the persistence store
    or the listener registries, with or without [forceOpen] and however it
    ends; on a quiet page it also leaves the persistent-mode flag and the
    listener variable as they were. *)
Theorem startPrivateSession_leaves_persistent_mode_alone forceOpen w :
  let w' := (exec h (startPrivateSession forceOpen) w).1 in
  localStorage (page w') = localStorage (page w)
  ∧ windowFocusListeners (page w') = windowFocusListeners (page w)
  ∧ documentVisibilityListeners (page w') = documentVisibilityListeners (page w)
  ∧ nextClosure (page w') = nextClosure (page w)
  ∧ (quiet h → persistent_state w' = persistent_state w).
Proof. apply exec_no_page_call, startPrivateSession_no_page_call. Qed.

Lemma exec_persistent {A : Type} (p : Script A) w :
  quiet h → avoids is_page_call p →
  persistent_state (exec h p w).1 = persistent_state w.
Proof. intros Hq Hp. by apply exec_no_page_call. Qed.

Lemma exec_perform e w :
  exec h (perform e) w = (resumed h e (handle h e w).1, Returned (handle h e w).2).
Proof. unfold perform. simpl. by destruct (handle h e w). Qed.

Lemma persistent_state_enable w w0 :
  persistent_state w = persistent_state w0 →
  persistent_state (update_page enablePersistentMode w)
  = persistent_state (update_page enablePersistentMode w0).
Proof.
  unfold persistent_state, globals. intros [= H1 H2 H3 H4 H5 H6].
  unfold update_page, enablePersistentMode. simpl. rewrite H2.
  destruct (focusEventListener (vars (page w0))) eqn:E0; simpl;
    by rewrite ?E0, ?H2, ?H3, ?H4, ?H5, ?H6.
Qed.

Lemma persistent_state_log e w : persistent_state (log e w) = persistent_state w.
Proof. done. Qed.

Lemma initialize_tail_no_page_call :
  avoids is_page_call
    (delay 800 ;;
     isActive <- isPrivateSessionActive ;;
     if negb isActive then startPrivateSession true ;; Ret tt else Ret tt).
Proof.
  apply avoids_bind; [by apply avoids_perform|]. intros _.
  apply avoids_bind; [apply isPrivateSessionActive_no_page_call|].
  intros []; cbn [negb]; [done|].
  apply avoids_bind; [apply startPrivateSession_no_page_call|]. by intros _.
Qed.

Lemma initialize_tail_never_throws :
  throws_within []
    (delay 800 ;;
     isActive <- isPrivateSessionActive ;;
     if negb isActive then startPrivateSession true ;; Ret tt else Ret tt).
Proof.
  apply throws_within_bind; [apply never_throws_perform|]. intros _.
  apply throws_within_bind; [apply isPrivateSessionActive_never_throws|].
  intros []; cbn [negb]; [done|].
  apply throws_within_bind; [apply startPrivateSession_never_throws|]. by intros _.
Qed.

(** On a quiet page, initialisation returns, and what it did to the
    persistent mode is to load the setting and to switch the mode on when
    the setting says so; nothing else in it touches the flag, the store or
    the listeners. *)
Lemma initializePrivateSession_persistent w :
  quiet h →
  ∃ w', exec h initializePrivateSession w = (w', Returned tt)
        ∧ persistent_state w'
          = persistent_state (update_page restorePersistentMode w).
Proof.
  intros Hq. unfold initializePrivateSession.
  rewrite exec_bind, (exec_perform CallLoadPersistentModeSetting).
  cbn [fst snd resumed handle].
  rewrite exec_bind, (exec_perform CallSetupMenuObserver).
  cbn [fst snd resumed handle].
  set (w2 := log CallSetupMenuObserver
               (log CallLoadPersistentModeSetting
                    (update_page loadPersistentModeSetting w))).
  rewrite exec_bind.
  pose proof (exec_persistent isPrivateSessionActive w2 Hq
                isPrivateSessionActive_no_page_call) as H3.
  destruct (exec_returns h isPrivateSessionActive w2 isPrivateSessionActive_never_throws)
    as (w3 & a & E3).
  rewrite E3 in *. cbn [fst] in H3.
  rewrite exec_bind, (exec_perform ReadGlobals). cbn [fst snd resumed handle].
  rewrite exec_bind.
  assert (Hflag : persistentModeEnabled (globals w3)
                  = persistentModeEnabled (vars (loadPersistentModeSetting (page w)))).
  { unfold persistent_state in H3. by injection H3. }
  set (w4 := log ReadGlobals w3).
  assert (H4 : persistent_state w4
               = persistent_state (update_page loadPersistentModeSetting w))
    by exact H3.
  assert (∃ w5, exec h (if persistentModeEnabled (globals w3)
                        then perform CallEnablePersistentMode else Ret tt) w4
                = (w5, Returned tt)
                ∧ persistent_state w5
                  = persistent_state (update_page restorePersistentMode w))
    as (w5 & E5 & H5).
  { unfold restorePersistentMode. rewrite Hflag.
    destruct (persistentModeEnabled (vars (loadPersistentModeSetting (page w)))) eqn:Hf.
    - eexists. split; [by rewrite (exec_perform CallEnablePersistentMode)|].
      cbn [fst snd resumed handle]. rewrite persistent_state_log.
      rewrite (persistent_state_enable w4 _ H4).
      unfold persistent_state, globals, update_page. cbn [page]. by rewrite !Hf.
    - exists w4. split; [done|]. rewrite H4.
      unfold persistent_state, globals, update_page. cbn [page]. by rewrite !Hf. }
  rewrite E5.
  pose proof (exec_persistent _ w5 Hq initialize_tail_no_page_call) as H6.
  destruct (exec_returns h _ w5 initialize_tail_never_throws) as (w6 & [] & E6).
  rewrite E6 in *. exists w6. split; [done|]. cbn [fst] in H6. by rewrite H6.
Qed.

(** When the script is loaded on a quiet page, initialisation returns and
    restores the persistent mode from the store: the flag is on exactly when
    the stored string is [true], the focus listener is installed exactly
    then, and the store itself is left as it was found. *)
Theorem initializePrivateSession_restores_persistent_mode
    (stored : gmap string string) w
    (Hquiet : quiet h) (Hload : page w = page_at_load stored) :
  ∃ w', exec h initializePrivateSession w = (w', Returned tt)
        ∧ persistentModeEnabled (globals w')
          = bool_decide (stored !! STORAGE_KEY = Some "true")
        ∧ focusListenerInstalled (page w')
          = bool_decide (stored !! STORAGE_KEY = Some "true")
        ∧ localStorage (page w') = stored.
Proof.
  destruct (initializePrivateSession_persistent w Hquiet) as (w' & Hex & Hps).
  exists w'. split; [done|].
  unfold persistent_state, globals in Hps. injection Hps as H1 H2 H3 H4 H5 H6.
  unfold focusListenerInstalled, globals. rewrite H1, H2, H3, H4.
  unfold update_page, restorePersistentMode. simpl. rewrite Hload. simpl.
  destruct (bool_decide (stored !! STORAGE_KEY = Some "true")) eqn:Hs; simpl.
  - split; [done|]. split; [done|].
    apply bool_decide_eq_true in Hs. by apply insert_id.
  - done.
Qed.

End PersistentFrame.

Lemma startPrivateSession_leaves_persistent_mode_alone_witness :
  persistent_state (exec (player false) (startPrivateSession true)
                         (set_clock 1000 initial_world)).1
  = persistent_state (set_clock 1000 initial_world).
Proof.
  apply (startPrivateSession_leaves_persistent_mode_alone (player false) true).
  by intros tr g.
Defined.

Lemma initializePrivateSession_restores_persistent_mode_witness :
  ∃ w', exec (player false) initializePrivateSession
             (update_page (λ _, page_at_load {[STORAGE_KEY := "true"]}) initial_world)
        = (w', Returned tt)
        ∧ persistentModeEnabled (globals w') = true
        ∧ focusListenerInstalled (page w') = true
        ∧ localStorage (page w') = {[STORAGE_KEY := "true"]}.
Proof.
  exact (initializePrivateSession_restores_persistent_mode (player false)
           {[STORAGE_KEY := "true"]}
           (update_page (λ _, page_at_load {[STORAGE_KEY := "true"]}) initial_world)
           (λ _ _, eq_refl) eq_refl).
Defined.

(** * Timers: the close re-check and the focus debounce *)

Lemma elem_of_List_filter {A : Type} (f : A → bool) (l : list A) (x : A) :
  x ∈ List.filter f l ↔ x ∈ l ∧ f x = true.
Proof. by rewrite !list_elem_of_In, List.filter_In. Qed.

Lemma List_filter_none {A : Type} (f : A → bool) (l : list A) :
  (∀ x, x ∈ l → f x = false) → List.filter f l = [].
Proof.
  intros Hl. induction l as [|a l IH]; [done|]. simpl.
  rewrite (Hl a) by constructor. apply IH. intros x Hx. apply Hl. by constructor.
Qed.

Lemma NoDup_map_filter {A B : Type} (g : A → B) (f : A → bool) (l : list A) :
  NoDup (map g l) → NoDup (map g (List.filter f l)).
Proof.
  induction l as [|a l IH]; simpl; [done|].
  intros Hnd. apply NoDup_cons in Hnd as [Ha Hl].
  destruct (f a); [|by apply IH]. simpl. apply NoDup_cons. split; [|by apply IH].
  intros Hin. apply Ha.
  apply list_elem_of_fmap in Hin as (x & -> & Hx).
  apply elem_of_List_filter in Hx as [Hx _].
  apply list_elem_of_fmap. by exists x.
Qed.

(** [tidy] reads the timers, the timer counter and the timer variable. *)
Lemma tidy_ext w1 w2 :
  timers w1 = timers w2 → nextTimer w1 = nextTimer w2 →
  menuCloseTimer (globals w1) = menuCloseTimer (globals w2) →
  tidy w1 → tidy w2.
Proof.
  unfold tidy, pending_close_checks. intros Ht Hn Hm. by rewrite Ht, Hn, Hm.
Qed.

Lemma tidy_at_most_one w :
  tidy w → (length (pending_close_checks w) ≤ 1)%nat.
Proof.
  intros (_ & Hvar & Hnd).
  apply (NoDup_map_filter fst is_close_check) in Hnd.
  fold (pending_close_checks w) in Hnd.
  destruct (menuCloseTimer (globals w)) as [t|]; [|rewrite Hvar; simpl; lia].
  destruct (pending_close_checks w) as [|x [|y l]]; simpl; [lia..|].
  exfalso. simpl in Hnd. apply NoDup_cons in Hnd as [Hx _]. apply Hx.
  assert (fst x = t) as Hx' by (apply Hvar; constructor).
  assert (fst y = t) as Hy' by (apply Hvar; do 2 constructor).
  rewrite Hx', <- Hy'. constructor.
Qed.

(** [clearTimeout(menuCloseTimer); menuCloseTimer = null]. *)
Lemma tidy_cleared w t :
  tidy w → menuCloseTimer (globals w) = Some t →
  tidy (update_vars (set_menuCloseTimer None) (remove_timer t w)).
Proof.
  intros (Hlt & Hvar & Hnd) Ht. rewrite Ht in Hvar.
  split; [|split]; simpl.
  - intros x Hx. apply elem_of_List_filter in Hx as [Hx _]. by apply Hlt.
  - unfold pending_close_checks. simpl. apply List_filter_none.
    intros x Hx. apply elem_of_List_filter in Hx as [Hx Hne].
    destruct (is_close_check x) eqn:Hc; [|done].
    assert (fst x = t) as Heq by (apply Hvar, elem_of_List_filter; done).
    apply negb_true_iff, Nat.eqb_neq in Hne. by destruct Hne.
  - by apply NoDup_map_filter.
Qed.

(** [menuCloseTimer = setTimeout(...)]. *)
Lemma tidy_scheduled w b ms :
  tidy w → menuCloseTimer (globals w) = None →
  tidy (update_vars (set_menuCloseTimer (Some (nextTimer w)))
                    (add_timer (MenuCloseCheck b) ms w)).
Proof.
  intros (Hlt & Hvar & Hnd) Hnone. rewrite Hnone in Hvar.
  split; [|split]; simpl.
  - intros x Hx. apply elem_of_app in Hx as [Hx|Hx].
    + apply Hlt in Hx. lia.
    + apply list_elem_of_singleton in Hx as ->. simpl. lia.
  - unfold pending_close_checks. simpl. intros x Hx.
    rewrite List.filter_app in Hx. fold (pending_close_checks w) in Hx.
    rewrite Hvar in Hx. simpl in Hx.
    by apply list_elem_of_singleton in Hx as ->.
  - rewrite map_app. simpl. apply NoDup_app. split; [done|]. split.
    + intros t Ht Ht'. apply list_elem_of_singleton in Ht' as ->.
      apply list_elem_of_fmap in Ht as (x & Hx1 & Hx2).
      apply Hlt in Hx2. unfold TimerId in *. lia.
    + apply NoDup_singleton.
Qed.

Lemma find_timer (l : list (TimerId * (Callback * Z))) t v :
  NoDup (map fst l) → (t, v) ∈ l →
  List.find (λ x, (fst x =? t)%nat) l = Some (t, v).
Proof.
  induction l as [|[t' v'] l IH]; intros Hnd Hin; [by apply elem_of_nil in Hin|].
  simpl in *. apply NoDup_cons in Hnd as [Hfresh Hnd].
  apply elem_of_cons in Hin as [[= <- <-]|Hin].
  - by rewrite Nat.eqb_refl.
  - destruct (t' =? t)%nat eqn:E; [|by apply IH].
    apply Nat.eqb_eq in E as ->. destruct Hfresh.
    apply list_elem_of_fmap. by exists (t, v).
Qed.

Section CloseCheck.

Context (h : Host).

Lemma ensureMenuClosed_tidy w :
  tidy w → tidy (exec h ensureMenuClosed w).1.
Proof.
  intros Hw. unfold ensureMenuClosed, readGlobals.
  rewrite exec_bind, (exec_perform h ReadGlobals). cbn [fst snd handle resumed].
  rewrite exec_bind.
  assert (∃ w1, exec h (match menuCloseTimer (globals w) with
                        | Some t => clearTimeout t ;; perform (WriteMenuCloseTimer None)
                        | None => Ret tt
                        end) (log ReadGlobals w) = (w1, Returned tt)
                ∧ tidy w1 ∧ menuCloseTimer (globals w1) = None)
    as (w1 & -> & Hw1 & Hnone).
  { destruct (menuCloseTimer (globals w)) as [t|] eqn:Ht.
    - eexists. split; [reflexivity|]. split; [|reflexivity].
      eapply tidy_ext; [..|apply (tidy_cleared w t Hw Ht)]; reflexivity.
    - eexists. split; [reflexivity|]. split; [|exact Ht].
      eapply tidy_ext; [..|exact Hw]; reflexivity. }
  simpl.
  destruct (head (matching (document h (trace w1)) PS_CSS_SELECTORS.PROFILE_DROPDOWN_MENU))
    as [openMenu|]; simpl.
  - match goal with |- context [head ?l] => destruct (head l) as [b|] end; simpl.
    + eapply tidy_ext; [..|apply (tidy_scheduled w1 b 150 Hw1 Hnone)]; reflexivity.
    + eapply tidy_ext; [..|exact Hw1]; reflexivity.
  - eapply tidy_ext; [..|exact Hw1]; reflexivity.
Qed.

(** The close of the menu keeps the timer variable and the timers in step:
    when the variable names the only pending re-check before
    [ensureMenuClosed], it does so afterwards.  So however often the menu is
    closed, at most one re-check is pending, and the variable is not null
    while one is. *)
Theorem ensureMenuClosed_keeps_one_recheck w (Hw : tidy w) :
  let w' := (exec h ensureMenuClosed w).1 in
  tidy w'
  ∧ (length (pending_close_checks w') ≤ 1)%nat
  ∧ (∀ x, x ∈ pending_close_checks w' → menuCloseTimer (globals w') = Some (fst x)).
Proof.
  intros w'. pose proof (ensureMenuClosed_tidy w Hw) as Hw'. fold w' in Hw'.
  split; [done|]. split; [by apply tidy_at_most_one|].
  intros x Hx. destruct Hw' as (_ & Hvar & _).
  destruct (menuCloseTimer (globals w')) as [t|].
  - by rewrite (Hvar x Hx).
  - rewrite Hvar in Hx. by apply elem_of_nil in Hx.
Qed.

Lemma fire_close_check (l : Loop) t b due
    (Hw : tidy (world l))
    (Hdue : (t, (MenuCloseCheck b, due)) ∈ timers (world l)) :
  let l' := fire_timer h t l in
  tidy (world l')
  ∧ pending_close_checks (world l') = []
  ∧ menuCloseTimer (globals (world l')) = None
  ∧ ∃ r, tasks l' = tasks l ++ [r] ∧ outcome r = Some (Returned Undefined).
Proof.
  intros l'. destruct Hw as (Hlt & Hvar & Hnd).
  assert (Ht : menuCloseTimer (globals (world l)) = Some t).
  { assert (Hp : (t, (MenuCloseCheck b, due)) ∈ pending_close_checks (world l))
      by (by apply elem_of_List_filter).
    destruct (menuCloseTimer (globals (world l))) as [t'|].
    - by rewrite <- (Hvar _ Hp).
    - rewrite Hvar in Hp. by apply elem_of_nil in Hp. }
  pose proof (tidy_cleared (world l) t (conj Hlt (conj Hvar Hnd)) Ht) as Hclear.
  unfold l', fire_timer. rewrite (find_timer _ t _ Hnd Hdue). simpl.
  match goal with |- context [head ?m] => destruct (head m) as [menuStillOpen|] end;
    simpl.
  all: split; [eapply tidy_ext; [..|exact Hclear]; reflexivity|].
  all: split; [by destruct Hclear as (_ & Hnone & _)|].
  all: split; [done|].
  all: eexists; split; [reflexivity|done].
Qed.

(** When the re-check fires, it runs to its end at once, leaves no re-check
    pending and the timer variable null. *)
Theorem close_check_fires_cleanly (l : Loop) t b due
    (Hw : tidy (world l))
    (Hdue : (t, (MenuCloseCheck b, due)) ∈ timers (world l)) :
  let l' := fire_timer h t l in
  tidy (world l')
  ∧ pending_close_checks (world l') = []
  ∧ menuCloseTimer (globals (world l')) = None
  ∧ ∃ r, tasks l' = tasks l ++ [r] ∧ outcome r = Some (Returned Undefined).
Proof. exact (fire_close_check l t b due Hw Hdue). Qed.

End CloseCheck.

Lemma tidy_initial : tidy initial_world.
Proof.
  split; [|split]; simpl.
  - intros x Hx. by apply elem_of_nil in Hx.
  - reflexivity.
  - constructor.
Qed.

Lemma ensureMenuClosed_keeps_one_recheck_witness :
  let w' := (exec (frozen (player_document false [ElClick 1%nat]))
                  ensureMenuClosed initial_world).1 in
  tidy w'
  ∧ (length (pending_close_checks w') ≤ 1)%nat
  ∧ (∀ x, x ∈ pending_close_checks w' → menuCloseTimer (globals w') = Some (fst x)).
Proof.
  exact (ensureMenuClosed_keeps_one_recheck
           (frozen (player_document false [ElClick 1%nat])) initial_world tidy_initial).
Defined.

Lemma close_check_fires_cleanly_witness :
  let h := frozen (player_document false [ElClick 1%nat]) in
  let l := {| world := (exec h ensureMenuClosed initial_world).1;
              tasks := []; inbox := [] |} in
  let l' := fire_timer h 1%nat l in
  tidy (world l')
  ∧ pending_close_checks (world l') = []
  ∧ menuCloseTimer (globals (world l')) = None
  ∧ ∃ r, tasks l' = tasks l ++ [r] ∧ outcome r = Some (Returned Undefined).
Proof.
  intros h l.
  apply (close_check_fires_cleanly h l 1%nat 1%nat 150).
  - apply (ensureMenuClosed_tidy h initial_world tidy_initial).
  - vm_compute. constructor.
Defined.

(** * The focus handler *)

Section FocusDebounce.

Context (h : Host).

Lemma focus_event_while_pending w :
  pendingFocusCheck (globals w) = true →
  timers (exec h focusEventListener_body w).1 = timers w
  ∧ nextTimer (exec h focusEventListener_body w).1 = nextTimer w
  ∧ clock (exec h focusEventListener_body w).1 = clock w
  ∧ page (exec h focusEventListener_body w).1 = page w.
Proof.
  intros Hp. unfold focusEventListener_body. simpl. by rewrite Hp.
Qed.

Lemma focus_events_while_pending n w :
  pendingFocusCheck (globals w) = true →
  timers (focus_events n h w) = timers w
  ∧ nextTimer (focus_events n h w) = nextTimer w
  ∧ clock (focus_events n h w) = clock w
  ∧ page (focus_events n h w) = page w.
Proof.
  revert w. induction n as [|n IH]; intros w Hp; [done|]. cbn [focus_events].
  destruct (focus_event_while_pending w Hp) as (Ht & Hn & Hc & Hpage).
  destruct (IH (exec h focusEventListener_body w).1) as (Ht' & Hn' & Hc' & Hpage').
  { unfold globals. by rewrite Hpage. }
  by rewrite Ht', Hn', Hc', Hpage'.
Qed.

(** The focus handler is debounced: however many focus events arrive in a
    row while no check is pending, exactly one check is scheduled, 500 ms
    after the first of them, and the pending flag is set; the later events
    change nothing on the page. *)
Theorem focus_events_schedule_one_check n w
    (Hidle : pendingFocusCheck (globals w) = false) :
  let w' := focus_events (S n) h w in
  timers w' = timers w ++ [(nextTimer w, (FocusCheck, clock w + 500))]
  ∧ nextTimer w' = S (nextTimer w)
  ∧ page w' = with_vars (set_pendingFocusCheck true) (page w).
Proof.
  intros w'. unfold w'. cbn [focus_events].
  set (w1 := (exec h focusEventListener_body w).1).
  assert (H1 : timers w1 = timers w ++ [(nextTimer w, (FocusCheck, clock w + 500))]
               ∧ nextTimer w1 = S (nextTimer w)
               ∧ clock w1 = clock w
               ∧ page w1 = with_vars (set_pendingFocusCheck true) (page w)).
  { unfold w1, focusEventListener_body. simpl. by rewrite Hidle. }
  destruct H1 as (Ht & Hn & Hc & Hp).
  destruct (focus_events_while_pending n w1) as (Ht' & Hn' & Hc' & Hp').
  { unfold globals. by rewrite Hp. }
  by rewrite Ht', Hn', Hp'.
Qed.

(** The delayed focus check first clears the pending flag, and then does
    nothing more when the persistent mode is off, a menu operation is in
    progress, or a menu is open: it has looked once at the page and touched
    nothing. *)
Theorem focus_check_skips w
    (Hskip : persistentModeEnabled (globals w) = false
             ∨ menuOperationInProgress (globals w) = true
             ∨ is_Some (head (matching
                           (document h (trace w ++ [WritePendingFocusCheck false]))
                           PS_CSS_SELECTORS.PROFILE_DROPDOWN_MENU))) :
  ∃ w', exec h (callback_body FocusCheck) w = (w', Returned tt)
        ∧ new_events w w'
          = [WritePendingFocusCheck false;
             DocQuerySelector PS_CSS_SELECTORS.PROFILE_DROPDOWN_MENU;
             ReadGlobals]
        ∧ page w' = with_vars (set_pendingFocusCheck false) (page w)
        ∧ timers w' = timers w.
Proof.
  simpl.
  match goal with |- context [bool_decide (is_Some ?o)] => set (openMenu := o) in * end.
  assert (Hcond : negb (persistentModeEnabled (globals w))
                  || menuOperationInProgress (globals w)
                  || bool_decide (is_Some openMenu) = true).
  { destruct Hskip as [->| [->|Hopen]]; simpl.
    - done.
    - by rewrite orb_true_r.
    - rewrite (bool_decide_eq_true_2 _ Hopen). by rewrite orb_true_r. }
  unfold globals in *. simpl. rewrite Hcond. simpl.
  eexists. split; [reflexivity|]. split; [|done].
  apply new_events_app. simpl. by rewrite <- !app_assoc.
Qed.

End FocusDebounce.

Lemma focus_events_schedule_one_check_witness :
  let w' := focus_events 3 (player false) initial_world in
  timers w' = [(1%nat, (FocusCheck, 500))]
  ∧ nextTimer w' = 2%nat
  ∧ page w' = with_vars (set_pendingFocusCheck true) initial_page.
Proof.
  exact (focus_events_schedule_one_check (player false) 2 initial_world eq_refl).
Defined.

Lemma focus_check_skips_witness :
  ∃ w', exec (player false) (callback_body FocusCheck) initial_world = (w', Returned tt)
        ∧ new_events initial_world w'
          = [WritePendingFocusCheck false;
             DocQuerySelector PS_CSS_SELECTORS.PROFILE_DROPDOWN_MENU;
             ReadGlobals]
        ∧ page w' = with_vars (set_pendingFocusCheck false) (page initial_world)
        ∧ timers w' = timers initial_world.
Proof.
  apply (focus_check_skips (player false) initial_world). left. reflexivity.
Defined.

(** * Menu-item injector: retries and the click listener *)

Module InjectorFacts.
Import Dom.

(** The routine itself never hands a retry to [setTimeout]: it calls
    [addPersistentPrivacyItem] only after [findItemByText] has found the
    label, and then [findPrivateSessionItem] finds it too. *)
Lemma ensure_keeps_retries g m :
  scheduledRetries (ensurePersistentMenuItem g m) = scheduledRetries m.
Proof.
  unfold ensurePersistentMenuItem.
  destruct (findItemByText (menuList m) PS_PRIVATE_SESSION_LABEL_TEXT)
    as [button|] eqn:Hbutton; [|done].
  destruct (querySelector (menuList m) (ById PS_PERSISTENT_ITEM_ID)); [done|].
  unfold addPersistentPrivacyItem, findPrivateSessionItem.
  unfold findItemByText in Hbutton.
  destruct (List.find _ (querySelectorAll (menuList m) (ByTag "span")))
    as [span|]; [|done].
  destruct (closest (menuList m) span (ByTag "li")) as [li|]; [|done].
  by destruct (node_at (menuList m) li).
Qed.

(** A call of [addPersistentPrivacyItem] on a list without the label. *)
Lemma add_without_label g root retries retryCount :
  List.find (λ span, String.eqb (textContent_at root span) PS_PRIVATE_SESSION_LABEL_TEXT)
            (querySelectorAll root (ByTag "span")) = None →
  addPersistentPrivacyItem g {| menuList := root; scheduledRetries := retries |} retryCount
  = ({| menuList := root;
        scheduledRetries := if (retryCount <? 10)%nat then retries ++ [S retryCount]
                            else retries |}, None).
Proof.
  intros Hnone. unfold addPersistentPrivacyItem, findPrivateSessionItem.
  cbn [menuList scheduledRetries]. rewrite Hnone.
  by destruct (retryCount <? 10)%nat.
Qed.

Lemma fireRetry_without_label g root k :
  List.find (λ span, String.eqb (textContent_at root span) PS_PRIVATE_SESSION_LABEL_TEXT)
            (querySelectorAll root (ByTag "span")) = None →
  Injector.fireRetry g
    {| menuList := root; scheduledRetries := if (k <? 10)%nat then [S k] else [] |}
  = {| menuList := root;
       scheduledRetries := if (S k <? 10)%nat then [S (S k)] else [] |}.
Proof.
  intros Hnone. unfold Injector.fireRetry. cbn [menuList scheduledRetries].
  destruct (k <? 10)%nat eqn:Hk.
  - rewrite (add_without_label g root [] (S k) Hnone). done.
  - apply Nat.ltb_ge in Hk.
    assert ((S k <? 10)%nat = false) as -> by (apply Nat.ltb_ge; lia). done.
Qed.

Lemma fire_all_without_label root gs k :
  List.find (λ span, String.eqb (textContent_at root span) PS_PRIVATE_SESSION_LABEL_TEXT)
            (querySelectorAll root (ByTag "span")) = None →
  fold_left (λ m g', Injector.fireRetry g' m) gs
    {| menuList := root; scheduledRetries := if (k <? 10)%nat then [S k] else [] |}
  = {| menuList := root;
       scheduledRetries := if (k + length gs <? 10)%nat then [S (k + length gs)]
                           else [] |}.
Proof.
  intros Hnone. revert k. induction gs as [|g' gs IH]; intros k.
  - cbn [fold_left length]. by rewrite Nat.add_0_r.
  - cbn [fold_left length]. rewrite (fireRetry_without_label g' root k Hnone), IH.
    by replace (k + S (length gs))%nat with (S k + length gs)%nat by lia.
Qed.

Lemma node_at_app root p r :
  node_at root (p ++ r) = node_at root p ≫= (λ n, node_at n r).
Proof.
  revert root. induction p as [|i p IH]; intros root; [done|].
  destruct root as [s|pr cs]; simpl; [done|].
  destruct (cs !! i) as [c|]; [apply IH|done].
Qed.

(** Updating inside a node that has just been inserted is inserting the
    updated node. *)
Lemma update_inserted root q i n new r f :
  node_at root (q ++ [i]) = Some n →
  update_at (insert_after root (q ++ [i]) new) ((q ++ [S i]) ++ r) f
  = insert_after root (q ++ [i]) (update_at new r f).
Proof.
  revert root. induction q as [|j q IH]; intros [s|pr cs] Hn; try done.
  - simpl in Hn. destruct (cs !! i) as [c|] eqn:Hi; [|done].
    apply lookup_lt_Some in Hi.
    rewrite !app_nil_l, !DomFacts.insert_after_last.
    apply Nat.ltb_lt in Hi as Hi'. rewrite Hi'. simpl. f_equal.
    rewrite alter_app_r_alt; rewrite length_take; [|lia].
    by replace (S i - S i `min` length cs)%nat with 0%nat by lia.
  - rewrite <- !app_comm_cons, !DomFacts.insert_after_cons.
    cbn [update_at app]. f_equal.
    simpl in Hn. destruct (cs !! j) as [c|] eqn:Hj; [|done].
    rewrite list_alter_alter_eq. apply list_alter_ext; [|done].
    intros c' Hc'. simpl. rewrite Hj in Hc'. injection Hc' as <-. by apply IH.
Qed.

(** Refreshing the toggle of a created item is creating the item anew. *)
Lemma refresh_created_item g g' li :
  update_at
    (update_at (createPersistentMenuItem g li) [0; 1]%nat
       (set_children (createToggleSwitch (persistentModeEnabled g'))))
    [0; 1]%nat
    (with_props (set_title (toggleTitle (persistentModeEnabled g'))))
  = createPersistentMenuItem g' li.
Proof.
  destruct g as [[] ? ? ? ? ? ?], g' as [[] ? ? ? ? ? ?], li as [s|pr cs];
    reflexivity.
Qed.

Lemma created_button_click_listeners g li :
  ∃ button, node_at (createPersistentMenuItem g li) [0%nat] = Some button
            ∧ Injector.handlersFor "click" button = [ToggleOnClick]
            ∧ Injector.handlersFor "mouseover" button = [HighlightOnHover]
            ∧ Injector.handlersFor "mouseout" button = [ClearHighlight].
Proof. eexists. split; [reflexivity|]. done. Qed.

End InjectorFacts.

(** Called from [ensurePersistentMenuItem], the injector never schedules a
    retry, whatever the menu list: the retries of [findPrivateSessionItem]
    are scheduled only when the label is missing, and then
    [ensurePersistentMenuItem] has already returned. *)
Theorem ensurePersistentMenuItem_never_schedules_retry (g : Globals) (m : Dom.Menu) :
  Dom.scheduledRetries (Dom.ensurePersistentMenuItem g m) = Dom.scheduledRetries m.
Proof. apply InjectorFacts.ensure_keeps_retries. Qed.

(** On a list that does not hold the label and does not come to hold it,
    [addPersistentPrivacyItem] called directly retries ten times and then
    stops: after [k] retries have fired, retry [k + 1] is pending if
    [k < 10], and nothing is pending from the tenth on; the list is never
    changed.  [gs] are the variables at the moments the retries fire. *)
Theorem addPersistentPrivacyItem_gives_up_after_ten_retries
    (g : Globals) (root : Dom.Node) (gs : list Globals)
    (Hnone : List.find (λ span, String.eqb (Dom.textContent_at root span)
                                           PS_PRIVATE_SESSION_LABEL_TEXT)
                       (Dom.querySelectorAll root (Dom.ByTag "span")) = None) :
  let first := Dom.addPersistentPrivacyItem g
                 {| Dom.menuList := root; Dom.scheduledRetries := [] |} 0 in
  snd first = None
  ∧ fold_left (λ m g', Injector.fireRetry g' m) gs (fst first)
    = {| Dom.menuList := root;
         Dom.scheduledRetries := if (length gs <? 10)%nat then [S (length gs)] else [] |}.
Proof.
  intros first. unfold first.
  rewrite (InjectorFacts.add_without_label g root [] 0 Hnone). cbn [fst snd].
  split; [done|].
  exact (InjectorFacts.fire_all_without_label root gs 0 Hnone).
Qed.

Lemma addPersistentPrivacyItem_gives_up_after_ten_retries_witness :
  let root := Dom.Element {| Dom.tagName := "ul"; Dom.id := EmptyString;
                             Dom.className := "main-contextMenu-menu"; Dom.style := [];
                             Dom.title := EmptyString; Dom.role := "menu";
                             Dom.listeners := [] |}
                [Dom.menuEntry "Account"; Dom.menuEntry "Settings"] in
  let first := Dom.addPersistentPrivacyItem initial_globals
                 {| Dom.menuList := root; Dom.scheduledRetries := [] |} 0 in
  snd first = None
  ∧ fold_left (λ m g', Injector.fireRetry g' m) (replicate 10 initial_globals) (fst first)
    = {| Dom.menuList := root; Dom.scheduledRetries := [] |}.
Proof.
  intros root.
  exact (addPersistentPrivacyItem_gives_up_after_ten_retries initial_globals root
           (replicate 10 initial_globals) eq_refl).
Defined.

(** A click on the button of the injected item toggles the persistent mode
    once and leaves the menu exactly as the injector would have built it
    under the new flag: the toggle on display follows the flag.  (The
    button carries exactly one click listener.) *)
Theorem click_keeps_toggle_in_sync
    (p : Page) (m : Dom.Menu) (button q : Dom.Path) (i : nat)
    (Hcount : Dom.persistentItemCount m = 0%nat)
    (Hbutton : Dom.findItemByText (Dom.menuList m) PS_PRIVATE_SESSION_LABEL_TEXT
               = Some button)
    (Hli : (Dom.findPrivateSessionItem m 0).2 = Some (q ++ [i])) :
  let shown := λ p : Page, Dom.menuList (Dom.ensurePersistentMenuItem (vars p) m) in
  Injector.dispatchEvent "click" (q ++ [S i; 0%nat]) (p, shown p)
  = (togglePersistentMode p, shown (togglePersistentMode p)).
Proof.
  intros shown. unfold shown.
  destruct (DomFacts.ensure_inserts (vars p) m button q i Hcount Hbutton Hli)
    as (n & Hn & ->).
  destruct (DomFacts.ensure_inserts (vars (togglePersistentMode p)) m button q i
              Hcount Hbutton Hli) as (n' & Hn' & ->).
  rewrite Hn in Hn'. injection Hn' as <-.
  cbn [Dom.menuList].
  destruct (InjectorFacts.created_button_click_listeners (vars p) n)
    as (b & Hb & Hclick & _).
  unfold Injector.dispatchEvent. cbn [snd].
  replace (q ++ [S i; 0%nat]) with ((q ++ [S i]) ++ [0%nat]) by (by rewrite <- app_assoc).
  rewrite InjectorFacts.node_at_app.
  rewrite (DomFacts.node_at_insert_after _ q i n _ Hn). cbn [mbind option_bind].
  rewrite Hb, Hclick. cbn [fold_left Injector.runHandler]. f_equal.
  replace (((q ++ [S i]) ++ [0%nat]) ++ [1%nat]) with ((q ++ [S i]) ++ [0; 1]%nat)
    by (by rewrite <- !app_assoc).
  rewrite (InjectorFacts.update_inserted _ q i n _ _ _ Hn).
  rewrite (InjectorFacts.update_inserted _ q i n _ _ _ Hn).
  by rewrite InjectorFacts.refresh_created_item.
Qed.

Lemma click_keeps_toggle_in_sync_witness :
  let shown := λ p : Page,
    Dom.menuList (Dom.ensurePersistentMenuItem (vars p) Dom.sampleMenu) in
  Injector.dispatchEvent "click" [2; 0]%nat (initial_page, shown initial_page)
  = (togglePersistentMode initial_page, shown (togglePersistentMode initial_page)).
Proof.
  exact (click_keeps_toggle_in_sync initial_page Dom.sampleMenu [1; 0]%nat [] 1%nat
           eq_refl eq_refl eq_refl).
Defined.

(** * Mutation observer *)

Module ObserverFacts.
Import Dom.

(** Induction on trees, with the hypothesis for every child. *)
Lemma Node_forall_ind (P : Node → Prop) :
  (∀ s, P (Text s)) →
  (∀ pr cs, Forall P cs → P (Element pr cs)) →
  ∀ n, P n.
Proof.
  intros Htext Hel. fix IH 1. intros [s|pr cs]; [apply Htext|].
  apply Hel. induction cs as [|c cs IHcs]; constructor; [apply IH|apply IHcs].
Qed.

Lemma children_from_node_at k cs p m :
  Forall (λ c, ∀ p m, (p, m) ∈ descendants c → node_at c p = Some m) cs →
  (p, m) ∈ children_from k cs →
  ∃ j p', p = (k + j)%nat :: p'
          ∧ match cs !! j with Some c => node_at c p' = Some m | None => False end.
Proof.
  revert k. induction cs as [|c cs IH]; intros k Hall Hin; simpl in Hin.
  - by apply elem_of_nil in Hin.
  - apply Forall_cons in Hall as [Hc Hall].
    apply elem_of_cons in Hin as [[= -> ->]|Hin].
    { exists 0%nat, []. by rewrite Nat.add_0_r. }
    apply elem_of_app in Hin as [Hin|Hin].
    + apply list_elem_of_fmap in Hin as ([p' m'] & [= -> ->] & Hd).
      exists 0%nat, p'. rewrite Nat.add_0_r. split; [done|]. by apply Hc.
    + destruct (IH (S k) Hall Hin) as (j & p' & -> & Hj).
      exists (S j), p'. split; [f_equal; lia|done].
Qed.

(** Every entry of [descendants] sits at its path. *)
Lemma descendants_node_at n :
  ∀ p m, (p, m) ∈ descendants n → node_at n p = Some m.
Proof.
  induction n as [s|pr cs IH] using Node_forall_ind; intros p m Hin.
  - by apply elem_of_nil in Hin.
  - rewrite DomFacts.descendants_element in Hin.
    destruct (children_from_node_at 0 cs p m IH Hin) as (j & p' & -> & Hj).
    simpl. by destruct (cs !! j).
Qed.

Lemma find_none_iff {A : Type} (f : A → bool) (l : list A) :
  List.find f l = None ↔ ∀ x, x ∈ l → f x = false.
Proof.
  split.
  - intros H x Hx. apply list_elem_of_In in Hx. by apply (List.find_none f l H).
  - intros H. induction l as [|a l IH]; [done|]. simpl.
    rewrite (H a) by constructor. apply IH. intros x Hx. apply H. by constructor.
Qed.

Lemma find_some_elem {A : Type} (f : A → bool) (l : list A) (x : A) :
  List.find f l = Some x → x ∈ l ∧ f x = true.
Proof. intros H. apply List.find_some in H as [Hin Hf]. by rewrite list_elem_of_In. Qed.

Lemma isMenuNode_selectors (c : Observer.Compound) n :
  c ∈ Observer.selectors → Observer.matches c n = true → Observer.isMenuNode n = true.
Proof.
  intros Hc Hm. unfold Observer.isMenuNode. apply existsb_exists.
  exists c. by rewrite <- list_elem_of_In.
Qed.

(** What the loop of [findMenuInNode] returns over any selectors. *)
Lemma findMenuInNode_loop_spec (cs : list Observer.Compound) node :
  match Observer.findMenuInNode_loop cs node with
  | Some (p, m) =>
      node_at node p = Some m ∧ ∃ c, c ∈ cs ∧ Observer.matches c m = true
  | None =>
      ∀ c, c ∈ cs →
        Observer.matches c node = false
        ∧ ∀ d, d ∈ descendants node → Observer.matches c (snd d) = false
  end.
Proof.
  induction cs as [|c cs IH]; simpl.
  - intros c Hc. by apply elem_of_nil in Hc.
  - destruct (Observer.matches c node) eqn:Hnode.
    + split; [done|]. exists c. split; [constructor|done].
    + unfold Observer.querySelector.
      destruct (List.find _ (descendants node)) as [[p m]|] eqn:Hfind.
      * apply find_some_elem in Hfind as [Hin Hm]. split.
        -- by apply descendants_node_at.
        -- exists c. split; [constructor|done].
      * destruct (Observer.findMenuInNode_loop cs node) as [[p m]|].
        -- destruct IH as (Hat & c' & Hc' & Hm). split; [done|].
           exists c'. split; [by constructor|done].
        -- intros c' Hc'. apply elem_of_cons in Hc' as [->|Hc']; [|by apply IH].
           split; [done|]. by apply find_none_iff.
Qed.

Lemma findMenuInNode_spec (node : Dom.Node) :
  match Observer.findMenuInNode node with
  | Some (p, m) => Dom.node_at node p = Some m ∧ Observer.isMenuNode m = true
  | None =>
      Observer.isMenuNode node = false
      ∧ ∀ d, d ∈ Dom.descendants node → Observer.isMenuNode (snd d) = false
  end.
Proof.
  unfold Observer.findMenuInNode.
  pose proof (findMenuInNode_loop_spec Observer.selectors node) as H.
  destruct (Observer.findMenuInNode_loop Observer.selectors node) as [[p m]|].
  - destruct H as (Hat & c & Hc & Hm). split; [done|].
    by apply (isMenuNode_selectors c).
  - assert (Hnot : ∀ n, (∀ c, c ∈ Observer.selectors → Observer.matches c n = false) →
                        Observer.isMenuNode n = false).
    { intros n Hn. unfold Observer.isMenuNode.
      apply not_true_is_false. intros Hex. apply existsb_exists in Hex as (c & Hc & Hm).
      apply list_elem_of_In in Hc. by rewrite (Hn c Hc) in Hm. }
    split.
    + apply Hnot. intros c Hc. by apply H.
    + intros d Hd. apply Hnot. intros c Hc. by apply (H c Hc).
Qed.


End ObserverFacts.

(** The three selectors of the model are those of the constant, in its
    order: written out and joined by a comma and a space they give
    [PROFILE_DROPDOWN_MENU]. *)
Lemma selectors_of_the_constant :
  String.concat ", " (map Observer.render Observer.selectors)
  = PS_CSS_SELECTORS.PROFILE_DROPDOWN_MENU.
Proof. reflexivity. Qed.

(** [findMenuInNode] is sound and complete for menu nodes: what it returns
    is the node itself or one of its descendants, and is a menu node; it
    returns null only when neither the node nor any descendant is a menu
    node. *)
Theorem findMenuInNode_finds_exactly_menus (node : Dom.Node) :
  match Observer.findMenuInNode node with
  | Some (p, m) => Dom.node_at node p = Some m ∧ Observer.isMenuNode m = true
  | None =>
      Observer.isMenuNode node = false
      ∧ ∀ d, d ∈ Dom.descendants node → Observer.isMenuNode (snd d) = false
  end.
Proof. apply ObserverFacts.findMenuInNode_spec. Qed.

Module BatchFacts.
Import Observer.

Lemma third_implies_second n :
  matches {| tag := Some "ul"; class := None; roleAttr := Some "menu" |} n = true →
  matches {| tag := None; class := None; roleAttr := Some "menu" |} n = true.
Proof.
  destruct n as [s|pr cs]; simpl; [done|].
  rewrite andb_true_r. intros H. by apply andb_true_iff in H as [_ H].
Qed.

(** With the flag set, the analysis looks at removed nodes only. *)
Lemma analyze_present g ms :
  menuItemAdded g = true →
  analyzeMutations g ms
  = {| menuAppeared := false;
       menuDisappeared := existsb (λ mu, processRemovedNodes (removedNodes mu)) ms;
       detectedMenuList := None |}.
Proof.
  intros Hflag. unfold analyzeMutations.
  induction ms as [|mu ms IH]; simpl; [done|]. rewrite Hflag. simpl.
  destruct (processRemovedNodes (removedNodes mu)); [done|]. by rewrite IH.
Qed.

(** With the flag clear, it looks at added nodes only, and stops at the
    first mutation that brings a menu. *)
Lemma analyze_absent g ms :
  menuItemAdded g = false →
  analyzeMutations g ms
  = match List.find (λ mu, appeared (processAddedNodes (addedNodes mu))) ms with
    | Some mu => {| menuAppeared := true; menuDisappeared := false;
                    detectedMenuList := menuList (processAddedNodes (addedNodes mu)) |}
    | None => {| menuAppeared := false; menuDisappeared := false;
                 detectedMenuList := None |}
    end.
Proof.
  intros Hflag. unfold analyzeMutations.
  induction ms as [|mu ms IH]; simpl; [done|]. rewrite Hflag. simpl.
  by destruct (appeared (processAddedNodes (addedNodes mu))).
Qed.

Lemma processAddedNodes_spec nodes :
  match menuList (processAddedNodes nodes) with
  | Some menu =>
      appeared (processAddedNodes nodes) = true
      ∧ ∃ node p, node ∈ nodes ∧ findMenuInNode node = Some (p, menu)
  | None => appeared (processAddedNodes nodes) = false
  end.
Proof.
  induction nodes as [|node nodes IH]; simpl; [done|].
  destruct (isElement node).
  - destruct (findMenuInNode node) as [[p menu]|] eqn:Hfind; simpl.
    + split; [done|]. exists node, p. split; [constructor|done].
    + destruct (menuList (processAddedNodes nodes)); [|done].
      destruct IH as (Ha & node' & p' & Hin & Hf). split; [done|].
      exists node', p'. split; [by constructor|done].
  - destruct (menuList (processAddedNodes nodes)); [|done].
    destruct IH as (Ha & node' & p' & Hin & Hf). split; [done|].
    exists node', p'. split; [by constructor|done].
Qed.

Lemma set_menuItemAdded_same g : set_menuItemAdded (menuItemAdded g) g = g.
Proof. by destruct g. Qed.

End BatchFacts.

(** The third selector of [PROFILE_DROPDOWN_MENU] never decides: every
    element it matches is matched by the second, so both [findMenuInNode]
    and [isMenuNode] answer the same with the first two selectors alone. *)
Theorem third_selector_is_redundant (node : Dom.Node) :
  Observer.findMenuInNode node
  = Observer.findMenuInNode_loop (take 2 Observer.selectors) node
  ∧ Observer.isMenuNode node
    = existsb (λ selector, Observer.matches selector node) (take 2 Observer.selectors).
Proof.
  unfold Observer.findMenuInNode, Observer.isMenuNode, Observer.selectors.
  cbn [take Observer.findMenuInNode_loop existsb].
  set (c1 := {| Observer.tag := Some "ul"; Observer.class := Some "main-contextMenu-menu";
                Observer.roleAttr := None |}).
  set (c2 := {| Observer.tag := None; Observer.class := None;
                Observer.roleAttr := Some "menu" |}).
  set (c3 := {| Observer.tag := Some "ul"; Observer.class := None;
                Observer.roleAttr := Some "menu" |}).
  split.
  - destruct (Observer.matches c1 node); [done|].
    destruct (Observer.querySelector node c1); [done|].
    destruct (Observer.matches c2 node) eqn:H2; [done|].
    destruct (Observer.querySelector node c2) eqn:Hq2; [done|].
    destruct (Observer.matches c3 node) eqn:H3.
    { apply BatchFacts.third_implies_second in H3. fold c2 in H3. congruence. }
    destruct (Observer.querySelector node c3) as [[p m]|] eqn:Hq3; [|done].
    unfold Observer.querySelector in *.
    apply ObserverFacts.find_some_elem in Hq3 as [Hin Hm].
    apply BatchFacts.third_implies_second in Hm.
    pose proof (proj1 (ObserverFacts.find_none_iff _ _) Hq2 _ Hin) as Hno.
    simpl in *. fold c2 in Hm. congruence.
  - destruct (Observer.matches c1 node); [done|].
    destruct (Observer.matches c2 node) eqn:H2; [done|].
    destruct (Observer.matches c3 node) eqn:H3; [|done].
    apply BatchFacts.third_implies_second in H3. fold c2 in H3. congruence.
Qed.

(** While the injected item is marked present, a batch of mutations never
    injects anything, whatever is added, a profile menu included: only the
    removed nodes are looked at.  The mark is cleared exactly when some
    removed element is a menu node or holds the item, and no other variable
    changes. *)
Theorem batch_while_item_present
    (now : Z) (g : Globals) (mutations : list Observer.MutationRecord)
    (Hpresent : menuItemAdded g = true) :
  Observer.handleMutations now g mutations
  = {| Observer.vars :=
         set_menuItemAdded
           (negb (existsb (λ mu, Observer.processRemovedNodes (Observer.removedNodes mu))
                          mutations)) g;
       Observer.handled := None |}.
Proof.
  unfold Observer.handleMutations. rewrite (BatchFacts.analyze_present g _ Hpresent).
  unfold Observer.handleMenuStateChanges. cbn.
  destruct (existsb _ mutations); cbn; [done|].
  by rewrite <- Hpresent, BatchFacts.set_menuItemAdded_same.
Qed.

Lemma batch_absent_cases
    (now : Z) (g : Globals) (mutations : list Observer.MutationRecord)
    (Habsent : menuItemAdded g = false) :
  let s := Observer.handleMutations now g mutations in
  (Observer.vars s = g ∧ Observer.handled s = None)
  ∨ (∃ mu node p menu,
       mu ∈ mutations ∧ node ∈ Observer.addedNodes mu
       ∧ Dom.node_at node p = Some menu
       ∧ Observer.isMenuNode menu = true
       ∧ Observer.isProfileMenu menu = true
       ∧ Observer.handled s
         = Some (Dom.ensurePersistentMenuItem g
                   {| Dom.menuList := menu; Dom.scheduledRetries := [] |})
       ∧ Observer.vars s = set_lastMenuOperationTime now (set_menuItemAdded true g)).
Proof.
  intros s. unfold s, Observer.handleMutations.
  rewrite (BatchFacts.analyze_absent g _ Habsent).
  destruct (List.find _ mutations) as [mu|] eqn:Hfind; [|by left].
  apply ObserverFacts.find_some_elem in Hfind as [Hmu Happeared].
  unfold Observer.handleMenuStateChanges. cbn. rewrite Habsent. cbn.
  pose proof (BatchFacts.processAddedNodes_spec (Observer.addedNodes mu)) as Hspec.
  destruct (Observer.menuList (Observer.processAddedNodes (Observer.addedNodes mu)))
    as [menu|]; [|by left].
  destruct Hspec as (_ & node & p & Hnode & Hfound).
  unfold Observer.handleMenuAppearance.
  destruct (Observer.isProfileMenu menu) eqn:Hprofile; cbn; [|by left].
  destruct (List.find _ (Dom.querySelectorAll menu (Dom.ByTag "span"))); [|by left].
  right. exists mu, node, p, menu.
  pose proof (ObserverFacts.findMenuInNode_spec node) as Hmenu.
  rewrite Hfound in Hmenu. destruct Hmenu as [Hat Hismenu].
  done.
Qed.


Lemma find_first_after {A : Type} (f : A → bool) (pre post : list A) (x : A) :
  (∀ y, y ∈ pre → f y = false) → f x = true →
  List.find f (pre ++ x :: post) = Some x.
Proof.
  intros Hpre Hx. induction pre as [|y pre IH]; simpl; [by rewrite Hx|].
  rewrite (Hpre y) by constructor. apply IH. intros z Hz. apply Hpre. by constructor.
Qed.

(** With the item not marked present, the first mutation of a batch that
    brings a menu decides: the batch is handled as that mutation alone
    would be.  So a context menu reported first hides a profile menu
    reported after it in the same batch. *)
Theorem first_menu_in_batch_decides
    (now : Z) (g : Globals) (pre post : list Observer.MutationRecord)
    (mu : Observer.MutationRecord)
    (Habsent : menuItemAdded g = false)
    (Hpre : ∀ x, x ∈ pre →
              Observer.appeared (Observer.processAddedNodes (Observer.addedNodes x))
              = false)
    (Hmu : Observer.appeared (Observer.processAddedNodes (Observer.addedNodes mu))
           = true) :
  Observer.handleMutations now g (pre ++ mu :: post)
  = Observer.handleMutations now g [mu].
Proof.
  unfold Observer.handleMutations.
  rewrite !(BatchFacts.analyze_absent g _ Habsent).
  rewrite (find_first_after _ pre post mu Hpre Hmu).
  by rewrite (find_first_after _ [] [] mu) by (done || set_solver).
Qed.

Section Cooldown.

Context (h : Host).

(** The observer stamps the variable the cooldown reads: once a batch has
    handled a profile menu at time [now], a call of the composite operation
    made less than [MENU_OPERATION_COOLDOWN] ms later returns false without
    touching the DOM or the page. *)
Theorem menu_appearance_starts_cooldown
    (now : Z) (g : Globals) (mutations : list Observer.MutationRecord)
    (forceOpen : bool) (w : World)
    (Habsent : menuItemAdded g = false)
    (Hhandled : is_Some (Observer.handled (Observer.handleMutations now g mutations)))
    (Hvars : globals w = Observer.vars (Observer.handleMutations now g mutations))
    (Hsoon : clock w - now < MENU_OPERATION_COOLDOWN) :
  ∃ w', exec h (startPrivateSession forceOpen) w = (w', Returned false)
        ∧ dom_interactions (new_events w w') = []
        ∧ page w' = page w ∧ timers w' = timers w.
Proof.
  destruct (batch_absent_cases now g mutations Habsent)
    as [[_ Hnone]|(mu & node & p & menu & _ & _ & _ & _ & _ & _ & Hg)].
  { rewrite Hnone in Hhandled. by destruct Hhandled. }
  rewrite Hg in Hvars.
  destruct (canPerformMenuOperation_spec h w) as (w' & Hex & Hdom & Hpage & Htimers & _).
  exists w'. split; [|done].
  unfold startPrivateSession. rewrite exec_bind, Hex, Hvars. cbn.
  apply Z.ltb_lt in Hsoon. rewrite Hsoon. by rewrite andb_false_r.
Qed.

End Cooldown.

Lemma batch_while_item_present_witness :
  Observer.handleMutations 1000 (set_menuItemAdded true initial_globals)
    (menuCloses (Dom.menuList (Dom.ensurePersistentMenuItem initial_globals Dom.sampleMenu)) ++ menuOpens)
  = {| Observer.vars := initial_globals; Observer.handled := None |}.
Proof.
  exact (batch_while_item_present 1000 (set_menuItemAdded true initial_globals)
           (menuCloses (Dom.menuList (Dom.ensurePersistentMenuItem initial_globals Dom.sampleMenu)) ++ menuOpens) eq_refl).
Defined.


Lemma first_menu_in_batch_decides_witness :
  Observer.handleMutations 1000 initial_globals
    (menuCloses (Dom.menuList (Dom.ensurePersistentMenuItem initial_globals Dom.sampleMenu)) ++ menuOpens ++ menuOpens)
  = Observer.handleMutations 1000 initial_globals menuOpens.
Proof.
  apply (first_menu_in_batch_decides 1000 initial_globals
           (menuCloses (Dom.menuList (Dom.ensurePersistentMenuItem initial_globals Dom.sampleMenu))) menuOpens
           (hd {| Observer.addedNodes := []; Observer.removedNodes := [] |} menuOpens)
           eq_refl).
  - intros x Hx. apply list_elem_of_singleton in Hx as ->. reflexivity.
  - reflexivity.
Defined.

Lemma menu_appearance_starts_cooldown_witness :
  let s := Observer.handleMutations 1000 initial_globals menuOpens in
  let w := update_vars (λ _, Observer.vars s) (set_clock 1200 initial_world) in
  ∃ w', exec (player false) (startPrivateSession true) w = (w', Returned false)
        ∧ dom_interactions (new_events w w') = []
        ∧ page w' = page w ∧ timers w' = timers w.
Proof.
  intros s w.
  apply (menu_appearance_starts_cooldown (player false) 1000 initial_globals menuOpens
           true w eq_refl).
  - by eexists.
  - reflexivity.
  - vm_compute. reflexivity.
Defined.

(** * What a call uses up: clicks, timers, sleep *)


Lemma usage_wp_bind {A B : Type} (m : Script A) (f : A → Script B) u Qr Qt :
  usage_wp m u (λ a u', usage_wp (f a) u' Qr Qt) Qt → usage_wp (bind m f) u Qr Qt.
Proof.
  revert u. induction m as [a|msg|e k IH]; intros u; simpl; [done..|].
  intros H x. apply IH, H.
Qed.

Lemma usage_wp_try_catch {A : Type} (body : Script A) handler u Qr Qt :
  usage_wp body u Qr (λ u', ∀ msg, usage_wp (handler msg) u' Qr Qt) →
  usage_wp (try_catch body handler) u Qr Qt.
Proof.
  revert u. induction body as [a|msg|e k IH]; intros u; simpl; [done| |].
  - intros H. apply H.
  - intros H x. apply IH, H.
Qed.

Lemma usage_wp_perform e u (Qr : Resp e → Usage → Prop) Qt :
  (∀ x, Qr x (use u e)) → usage_wp (perform e) u Qr Qt.
Proof. intros H x. apply H. Qed.

Lemma at_most_refl u : at_most 0 0 0 u u.
Proof. unfold at_most. lia. Qed.

Lemma at_most_trans c1 t1 d1 c2 t2 d2 u1 u2 u3 :
  at_most c1 t1 d1 u1 u2 → at_most c2 t2 d2 u2 u3 →
  at_most (c1 + c2) (t1 + t2) (d1 + d2) u1 u3.
Proof. unfold at_most. lia. Qed.

Lemma at_most_weaken c t d c' t' d' u u' :
  at_most c t d u u' → (c ≤ c')%nat → (t ≤ t')%nat → d ≤ d' → at_most c' t' d' u u'.
Proof. unfold at_most. lia. Qed.

Section UsageSoundness.

Context (h : Host).

Lemma usage_wp_sound {A : Type} (p : Script A) u Qr Qt w :
  usage_wp p u Qr Qt →
  match (exec h p w).2 with
  | Returned a => Qr a (fold_left use (new_events w (exec h p w).1) u)
  | Thrown _ => Qt (fold_left use (new_events w (exec h p w).1) u)
  end.
Proof.
  revert u w. induction p as [a|msg|e k IH]; intros u w Hp.
  - simpl. unfold new_events. by rewrite drop_all.
  - simpl. unfold new_events. by rewrite drop_all.
  - simpl. destruct (handle h e w) as [w1 x] eqn:Hh.
    specialize (IH x (use u e) (resumed h e w1) (Hp x)).
    destruct (exec_trace h (k x) (resumed h e w1)) as (evs & Hevs).
    assert (Ht1 : trace (resumed h e w1) = trace w ++ [e]).
    { rewrite resumed_trace. pose proof (handle_trace h e w) as Ht.
      by rewrite Hh in Ht. }
    rewrite (new_events_app _ _ evs Hevs) in IH.
    rewrite (new_events_app w _ (e :: evs)); [exact IH|].
    rewrite Hevs, Ht1. by rewrite <- app_assoc.
Qed.

End UsageSoundness.

Ltac usage_arith :=
  unfold at_most, PS_DELAY_MS, PS_INDICATOR_RETRIES, PS_RETRY_LIMIT in *;
  cbn [clicksMade timersSet slept use] in *; lia.

(** A script without clicks, timers and delays uses nothing. *)
Lemma usage_wp_free {A : Type} (p : Script A) u (Qr : A → Usage → Prop) Qt :
  avoids costs p → throws_within [] p → (∀ a, Qr a u) → usage_wp p u Qr Qt.
Proof.
  intros Hp Ht HQ. induction p as [a|msg|e k IH]; simpl.
  - apply HQ.
  - by apply elem_of_nil in Ht.
  - destruct Hp as [He Hk]. intros x.
    assert (use u e = u) as -> by (by destruct e).
    apply IH; [apply Hk|apply Ht].
Qed.

Lemma searchForPrivateSessionIndicator_free : avoids costs searchForPrivateSessionIndicator.
Proof.
  unfold searchForPrivateSessionIndicator.
  apply avoids_bind; [by apply avoids_perform|]. intros [c|]; [|done].
  unfold findPrivateSessionButtonInContainer.
  apply avoids_bind; [by apply avoids_perform|]. intros buttons.
  induction buttons as [|b rest IH]; cbn [findPrivateSessionButtonIn]; [done|].
  apply avoids_bind; [by apply avoids_perform|]. intros text.
  by destruct (includes text PS_PRIVATE_SESSION_LABEL_TEXT).
Qed.

Lemma searchForMenuItemButton_free labelText :
  avoids costs (searchForMenuItemButton labelText).
Proof.
  unfold searchForMenuItemButton.
  apply avoids_bind; [by apply avoids_perform|]. intros menuItems.
  destruct (length menuItems =? 0)%nat; [done|].
  induction menuItems as [|b rest IH]; cbn [searchButtons]; [done|].
  apply avoids_bind; [unfold isMenuItemWithLabel; script_auto|].
  by intros [].
Qed.

Lemma getElement_loop_usage n selector multiple u
    (Qr : option Found → Usage → Prop) Qt :
  (∀ r u', at_most 0 0 (match r with
                        | Some _ => Z.of_nat n * PS_DELAY_MS - PS_DELAY_MS
                        | None => Z.of_nat n * PS_DELAY_MS
                        end) u u' → Qr r u') →
  usage_wp (getElement_loop n selector multiple) u Qr Qt.
Proof.
  revert u. induction n as [|n IH]; intros u HQ.
  - simpl. apply HQ. usage_arith.
  - cbn [getElement_loop]. destruct multiple; simpl; intros x.
    + destruct (0 <? length x)%nat; simpl.
      * apply HQ. usage_arith.
      * intros []. apply IH. intros r u' Hu. apply HQ.
        destruct r; usage_arith.
    + destruct x as [el|]; simpl.
      * apply HQ. usage_arith.
      * intros []. apply IH. intros r u' Hu. apply HQ.
        destruct r; usage_arith.
Qed.

Lemma findPrivateSessionIndicator_loop_usage n u
    (Qr : option Elem → Usage → Prop) Qt :
  (∀ r u', at_most 0 0 (Z.of_nat n * PS_DELAY_MS) u u' → Qr r u') →
  usage_wp (findPrivateSessionIndicator_loop n) u Qr Qt.
Proof.
  revert u. induction n as [|n IH]; intros u HQ.
  - simpl. apply HQ. usage_arith.
  - cbn [findPrivateSessionIndicator_loop]. apply usage_wp_bind.
    apply usage_wp_free;
      [apply searchForPrivateSessionIndicator_free
      |apply searchForPrivateSessionIndicator_never_throws|].
    intros [i|]; simpl.
    + apply HQ. usage_arith.
    + intros []. apply IH. intros r u' Hu. apply HQ. usage_arith.
Qed.

Lemma isPrivateSessionActive_usage u (Qr : bool → Usage → Prop) Qt :
  (∀ r u', at_most 0 0 200 u u' → Qr r u') →
  usage_wp isPrivateSessionActive u Qr Qt.
Proof.
  intros HQ. unfold isPrivateSessionActive, findPrivateSessionIndicator.
  apply usage_wp_bind. apply findPrivateSessionIndicator_loop_usage.
  intros r u' Hu. simpl. apply HQ. usage_arith.
Qed.

Lemma findMenuItemButton_loop_usage n labelText u
    (Qr : option Elem → Usage → Prop) Qt :
  (∀ r u', at_most 0 0 (match r with
                        | Some _ => Z.of_nat n * PS_DELAY_MS - PS_DELAY_MS
                        | None => Z.of_nat n * PS_DELAY_MS
                        end) u u' → Qr r u') →
  usage_wp (findMenuItemButton_loop n labelText) u Qr Qt.
Proof.
  revert u. induction n as [|n IH]; intros u HQ.
  - simpl. apply HQ. usage_arith.
  - cbn [findMenuItemButton_loop]. apply usage_wp_bind.
    apply usage_wp_free;
      [apply searchForMenuItemButton_free
      |apply searchForMenuItemButton_quiet|].
    intros [i|]; simpl.
    + apply HQ. usage_arith.
    + intros []. apply IH. intros r u' Hu. apply HQ. destruct r; usage_arith.
Qed.

Lemma ensureMenuClosed_usage u (Qr : unit → Usage → Prop) Qt :
  (∀ u', at_most 1 1 0 u u' → Qr tt u') → usage_wp ensureMenuClosed u Qr Qt.
Proof.
  intros HQ. unfold ensureMenuClosed. simpl. intros g.
  destruct (menuCloseTimer g) as [t|]; simpl.
  - intros [] [] [openMenu|]; simpl; [|apply HQ; usage_arith].
    intros [b|]; simpl; [|apply HQ; usage_arith].
    intros [] t' []. apply HQ. usage_arith.
  - intros [openMenu|]; simpl; [|apply HQ; usage_arith].
    intros [b|]; simpl; [|apply HQ; usage_arith].
    intros [] t' []. apply HQ. usage_arith.
Qed.

Lemma cleanupMenuOperation_usage u (Qr : unit → Usage → Prop) Qt :
  (∀ u', at_most 1 1 0 u u' → Qr tt u') → usage_wp cleanupMenuOperation u Qr Qt.
Proof.
  intros HQ. unfold cleanupMenuOperation. apply usage_wp_bind.
  apply ensureMenuClosed_usage. intros u' Hu.
  apply (usage_wp_perform (WriteMenuOperationInProgress false)). intros []. by apply HQ.
Qed.

Lemma openMainMenu_usage u (Qr : Elem → Usage → Prop) (Qt : Usage → Prop) :
  (∀ m u', at_most 2 1 550 u u' → Qr m u') →
  (∀ u', at_most 1 1 450 u u' → Qt u') →
  usage_wp openMainMenu u Qr Qt.
Proof.
  intros HQr HQt. unfold openMainMenu. apply usage_wp_bind.
  apply ensureMenuClosed_usage. intros u1 H1.
  apply usage_wp_bind. apply (usage_wp_perform (Delay 150)). intros [].
  apply usage_wp_bind. unfold getElement. apply getElement_loop_usage.
  intros r u2 H2. destruct r as [[m|es]|]; simpl.
  - intros [] []. apply HQr. usage_arith.
  - apply HQt. usage_arith.
  - apply HQt. usage_arith.
Qed.

Lemma activatePrivateSessionMenuItem_usage u (Qr : bool → Usage → Prop)
    (Qt : Usage → Prop) :
  (∀ r u', at_most 1 0 300 u u' → Qr r u') →
  (∀ u', at_most 0 0 300 u u' → Qt u') →
  usage_wp activatePrivateSessionMenuItem u Qr Qt.
Proof.
  intros HQr HQt. unfold activatePrivateSessionMenuItem. apply usage_wp_bind.
  unfold findMenuItemButton. apply findMenuItemButton_loop_usage.
  intros r u1 H1. destruct r as [item|]; simpl.
  - intros marker. destruct (bool_decide (is_Some marker)); simpl.
    + apply HQr. usage_arith.
    + intros [] []. apply HQr. usage_arith.
  - apply HQt. usage_arith.
Qed.

Lemma startPrivateSession_usage forceOpen u :
  usage_wp (startPrivateSession forceOpen) u
           (λ _ u', at_most 4 2 1050 u u') (λ _, False).
Proof.
  unfold startPrivateSession. apply usage_wp_bind.
  apply usage_wp_free.
  { unfold canPerformMenuOperation. script_auto. }
  { apply canPerformMenuOperation_never_throws. }
  intros []; cbn [negb]; [|simpl; usage_arith].
  apply usage_wp_try_catch. unfold startPrivateSession_try.
  apply usage_wp_bind. apply isPrivateSessionActive_usage.
  intros isActive u1 H1. destruct isActive; [simpl; usage_arith|].
  assert (Hcatch : ∀ u', at_most 2 1 1050 u u' →
            ∀ msg, usage_wp (startPrivateSession_catch msg) u'
                     (λ _ u'', at_most 4 2 1050 u u'') (λ _, False)).
  { intros u' Hu' msg. unfold startPrivateSession_catch. apply usage_wp_bind.
    apply cleanupMenuOperation_usage. intros u'' Hu''. simpl. usage_arith. }
  unfold handlePrivateSessionActivation. destruct forceOpen; cbn [negb].
  2: { simpl. usage_arith. }
  apply usage_wp_bind. unfold prepareMenuOperation.
  apply usage_wp_bind. apply (usage_wp_perform (WriteMenuOperationInProgress true)).
  intros []. apply usage_wp_bind. apply (usage_wp_perform DateNow). intros now.
  apply (usage_wp_perform (WriteLastMenuOperationTime now)). intros [].
  apply usage_wp_bind. apply openMainMenu_usage.
  2: { intros u2 H2. apply Hcatch. usage_arith. }
  intros m u2 H2.
  apply usage_wp_bind. apply activatePrivateSessionMenuItem_usage.
  2: { intros u3 H3. apply Hcatch. usage_arith. }
  intros r u3 H3.
  apply usage_wp_bind. apply cleanupMenuOperation_usage.
  intros u4 H4. simpl. usage_arith.
Qed.

Lemma startPrivateSession_false_usage u :
  usage_wp (startPrivateSession false) u (λ _ u', at_most 0 0 200 u u') (λ _, False).
Proof.
  unfold startPrivateSession. apply usage_wp_bind.
  apply usage_wp_free.
  { unfold canPerformMenuOperation. script_auto. }
  { apply canPerformMenuOperation_never_throws. }
  intros []; cbn [negb]; [|simpl; usage_arith].
  apply usage_wp_try_catch. unfold startPrivateSession_try.
  apply usage_wp_bind. apply isPrivateSessionActive_usage.
  intros isActive u1 H1. destruct isActive; simpl; usage_arith.
Qed.

(** Whatever the page does, one call of the composite operation makes at
    most four clicks (closing an open menu, opening the account menu, the
    menu item, closing again), sets at most two timers (the two delayed
    re-checks of the close), and asks to sleep for at most 1050 ms in all;
    without [forceOpen] it makes no click, sets no timer and sleeps at most
    200 ms. *)
Theorem startPrivateSession_stays_within_budget (h : Host) (forceOpen : bool) (w : World) :
  let u := usage (new_events w (exec h (startPrivateSession forceOpen) w).1) in
  (clicksMade u ≤ 4)%nat ∧ (timersSet u ≤ 2)%nat ∧ slept u ≤ 1050
  ∧ (forceOpen = false → clicksMade u = 0%nat ∧ timersSet u = 0%nat ∧ slept u ≤ 200).
Proof.
  intros u.
  pose proof (usage_wp_sound h _ _ _ _ w
                (startPrivateSession_usage forceOpen
                   {| clicksMade := 0; timersSet := 0; slept := 0 |})) as Hall.
  pose proof (usage_wp_sound h _ _ _ _ w
                (startPrivateSession_false_usage
                   {| clicksMade := 0; timersSet := 0; slept := 0 |})) as Hfalse.
  fold (usage (new_events w (exec h (startPrivateSession forceOpen) w).1)) in Hall.
  fold u in Hall.
  destruct ((exec h (startPrivateSession forceOpen) w).2); [|done].
  split; [usage_arith|]. split; [usage_arith|]. split; [usage_arith|].
  intros ->.
  fold (usage (new_events w (exec h (startPrivateSession false) w).1)) in Hfalse.
  fold u in Hfalse.
  destruct ((exec h (startPrivateSession false) w).2); [|done].
  usage_arith.
Qed.

Lemma startPrivateSession_stays_within_budget_witness :
  let u := usage (new_events initial_world
                    (exec (player false) (startPrivateSession false) initial_world).1) in
  clicksMade u = 0%nat ∧ timersSet u = 0%nat ∧ slept u ≤ 200.
Proof.
  apply (startPrivateSession_stays_within_budget (player false) false initial_world).
  reflexivity.
Defined.

(** The bounds on clicks and timers are reached: on the player whose menu
    was left open, the call closes it, opens it, clicks the item and closes
    it again. *)
Lemma startPrivateSession_budget_is_reached :
  usage (new_events menu_left_open
           (exec (player false) (startPrivateSession true) menu_left_open).1)
  = {| clicksMade := 4; timersSet := 2; slept := 650 |}.
Proof. vm_compute. reflexivity. Qed.

Section Budgets.

Context (h : Host).






End Budgets.

(** * The timer discipline under interleaving *)

Lemma tidy_wp_mono {A : Type} (p : Script A) w (Qr Qr' : A → World → Prop)
    (Qt Qt' : World → Prop) :
  (∀ a w', Qr a w' → Qr' a w') → (∀ w', Qt w' → Qt' w') →
  tidy_wp p w Qr Qt → tidy_wp p w Qr' Qt'.
Proof.
  intros Hr Ht. revert w. induction p as [a|msg|e k IH]; intros w; simpl; auto.
  intros H h. specialize (H h). destruct (delay_of e).
  - destruct H as [Hw H]. split; [done|]. intros w' Hw'. by apply IH, H.
  - by apply IH.
Qed.

Lemma tidy_wp_bind {A B : Type} (m : Script A) (f : A → Script B) w Qr Qt :
  tidy_wp m w (λ a w', tidy_wp (f a) w' Qr Qt) Qt → tidy_wp (bind m f) w Qr Qt.
Proof.
  revert w. induction m as [a|msg|e k IH]; intros w; simpl; [done..|].
  intros H h. specialize (H h). destruct (delay_of e).
  - destruct H as [Hw H]. split; [done|]. intros w' Hw'. by apply IH, H.
  - by apply IH.
Qed.

Lemma tidy_wp_try_catch {A : Type} (body : Script A) handler w Qr Qt :
  tidy_wp body w Qr (λ w', ∀ msg, tidy_wp (handler msg) w' Qr Qt) →
  tidy_wp (try_catch body handler) w Qr Qt.
Proof.
  revert w. induction body as [a|msg|e k IH]; intros w; simpl; [done| |].
  - intros H. apply H.
  - intros H h. specialize (H h). destruct (delay_of e).
    + destruct H as [Hw H]. split; [done|]. intros w' Hw'. by apply IH, H.
    + by apply IH.
Qed.

Lemma enable_keeps_timer_variable p :
  menuCloseTimer (vars (enablePersistentMode p)) = menuCloseTimer (vars p).
Proof.
  unfold enablePersistentMode. simpl. by destruct (focusEventListener (vars p)).
Qed.

(** An effect that is not a timer effect leaves the timers, the counter
    and the timer variable alone. *)
Lemma handle_plain h e w :
  timer_effect e = false → tidy w → tidy (handle h e w).1.
Proof.
  intros He Hw. eapply tidy_ext; [..|exact Hw]; destruct e; try done.
  simpl. unfold globals. simpl. by rewrite enable_keeps_timer_variable.
Qed.

Lemma tidy_wp_plain {A : Type} (p : Script A) w
    (Qr : A → World → Prop) (Qt : World → Prop) :
  avoids timer_effect p → tidy w →
  (∀ a w', tidy w' → Qr a w') → (∀ w', tidy w' → Qt w') →
  tidy_wp p w Qr Qt.
Proof.
  intros Hp Hw HQr HQt. revert w Hw.
  induction p as [a|msg|e k IH]; intros w Hw; simpl; [by apply HQr|by apply HQt|].
  destruct Hp as [He Hk]. intros h.
  pose proof (handle_plain h e w He Hw) as Hw1.
  destruct (delay_of e).
  - split; [done|]. intros w' Hw'. by apply IH.
  - by apply IH.
Qed.

Lemma timer_effect_side_effect e : timer_effect e = true → side_effect e = true.
Proof. by destruct e. Qed.

Lemma tidy_wp_looks {A : Type} (p : Script A) w
    (Qr : A → World → Prop) (Qt : World → Prop) :
  avoids side_effect p → tidy w →
  (∀ a w', tidy w' → Qr a w') → (∀ w', tidy w' → Qt w') →
  tidy_wp p w Qr Qt.
Proof.
  intros Hp. apply tidy_wp_plain.
  eapply avoids_weaken; [apply timer_effect_side_effect|exact Hp].
Qed.

Lemma tidy_wp_plain_total {A : Type} (p : Script A) w
    (Qr : A → World → Prop) (Qt : World → Prop) :
  avoids timer_effect p → throws_within [] p → tidy w →
  (∀ a w', tidy w' → Qr a w') →
  tidy_wp p w Qr Qt.
Proof.
  intros Hp Ht Hw HQr. revert w Hw.
  induction p as [a|msg|e k IH]; intros w Hw; simpl.
  - by apply HQr.
  - by apply elem_of_nil in Ht.
  - destruct Hp as [He Hk]. intros h.
    pose proof (handle_plain h e w He Hw) as Hw1.
    destruct (delay_of e).
    + split; [done|]. intros w' Hw'. apply IH; [apply Hk|apply Ht|done].
    + apply IH; [apply Hk|apply Ht|done].
Qed.

Lemma tidy_wp_perform e w (Qr : Resp e → World → Prop) Qt :
  timer_effect e = false → tidy w → (∀ x w', tidy w' → Qr x w') →
  tidy_wp (perform e) w Qr Qt.
Proof.
  intros He Hw HQ.
  apply tidy_wp_plain_total; [by apply avoids_perform|apply never_throws_perform|done..].
Qed.

Lemma tidy_remove_timer t w : tidy w → tidy (remove_timer t w).
Proof.
  intros (Hlt & Hvar & Hnd). split; [|split]; simpl.
  - intros x Hx. apply elem_of_List_filter in Hx as [Hx _]. by apply Hlt.
  - unfold pending_close_checks in *. simpl.
    change (menuCloseTimer (globals (remove_timer t w)))
      with (menuCloseTimer (globals w)).
    destruct (menuCloseTimer (globals w)) as [t'|].
    + intros x Hx. apply elem_of_List_filter in Hx as [Hx Hc].
      apply elem_of_List_filter in Hx as [Hx _].
      apply Hvar. by apply elem_of_List_filter.
    + apply List_filter_none. intros x Hx.
      apply elem_of_List_filter in Hx as [Hx _].
      destruct (is_close_check x) eqn:Hc; [|done].
      assert (x ∈ List.filter is_close_check (timers w)) as Hin
        by (by apply elem_of_List_filter).
      rewrite Hvar in Hin. by apply elem_of_nil in Hin.
  - by apply NoDup_map_filter.
Qed.

Lemma tidy_add_focus_check ms w : tidy w → tidy (add_timer FocusCheck ms w).
Proof.
  intros (Hlt & Hvar & Hnd). split; [|split]; simpl.
  - intros x Hx. apply elem_of_app in Hx as [Hx|Hx].
    + apply Hlt in Hx. lia.
    + apply list_elem_of_singleton in Hx as ->. simpl. lia.
  - unfold pending_close_checks in *. simpl.
    change (menuCloseTimer (globals (add_timer FocusCheck ms w)))
      with (menuCloseTimer (globals w)).
    rewrite List.filter_app. simpl. by rewrite app_nil_r.
  - rewrite map_app. simpl. apply NoDup_app. split; [done|]. split.
    + intros t Ht Ht'. apply list_elem_of_singleton in Ht' as ->.
      apply list_elem_of_fmap in Ht as (x & Hx1 & Hx2).
      apply Hlt in Hx2. unfold TimerId in *. lia.
    + apply NoDup_singleton.
Qed.

(** The close of the menu, as a segment without suspension. *)
Lemma ensureMenuClosed_tidy_wp w (Qr : unit → World → Prop) Qt :
  tidy w → (∀ w', tidy w' → Qr tt w') → tidy_wp ensureMenuClosed w Qr Qt.
Proof.
  intros Hw HQ. unfold ensureMenuClosed. simpl. intros h.
  assert (Hstage2 : ∀ w1, tidy w1 → menuCloseTimer (globals w1) = None →
            tidy_wp
              (openMenu <- querySelector PS_CSS_SELECTORS.PROFILE_DROPDOWN_MENU ;;
               match openMenu with
               | None => Ret tt
               | Some _ =>
                   menuButton <- querySelector PS_CSS_SELECTORS.MAIN_MENU ;;
                   match menuButton with
                   | None => Ret tt
                   | Some b =>
                       click b ;;
                       t <- setTimeout (MenuCloseCheck b) 150 ;;
                       perform (WriteMenuCloseTimer (Some t))
                   end
               end) w1 Qr Qt).
  { intros w1 Hw1 Hnone. simpl. intros h1.
    destruct (head (matching (document h1 (trace w1))
                             PS_CSS_SELECTORS.PROFILE_DROPDOWN_MENU)) as [openMenu|];
      simpl.
    - intros h2.
      match goal with |- context [head ?l] => destruct (head l) as [b|] end; simpl.
      + intros _ _ _. apply HQ.
        eapply tidy_ext; [..|apply (tidy_scheduled w1 b 150 Hw1 Hnone)]; reflexivity.
      + apply HQ. eapply tidy_ext; [..|exact Hw1]; reflexivity.
    - apply HQ. eapply tidy_ext; [..|exact Hw1]; reflexivity. }
  destruct (menuCloseTimer (globals w)) as [t|] eqn:Ht; simpl.
  - intros _ _. refine (Hstage2 _ _ _); [|reflexivity].
    eapply tidy_ext; [..|apply (tidy_cleared w t Hw Ht)]; reflexivity.
  - refine (Hstage2 _ _ _); [|exact Ht].
    eapply tidy_ext; [..|exact Hw]; reflexivity.
Qed.

Lemma ensureMenuClosed_keeps_tidy : keeps_tidy ensureMenuClosed.
Proof. intros w Hw. by apply ensureMenuClosed_tidy_wp. Qed.

Lemma keeps_tidy_use {A : Type} (p : Script A) w (Qr : A → World → Prop) Qt :
  keeps_tidy p → tidy w →
  (∀ a w', tidy w' → Qr a w') → (∀ w', tidy w' → Qt w') →
  tidy_wp p w Qr Qt.
Proof.
  intros Hp Hw HQr HQt.
  apply (tidy_wp_mono p w (λ _ w', tidy w') Qr tidy Qt); [done..|by apply Hp].
Qed.

Lemma keeps_tidy_plain {A : Type} (p : Script A) :
  avoids timer_effect p → keeps_tidy p.
Proof. intros Hp w Hw. by apply tidy_wp_plain. Qed.

Lemma keeps_tidy_looks {A : Type} (p : Script A) :
  avoids side_effect p → keeps_tidy p.
Proof. intros Hp w Hw. by apply tidy_wp_looks. Qed.

Lemma keeps_tidy_bind {A B : Type} (m : Script A) (f : A → Script B) :
  keeps_tidy m → (∀ a, keeps_tidy (f a)) → keeps_tidy (bind m f).
Proof.
  intros Hm Hf w Hw. apply tidy_wp_bind.
  apply keeps_tidy_use; [done..| |done]. intros a w' Hw'. by apply Hf.
Qed.

Lemma keeps_tidy_try_catch {A : Type} (body : Script A) handler :
  keeps_tidy body → (∀ msg, keeps_tidy (handler msg)) →
  keeps_tidy (try_catch body handler).
Proof.
  intros Hb Hh w Hw. apply tidy_wp_try_catch.
  apply keeps_tidy_use; [done..|]. intros w' Hw' msg. by apply Hh.
Qed.

Lemma cleanupMenuOperation_keeps_tidy : keeps_tidy cleanupMenuOperation.
Proof.
  apply keeps_tidy_bind; [apply ensureMenuClosed_keeps_tidy|]. intros _.
  apply keeps_tidy_plain. by apply avoids_perform.
Qed.

Lemma openMainMenu_keeps_tidy : keeps_tidy openMainMenu.
Proof.
  apply keeps_tidy_bind; [apply ensureMenuClosed_keeps_tidy|]. intros _.
  apply keeps_tidy_plain.
  apply avoids_bind; [by apply avoids_perform|]. intros _.
  apply avoids_bind.
  { eapply avoids_weaken; [apply timer_effect_side_effect|apply getElement_looks]. }
  intros [[m|es]|]; script_auto.
Qed.

Lemma activatePrivateSessionMenuItem_keeps_tidy :
  keeps_tidy activatePrivateSessionMenuItem.
Proof.
  apply keeps_tidy_plain. unfold activatePrivateSessionMenuItem. apply avoids_bind.
  { eapply avoids_weaken; [apply timer_effect_side_effect|apply findMenuItemButton_looks]. }
  intros [item|]; [|done]. unfold isMenuItemSelected. script_auto.
Qed.

Lemma startPrivateSession_keeps_tidy forceOpen : keeps_tidy (startPrivateSession forceOpen).
Proof.
  apply keeps_tidy_bind; [apply keeps_tidy_looks, canPerformMenuOperation_looks|].
  intros []; cbn [negb]; [|by apply keeps_tidy_plain].
  apply keeps_tidy_try_catch.
  - apply keeps_tidy_bind; [apply keeps_tidy_looks, isPrivateSessionActive_looks|].
    intros []; [by apply keeps_tidy_plain|].
    unfold handlePrivateSessionActivation.
    destruct forceOpen; cbn [negb]; [|by apply keeps_tidy_plain].
    apply keeps_tidy_bind.
    { apply keeps_tidy_plain. unfold prepareMenuOperation. script_auto. }
    intros _. apply keeps_tidy_bind; [apply openMainMenu_keeps_tidy|]. intros _.
    apply keeps_tidy_bind; [apply activatePrivateSessionMenuItem_keeps_tidy|]. intros _.
    apply keeps_tidy_bind; [apply cleanupMenuOperation_keeps_tidy|]. intros _.
    by apply keeps_tidy_plain.
  - intros msg. apply keeps_tidy_bind; [apply cleanupMenuOperation_keeps_tidy|].
    intros _. by apply keeps_tidy_plain.
Qed.

Lemma initializePrivateSession_keeps_tidy : keeps_tidy initializePrivateSession.
Proof.
  apply keeps_tidy_bind; [apply keeps_tidy_plain; by apply avoids_perform|]. intros _.
  apply keeps_tidy_bind; [apply keeps_tidy_plain; by apply avoids_perform|]. intros _.
  apply keeps_tidy_bind; [apply keeps_tidy_looks, isPrivateSessionActive_looks|].
  intros _.
  apply keeps_tidy_bind; [apply keeps_tidy_plain; by apply avoids_perform|]. intros g.
  apply keeps_tidy_bind.
  { destruct (persistentModeEnabled g); apply keeps_tidy_plain;
      [by apply avoids_perform|done]. }
  intros _.
  apply keeps_tidy_bind; [apply keeps_tidy_plain; by apply avoids_perform|]. intros _.
  apply keeps_tidy_bind; [apply keeps_tidy_looks, isPrivateSessionActive_looks|].
  intros []; cbn [negb]; [by apply keeps_tidy_plain|].
  apply keeps_tidy_bind; [apply startPrivateSession_keeps_tidy|]. intros _.
  by apply keeps_tidy_plain.
Qed.

Lemma focusCheck_keeps_tidy : keeps_tidy (callback_body FocusCheck).
Proof.
  cbn [callback_body].
  apply keeps_tidy_bind; [apply keeps_tidy_plain; by apply avoids_perform|]. intros _.
  apply keeps_tidy_bind; [apply keeps_tidy_plain; by apply avoids_perform|].
  intros openMenu.
  apply keeps_tidy_bind; [apply keeps_tidy_plain; by apply avoids_perform|]. intros g.
  destruct (negb (persistentModeEnabled g) || menuOperationInProgress g
            || bool_decide (is_Some openMenu)); [by apply keeps_tidy_plain|].
  apply keeps_tidy_bind; [apply keeps_tidy_looks, isPrivateSessionActive_looks|].
  intros isActive.
  apply keeps_tidy_bind; [apply keeps_tidy_plain; by apply avoids_perform|]. intros g'.
  destruct (negb isActive && persistentModeEnabled g'); [|by apply keeps_tidy_plain].
  apply keeps_tidy_bind; [apply startPrivateSession_keeps_tidy|]. intros _.
  by apply keeps_tidy_plain.
Qed.

Lemma focusEventListener_keeps_tidy : keeps_tidy focusEventListener_body.
Proof.
  intros w Hw. unfold focusEventListener_body. simpl. intros h.
  destruct (pendingFocusCheck (globals w)); simpl.
  - eapply tidy_ext; [..|exact Hw]; reflexivity.
  - intros _ _.
    eapply tidy_ext; [..|apply (tidy_add_focus_check 500 w Hw)]; reflexivity.
Qed.

Section LoopInvariant.

Context (h : Host).

(** One segment of a call: up to its next suspension, or to its end. *)
Lemma run_sync_tidy_wp {A : Type} (p : Script A) w Qr Qt :
  tidy_wp p w Qr Qt →
  match run_sync h p w with
  | (w', Finished (Returned a)) => Qr a w'
  | (w', Finished (Thrown _)) => Qt w'
  | (w', Sleeping _ k) => tidy w' ∧ ∀ w'', tidy w'' → tidy_wp k w'' Qr Qt
  end.
Proof.
  revert w. induction p as [a|msg|e k IH]; intros w Hp; simpl; [done..|].
  specialize (Hp h). destruct (handle h e w) as [w1 x] eqn:Hh. simpl in Hp.
  destruct (delay_of e); [done|]. by apply IH.
Qed.

Lemma run_sync_keeps_tidy {A : Type} (p : Script A) w :
  keeps_tidy p → tidy w →
  tidy (run_sync h p w).1
  ∧ match (run_sync h p w).2 with
    | Sleeping _ k => keeps_tidy k
    | Finished _ => True
    end.
Proof.
  intros Hp Hw. pose proof (run_sync_tidy_wp p w _ _ (Hp w Hw)) as H.
  destruct (run_sync h p w) as [w' [[a|msg]|ms k]]; simpl; [done..|].
  destruct H as [Hw' Hk]. split; [done|]. exact Hk.
Qed.

Lemma settle_keeps_tidy before after (s : Suspension Value) t :
  match s with Sleeping _ k => keeps_tidy k | Finished _ => True end →
  outcome (settle before after s t) = None →
  keeps_tidy (code (settle before after s t)).
Proof. destruct s as [r|ms k]; simpl; [done|]. by intros Hk _. Qed.

Lemma run_task_tidy i l :
  loop_tidy l →
  (∀ t, tasks l !! i = Some t → outcome t = None) →
  loop_tidy (run_task h i l).
Proof.
  intros [Hw Htasks] Hpending. unfold run_task.
  destruct (tasks l !! i) as [t|] eqn:Hi; [|done].
  assert (Hcode : keeps_tidy (code t)).
  { apply Htasks; [by eapply list_elem_of_lookup_2|by apply Hpending]. }
  pose proof (run_sync_keeps_tidy (code t) (world l) Hcode Hw) as [Hw' Hs].
  destruct (run_sync h (code t) (world l)) as [w' s]. simpl in *.
  split; [done|]. simpl. intros t' Hin Hnone.
  apply list_elem_of_lookup_1 in Hin as [j Hj].
  apply list_lookup_insert_Some in Hj as [(-> & <- & _)|[_ Hj]].
  - by apply settle_keeps_tidy.
  - apply Htasks; [by eapply list_elem_of_lookup_2|done].
Qed.

Lemma fire_timer_tidy t l : loop_tidy l → loop_tidy (fire_timer h t l).
Proof.
  intros [Hw Htasks].
  destruct (List.find (λ x, (fst x =? t)%nat) (timers (world l)))
    as [[t' [cb due]]|] eqn:Hfind.
  2: { unfold fire_timer. by rewrite Hfind. }
  apply ObserverFacts.find_some_elem in Hfind as Hin. destruct Hin as [Hin Heq].
  simpl in Heq. apply Nat.eqb_eq in Heq as ->.
  destruct cb as [b|].
  - destruct (fire_close_check h l t b due Hw Hin) as (Hw' & _ & _ & r & Hr & Hout).
    split; [done|]. intros t0 Ht0 Hnone. rewrite Hr in Ht0.
    apply elem_of_app in Ht0 as [Ht0|Ht0]; [by apply Htasks|].
    apply list_elem_of_singleton in Ht0 as ->. congruence.
  - unfold fire_timer. rewrite Hfind.
    set (w := remove_timer t (world l)).
    assert (Hcode : keeps_tidy (callback_body FocusCheck ;; Ret Undefined)).
    { apply keeps_tidy_bind; [apply focusCheck_keeps_tidy|]. intros _.
      by apply keeps_tidy_plain. }
    pose proof (run_sync_keeps_tidy _ w Hcode (tidy_remove_timer t _ Hw)) as [Hw' Hs].
    cbn [code].
    destruct (run_sync h (callback_body FocusCheck ;; Ret Undefined) w) as [w' s].
    simpl in *. split; [done|]. simpl. intros t0 Ht0 Hnone.
    apply elem_of_app in Ht0 as [Ht0|Ht0]; [by apply Htasks|].
    apply list_elem_of_singleton in Ht0 as ->. by apply settle_keeps_tidy.
Qed.

Lemma deliver_tidy k l : loop_tidy l → loop_tidy (deliver h k l).
Proof.
  intros [Hw Htasks]. unfold deliver.
  destruct (inbox l !! k) as [[due []]|]; [|done].
  split; [|done]. simpl.
  generalize (windowFocusListeners (page (world l))) as ls.
  revert Hw. generalize (world l) as w.
  intros w Hw ls. revert w Hw. induction ls as [|c ls IH]; intros w Hw; [done|].
  simpl. apply IH.
  by apply (run_sync_keeps_tidy focusEventListener_body w focusEventListener_keeps_tidy).
Qed.

Lemma earliest_elem (js : list (Z * Job)) j : earliest js = Some j → j ∈ js.
Proof.
  revert j. induction js as [|j0 js IH]; intros j; simpl; [done|].
  destruct (earliest js) as [j'|].
  - destruct (fst j' <? fst j0)%Z; intros [= <-].
    + right. by apply IH.
    + left.
  - intros [= <-]. left.
Qed.

Lemma turn_tidy l : loop_tidy l → loop_tidy (turn h l).
Proof.
  intros Hl. unfold turn.
  destruct (next_job l) as [[due j]|] eqn:Hnext; [|done].
  set (l' := {| world := set_clock (Z.max (clock (world l)) due) (world l);
                tasks := tasks l; inbox := inbox l |}).
  assert (Hl' : loop_tidy l').
  { destruct Hl as [Hw Htasks]. split; [|done].
    eapply tidy_ext; [..|exact Hw]; reflexivity. }
  destruct j as [i|t|k].
  - apply run_task_tidy; [done|]. intros t Ht.
    unfold next_job in Hnext. apply earliest_elem in Hnext.
    apply elem_of_List_filter in Hnext as [_ Hp].
    unfold is_pending in Hp. simpl in Hp, Ht. rewrite Ht in Hp.
    by apply bool_decide_eq_true in Hp.
  - by apply fire_timer_tidy.
  - by apply deliver_tidy.
Qed.

Lemma turns_tidy n l : loop_tidy l → loop_tidy (turns n h l).
Proof.
  revert l. induction n as [|n IH]; intros l Hl; [done|].
  simpl. by apply IH, turn_tidy.
Qed.

(** However the calls interleave, the timers stay in step with the timer
    variable: in an event loop that starts tidy, after any number of turns
    at most one re-check of the close is pending, and [menuCloseTimer]
    names it.  This holds for every host and every schedule, overlapping
    menu operations included. *)
Theorem one_close_check_at_any_time (l : Loop) (n : nat) (Hl : loop_tidy l) :
  let w := world (turns n h l) in
  loop_tidy (turns n h l)
  ∧ (length (pending_close_checks w) ≤ 1)%nat
  ∧ (∀ x, x ∈ pending_close_checks w → menuCloseTimer (globals w) = Some (fst x)).
Proof.
  intros w. pose proof (turns_tidy n l Hl) as Hn.
  split; [done|]. destruct Hn as [Hw _]. fold w in Hw.
  split; [by apply tidy_at_most_one|].
  intros x Hx. destruct Hw as (_ & Hvar & _).
  destruct (menuCloseTimer (globals w)) as [t|].
  - by rewrite (Hvar x Hx).
  - rewrite Hvar in Hx. by apply elem_of_nil in Hx.
Qed.

End LoopInvariant.

(** The scripts the loop starts with keep the world tidy. *)
Lemma call_at_keeps_tidy t forceOpen : keeps_tidy (code (call_at t forceOpen)).
Proof.
  cbn [code call_at]. apply keeps_tidy_bind; [apply startPrivateSession_keeps_tidy|].
  intros b. by apply keeps_tidy_plain.
Qed.

Lemma script_start_at_keeps_tidy t : keeps_tidy (code (script_start_at t)).
Proof.
  cbn [code script_start_at].
  apply keeps_tidy_bind; [apply initializePrivateSession_keeps_tidy|].
  intros _. by apply keeps_tidy_plain.
Qed.

Lemma two_calls_tidy : loop_tidy two_calls.
Proof.
  split.
  - eapply tidy_ext; [..|exact tidy_initial]; reflexivity.
  - intros t Ht _. simpl in Ht.
    apply elem_of_cons in Ht as [->|Ht]; [apply call_at_keeps_tidy|].
    apply list_elem_of_singleton in Ht as ->. apply call_at_keeps_tidy.
Qed.

Lemma one_close_check_at_any_time_witness :
  let w := world (turns 12 (player false) two_calls) in
  loop_tidy (turns 12 (player false) two_calls)
  ∧ (length (pending_close_checks w) ≤ 1)%nat
  ∧ (∀ x, x ∈ pending_close_checks w → menuCloseTimer (globals w) = Some (fst x)).
Proof. exact (one_close_check_at_any_time (player false) two_calls 12 two_calls_tidy). Defined.
